(** * The storage layer of the offline notes application

    A shallow embedding of [src/js/storage.js] (class [StorageManager]):
    the IndexedDB object store with its [localStorage] fallback, and the
    create / read / update / delete / search / export / import operations
    built on them.

    The development has four layers:
    - [JS]: the JavaScript values the storage layer handles (objects as finite
      maps from property names to values), with the handful of language
      operations the source uses: truthiness, [===], property access, object
      spread, [toLowerCase], [includes], [substr], the JSON round trip;
    - [DateTime]: [Date.prototype.toISOString] on a millisecond clock;
    - [IDB]: the IndexedDB object store ['notes'] with key path ['id'] and its
      ['folder'] index;
    - the [StorageManager] methods themselves, written in a small
      state-and-rejection monad [Async] over the browser state [World].

    Beside them stand the helpers of [src/js/notes.js] (class
    [NotesManager]) that need no document: [parseTags] and
    [getFolderNames].

    The operations are run one at a time, each to completion, on a manager
    whose [init()] has completed; [init] itself takes the answer of the
    platform to [indexedDB.open] as its argument. The platform is taken at
    its word where the source relies on it: a write to [localStorage]
    succeeds (no quota), a request on an open database fires [onsuccess]
    unless the engine has a reason to refuse it (an invalid key, a key that
    is already stored). What [getStorageStats] asks of the platform beyond
    the values modelled here (the length of a JSON text, the conversion of a
    text to a number, the parsing of a date that [toISOString] did not
    write) is a parameter, [Platform]. *)

From Stdlib Require Import ZArith NArith Ascii String List Lia.
From stdpp Require Import base option list gmap strings pretty.
From stdpp Require Import fin_maps fin_sets.

Set Warnings "-register-all,-clear-no-such-hyp".
Open Scope string_scope.

(** ** JavaScript values *)

Module JS.

(** Numbers are the integers: everything numeric the storage layer produces
    ([Date.now()], the schema version, a length) is one. An object is a finite
    map of its own enumerable properties. *)
Inductive JSValue : Type :=
| VUndefined
| VNull
| VBool (b : bool)
| VNum (z : Z)
| VStr (s : string)
| VArr (l : list JSValue)
| VObj (o : gmap string JSValue).

Abbreviation Obj := (gmap string JSValue).

(** What a rejected promise or a [throw] carries: [new Error(msg)], or one of
    the exceptions the platform raises. *)
Inductive JSError : Type :=
| Error (msg : string)
| TypeError
| SyntaxError
| DataError.

Inductive Outcome (A : Type) : Type :=
| Resolved (a : A)
| Rejected (e : JSError).
Arguments Resolved {A} a.
Arguments Rejected {A} e.

(** Size of a value, for induction under the two nestings. *)
Fixpoint vsize (v : JSValue) : nat :=
  match v with
  | VArr l => S (foldr (λ x acc, vsize x + acc) 0 l)
  | VObj o => S (map_fold (λ _ x acc, vsize x + acc) 0 o)
  | _ => 1
  end.

(** [ToBoolean]: the falsy values are undefined, null, false, 0 and the empty
    string; every array and object is truthy. *)
Definition truthy (v : JSValue) : bool :=
  match v with
  | VUndefined | VNull => false
  | VBool b => b
  | VNum z => negb (z =? 0)%Z
  | VStr s => negb (String.eqb s "")
  | VArr _ | VObj _ => true
  end.

(** [a || b] *)
Definition or_else (a b : JSValue) : JSValue := if truthy a then a else b.

(** [a === b]. Primitives compare by value. Arrays and objects compare by
    identity; every array or object compared in this program has just been
    read out of storage into a fresh object, so they are never identical. *)
Definition strict_equal (a b : JSValue) : bool :=
  match a, b with
  | VUndefined, VUndefined => true
  | VNull, VNull => true
  | VBool x, VBool y => Bool.eqb x y
  | VNum x, VNum y => (x =? y)%Z
  | VStr x, VStr y => String.eqb x y
  | _, _ => false
  end.

Definition is_array (v : JSValue) : bool :=
  match v with VArr _ => true | _ => false end.

Definition is_object (v : JSValue) : bool :=
  match v with VObj _ => true | _ => false end.

(** [v.k], for the property names the storage layer reads ([id], [title],
    [content], [tags], [folder], [notes]): reading from undefined or null
    throws; an object yields its property or undefined; a primitive or an
    array defines none of these names. *)
Definition get_prop (v : JSValue) (k : string) : Outcome JSValue :=
  match v with
  | VUndefined | VNull => Rejected TypeError
  | VObj o => Resolved (default VUndefined (o !! k))
  | _ => Resolved VUndefined
  end.

Fixpoint chars (s : string) : list JSValue :=
  match s with
  | EmptyString => []
  | String c s' => VStr (String c EmptyString) :: chars s'
  end.

Definition indexed (l : list JSValue) : Obj :=
  list_to_map (imap (λ i x, (pretty i, x)) l).

(** The own enumerable properties [{...v}] copies: those of an object, the
    indexed elements of an array or string, none for the other values
    (spreading undefined or null is allowed and copies nothing). *)
Definition own_props (v : JSValue) : Obj :=
  match v with
  | VObj o => o
  | VArr l => indexed l
  | VStr s => indexed (chars s)
  | _ => ∅
  end.

(** [{...target, ...source}]: the properties of [source] are written over
    those of [target]. *)
Definition spread (target source : Obj) : Obj := source ∪ target.

(** *** Strings *)

(** Strings are sequences of code units below 256, each the character of
    that code point (U+0000 to U+00FF). Among these [toLowerCase] maps the
    upper-case letters, A to Z (65-90) and À to Þ (192-222) without the
    multiplication sign (215), to the letter 32 units above, and leaves
    every other unit as it is. A text with a character beyond U+00FF is
    outside this model. *)
Definition lower_ascii (c : ascii) : ascii :=
  let n := nat_of_ascii c in
  if (65 <=? n)%nat && (n <=? 90)%nat
     || (192 <=? n)%nat && (n <=? 222)%nat && negb (n =? 215)%nat
  then ascii_of_nat (n + 32) else c.

Fixpoint toLowerCase (s : string) : string :=
  match s with
  | EmptyString => EmptyString
  | String c s' => String (lower_ascii c) (toLowerCase s')
  end.

(** [s.includes(sub)]: some suffix of [s] starts with [sub]. *)
Fixpoint includes (s sub : string) : bool :=
  String.prefix sub s ||
  match s with
  | EmptyString => false
  | String _ s' => includes s' sub
  end.

(** [s.substr(start, len)] *)
Definition substr (s : string) (start len : nat) : string :=
  String.substring start len s.

(** [v.toLowerCase()]: only a string has the method. *)
Definition call_toLowerCase (v : JSValue) : Outcome string :=
  match v with
  | VStr s => Resolved (toLowerCase s)
  | _ => Rejected TypeError
  end.

(** *** JSON *)

(** [JSON.parse(JSON.stringify(v))]: a property whose value is undefined is
    dropped, an undefined array element becomes null. *)
Fixpoint json_norm (v : JSValue) : JSValue :=
  match v with
  | VUndefined => VNull
  | VArr l => VArr (map json_norm l)
  | VObj o =>
      VObj (omap (λ x, match x with
                       | VUndefined => None
                       | _ => Some (json_norm x)
                       end) o)
  | _ => v
  end.

(** The text held under a [localStorage] key: either the text
    [JSON.stringify] wrote for a value, or some other text, which is not
    JSON ([Raw ""] is the empty text). *)
Inductive Text : Type :=
| Stringified (v : JSValue)
| Raw (s : string).

Definition JSON_stringify (v : JSValue) : Text := Stringified v.

Definition JSON_parse (t : Text) : Outcome JSValue :=
  match t with
  | Stringified v => Resolved (json_norm v)
  | Raw _ => Rejected SyntaxError
  end.

(** Truthiness of a text: only the empty text is falsy. *)
Definition text_truthy (t : Text) : bool :=
  match t with
  | Stringified _ => true
  | Raw s => negb (String.eqb s "")
  end.

End JS.
Export JS.

(** ** Time *)

Module DateTime.

(** Zero-padded decimal of [n], at least [width] digits. *)
Definition pad (width : nat) (n : N) : string :=
  let d := pretty n in
  String.concat "" (replicate (width - String.length d) "0") +:+ d.

(** Days since 1970-01-01 to (year, month, day) of the proleptic Gregorian
    calendar, by the usual era / day-of-era decomposition: days are shifted to
    count from 0000-03-01, so that the leap day ends a year. *)
Definition civil_from_days (days : N) : N * N * N :=
  let z := (days + 719468)%N in
  let era := (z / 146097)%N in
  let doe := (z - era * 146097)%N in
  let yoe := ((doe - doe / 1460 + doe / 36524 - doe / 146096) / 365)%N in
  let doy := (doe - (365 * yoe + yoe / 4 - yoe / 100))%N in
  let mp := ((5 * doy + 2) / 153)%N in
  let d := (doy - (153 * mp + 2) / 5 + 1)%N in
  let m := (if (mp <? 10)%N then mp + 3 else mp - 9)%N in
  let y := (yoe + era * 400 + (if (m <=? 2)%N then 1 else 0))%N in
  (y, m, d).

(** [new Date(t).toISOString()] for [t] milliseconds after the epoch:
    [YYYY-MM-DDTHH:mm:ss.sssZ], the year written with a sign and six digits
    past 9999. *)
Definition toISOString (t : N) : string :=
  let ms := (t mod 1000)%N in
  let s := (t / 1000 mod 60)%N in
  let mi := (t / 60000 mod 60)%N in
  let h := (t / 3600000 mod 24)%N in
  let '(y, m, d) := civil_from_days (t / 86400000)%N in
  (if (y <=? 9999)%N then pad 4 y else "+" +:+ pad 6 y)
    +:+ "-" +:+ pad 2 m +:+ "-" +:+ pad 2 d
    +:+ "T" +:+ pad 2 h +:+ ":" +:+ pad 2 mi +:+ ":" +:+ pad 2 s
    +:+ "." +:+ pad 3 ms +:+ "Z".

End DateTime.
Export DateTime.

(** *** Reading a date back *)

(** (year, month, day) to days since 1970-01-01: the inverse of
    [civil_from_days]. *)
Definition days_from_civil (y m d : N) : N :=
  let y' := (if (m <=? 2)%N then y - 1 else y)%N in
  let era := (y' / 400)%N in
  let yoe := (y' - era * 400)%N in
  let mp := (if (2 <? m)%N then m - 3 else m + 9)%N in
  let doy := ((153 * mp + 2) / 5 + d - 1)%N in
  let doe := (yoe * 365 + yoe / 4 - yoe / 100 + doy)%N in
  (era * 146097 + doe - 719468)%N.

(** The value of a decimal digit. *)
Definition digit_value (c : ascii) : option N :=
  let n := nat_of_ascii c in
  if (48 <=? n)%nat && (n <=? 57)%nat then Some (N.of_nat (n - 48)) else None.

(** Reads [count] decimal digits off the front of [s]. *)
Fixpoint read_digits (count : nat) (s : string) (acc : N)
    : option (N * string) :=
  match count with
  | O => Some (acc, s)
  | S count' =>
      match s with
      | String c s' =>
          d ← digit_value c; read_digits count' s' (acc * 10 + d)%N
      | EmptyString => None
      end
  end.

(** Reads the character [c] off the front of [s]. *)
Definition expect (c : ascii) (s : string) : option string :=
  match s with
  | String c' s' => if Ascii.eqb c c' then Some s' else None
  | EmptyString => None
  end.

(** The time value of a text in the format of [toISOString]: the fields are
    read off the text [YYYY-MM-DDTHH:mm:ss.sssZ], and the time value they
    give is accepted when [toISOString] writes it as that very text. *)
Definition parse_iso (text : string) : option N :=
  '(y, s) ← read_digits 4 text 0%N;
  s ← expect "-" s;
  '(m, s) ← read_digits 2 s 0%N;
  s ← expect "-" s;
  '(d, s) ← read_digits 2 s 0%N;
  s ← expect "T" s;
  '(h, s) ← read_digits 2 s 0%N;
  s ← expect ":" s;
  '(mi, s) ← read_digits 2 s 0%N;
  s ← expect ":" s;
  '(sec, s) ← read_digits 2 s 0%N;
  s ← expect "." s;
  '(ms, s) ← read_digits 3 s 0%N;
  s ← expect "Z" s;
  let t := (days_from_civil y m d * 86400000 + h * 3600000 + mi * 60000
            + sec * 1000 + ms)%N in
  if String.eqb s "" && String.eqb (toISOString t) text then Some t else None.

(** ** The IndexedDB object store *)

Module IDB.

(** A valid key is a number, a string, or an array of valid keys (dates and
    binary keys do not occur among [JSValue]s). *)
Inductive IDBKey : Type :=
| KNum (z : Z)
| KStr (s : string)
| KArr (l : list IDBKey).

Fixpoint key_tree (k : IDBKey) : gen_tree (Z + string) :=
  match k with
  | KNum z => GenLeaf (inl z)
  | KStr s => GenLeaf (inr s)
  | KArr l => GenNode 0 (map key_tree l)
  end.

Fixpoint tree_key (t : gen_tree (Z + string)) : IDBKey :=
  match t with
  | GenLeaf (inl z) => KNum z
  | GenLeaf (inr s) => KStr s
  | GenNode _ l => KArr (map tree_key l)
  end.

Lemma tree_key_tree (k : IDBKey) : tree_key (key_tree k) = k.
Proof.
  revert k. fix IH 1. intros [z|s|l]; simpl; [done..|].
  f_equal. induction l as [|k l IHl]; simpl; [done|].
  by rewrite IH, IHl.
Qed.

#[global] Instance IDBKey_eq_dec : EqDecision IDBKey.
Proof.
  refine (λ a b, cast_if (decide (key_tree a = key_tree b))).
  - abstract (by rewrite <-(tree_key_tree a), <-(tree_key_tree b); f_equal).
  - abstract congruence.
Defined.

#[global] Instance IDBKey_countable : Countable IDBKey :=
  inj_countable' key_tree tree_key tree_key_tree.

(** Conversion of a value to a key; [None] when the value is not a valid
    key (undefined, null, a boolean, an object, or an array holding one). *)
Fixpoint to_key (v : JSValue) : option IDBKey :=
  match v with
  | VNum z => Some (KNum z)
  | VStr s => Some (KStr s)
  | VArr l =>
      KArr <$> foldr (λ x acc, k ← to_key x; (k ::.) <$> acc) (Some []) l
  | _ => None
  end.

(** Evaluation of a key path (a property name) on a stored value. *)
Definition eval_key_path (path : string) (v : JSValue) : option IDBKey :=
  match v with
  | VObj o => o !! path ≫= to_key
  | _ => None
  end.

(** The object store ['notes']: its records by primary key (key path
    ['id']), and the ['folder'] index, which lists under each folder key the
    primary keys of the records whose [folder] is that key. The five other
    indexes of the schema are never read and, not being unique, never make a
    write fail; they are left out. *)
Record ObjectStore : Type := {
  records : gmap IDBKey JSValue;
  folder_index : gmap IDBKey (gset IDBKey)
}.

Definition empty_store : ObjectStore :=
  {| records := ∅; folder_index := ∅ |}.

Definition index_insert (fk : option IDBKey) (pk : IDBKey)
    (idx : gmap IDBKey (gset IDBKey)) : gmap IDBKey (gset IDBKey) :=
  match fk with
  | Some f => <[f := {[pk]} ∪ idx !!! f]> idx
  | None => idx
  end.

Definition index_remove (pk : IDBKey)
    (idx : gmap IDBKey (gset IDBKey)) : gmap IDBKey (gset IDBKey) :=
  (λ s, s ∖ {[pk]}) <$> idx.

(** Result of a request on the store: it throws synchronously ([Threw], a
    [DataError] for a value or query that yields no valid key), or it is
    queued and then fires [onsuccess] or [onerror]. *)
Inductive Request (A : Type) : Type :=
| Threw
| OnSuccess (result : A)
| OnError.
Arguments Threw {A}.
Arguments OnSuccess {A} result.
Arguments OnError {A}.

(** [store.add(value)]: fails when a record with the key exists. *)
Definition add (v : JSValue) (st : ObjectStore) : Request ObjectStore :=
  match eval_key_path "id" v with
  | None => Threw
  | Some k =>
      match records st !! k with
      | Some _ => OnError
      | None =>
          OnSuccess
            {| records := <[k := v]> (records st);
               folder_index :=
                 index_insert (eval_key_path "folder" v) k (folder_index st) |}
      end
  end.

(** [store.put(value)]: inserts, or replaces the record with the key. *)
Definition put (v : JSValue) (st : ObjectStore) : Request ObjectStore :=
  match eval_key_path "id" v with
  | None => Threw
  | Some k =>
      OnSuccess
        {| records := <[k := v]> (records st);
           folder_index :=
             index_insert (eval_key_path "folder" v) k
               (index_remove k (folder_index st)) |}
  end.

(** [store.get(query)]: the record, or undefined. *)
Definition get (query : JSValue) (st : ObjectStore) : Request JSValue :=
  match to_key query with
  | None => Threw
  | Some k => OnSuccess (default VUndefined (records st !! k))
  end.

(** [store.getAll()] *)
Definition getAll (st : ObjectStore) : list JSValue :=
  (map_to_list (records st)).*2.

(** [store.delete(query)] *)
Definition delete (query : JSValue) (st : ObjectStore) : Request ObjectStore :=
  match to_key query with
  | None => Threw
  | Some k =>
      OnSuccess
        {| records := base.delete k (records st);
           folder_index := index_remove k (folder_index st) |}
  end.

(** [store.clear()] *)
Definition clear (st : ObjectStore) : ObjectStore := empty_store.

(** [store.index('folder').getAll(query)]: the records the index lists under
    the key; with undefined or null as query, all the records it lists. *)
Definition index_getAll (query : JSValue) (st : ObjectStore)
    : Request (list JSValue) :=
  let fetch (pks : gset IDBKey) :=
    omap (λ pk, records st !! pk) (elements pks) in
  match query with
  | VUndefined | VNull =>
      OnSuccess (fetch (map_fold (λ _ s acc, s ∪ acc) ∅ (folder_index st)))
  | _ =>
      match to_key query with
      | None => Threw
      | Some f => OnSuccess (fetch (folder_index st !!! f))
      end
  end.

(** Consistency of a store: every record is filed under the key its [id]
    evaluates to, and the index lists exactly the records with a valid
    [folder] key, each under that key. *)
Definition store_wf (st : ObjectStore) : Prop :=
  (∀ k v, records st !! k = Some v → eval_key_path "id" v = Some k) ∧
  (∀ f pk, pk ∈ folder_index st !!! f ↔
     ∃ v, records st !! pk = Some v ∧ eval_key_path "folder" v = Some f).

End IDB.

(** ** The browser state and the monad of asynchronous operations *)

(** What the storage manager reads and writes: the backend flag
    [this.isIndexedDBSupported]; the object store behind [this.db]; whether
    the global [Storage] is defined ([typeof Storage !== 'undefined']); the
    text under the [localStorage] key ['offline_notes'] ([None]: no such
    item); the wall clock and the random generator, each as
    the sequence of its successive readings with the count of readings made
    so far. A reading of [random] is the base-36 text
    [Math.random().toString(36)]. *)
Record World : Type := {
  isIndexedDBSupported : bool;
  db : IDB.ObjectStore;
  Storage_defined : bool;
  offline_notes : option Text;
  clock : nat → N;
  clock_reads : nat;
  random : nat → string;
  random_draws : nat
}.

Definition set_db (st : IDB.ObjectStore) (w : World) : World :=
  {| isIndexedDBSupported := isIndexedDBSupported w; db := st;
     Storage_defined := Storage_defined w;
     offline_notes := offline_notes w;
     clock := clock w; clock_reads := clock_reads w;
     random := random w; random_draws := random_draws w |}.

Definition set_offline_notes (t : Text) (w : World) : World :=
  {| isIndexedDBSupported := isIndexedDBSupported w; db := db w;
     Storage_defined := Storage_defined w;
     offline_notes := Some t;
     clock := clock w; clock_reads := clock_reads w;
     random := random w; random_draws := random_draws w |}.

Definition tick (w : World) : World :=
  {| isIndexedDBSupported := isIndexedDBSupported w; db := db w;
     Storage_defined := Storage_defined w;
     offline_notes := offline_notes w;
     clock := clock w; clock_reads := S (clock_reads w);
     random := random w; random_draws := random_draws w |}.

Definition draw (w : World) : World :=
  {| isIndexedDBSupported := isIndexedDBSupported w; db := db w;
     Storage_defined := Storage_defined w;
     offline_notes := offline_notes w;
     clock := clock w; clock_reads := clock_reads w;
     random := random w; random_draws := S (random_draws w) |}.

(** [this.isIndexedDBSupported = b] *)
Definition set_isIndexedDBSupported (b : bool) (w : World) : World :=
  {| isIndexedDBSupported := b; db := db w;
     Storage_defined := Storage_defined w;
     offline_notes := offline_notes w;
     clock := clock w; clock_reads := clock_reads w;
     random := random w; random_draws := random_draws w |}.

(** An operation runs on the world and settles: it resolves with a value or
    rejects (throws) with an error. *)
Definition Async (A : Type) : Type := World → Outcome A * World.

Definition ret {A} (a : A) : Async A := λ w, (Resolved a, w).

Definition throw {A} (e : JSError) : Async A := λ w, (Rejected e, w).

(** [await]: a rejection propagates. *)
Definition bind {A B} (m : Async A) (k : A → Async B) : Async B :=
  λ w, match m w with
       | (Resolved a, w') => k a w'
       | (Rejected e, w') => (Rejected e, w')
       end.

(** [try { m } catch (error) { h }] *)
Definition try_catch {A} (m : Async A) (h : JSError → Async A) : Async A :=
  λ w, match m w with
       | (Resolved a, w') => (Resolved a, w')
       | (Rejected e, w') => h e w'
       end.

(** A synchronous expression that may throw. *)
Definition lift {A} (o : Outcome A) : Async A := λ w, (o, w).

Notation "'let!' x ':=' m 'in' k" := (bind m (λ x, k))
  (at level 10, x name, m at level 100, k at level 200, only parsing).

#[global] Instance outcome_ret : MRet Outcome := λ _ a, Resolved a.
#[global] Instance outcome_bind : MBind Outcome := λ _ _ k m,
  match m with
  | Resolved a => k a
  | Rejected e => Rejected e
  end.
#[global] Instance outcome_fmap : FMap Outcome := λ _ _ f m,
  match m with
  | Resolved a => Resolved (f a)
  | Rejected e => Rejected e
  end.

(** *** Array methods *)

(** A method of [Array.prototype] called on a value that is not an array is
    a [TypeError]. The callbacks may throw, which ends the iteration. *)
Definition as_array (v : JSValue) : Outcome (list JSValue) :=
  match v with
  | VArr l => Resolved l
  | _ => Rejected TypeError
  end.

Fixpoint find_from (p : JSValue → Outcome bool) (l : list JSValue)
    : Outcome JSValue :=
  match l with
  | [] => Resolved VUndefined
  | x :: l' => b ← p x; if b : bool then Resolved x else find_from p l'
  end.

Fixpoint findIndex_from (p : JSValue → Outcome bool) (l : list JSValue)
    (i : Z) : Outcome Z :=
  match l with
  | [] => Resolved (-1)%Z
  | x :: l' =>
      b ← p x; if b : bool then Resolved i else findIndex_from p l' (i + 1)%Z
  end.

Fixpoint filter_from (p : JSValue → Outcome bool) (l : list JSValue)
    : Outcome (list JSValue) :=
  match l with
  | [] => Resolved []
  | x :: l' =>
      b ← p x; r ← filter_from p l';
      Resolved (if b : bool then x :: r else r)
  end.

Fixpoint some_from (p : JSValue → Outcome bool) (l : list JSValue)
    : Outcome bool :=
  match l with
  | [] => Resolved false
  | x :: l' => b ← p x; if b : bool then Resolved true else some_from p l'
  end.

Definition array_find (p : JSValue → Outcome bool) (v : JSValue)
    : Outcome JSValue := l ← as_array v; find_from p l.

Definition array_findIndex (p : JSValue → Outcome bool) (v : JSValue)
    : Outcome Z := l ← as_array v; findIndex_from p l 0%Z.

Definition array_filter (p : JSValue → Outcome bool) (v : JSValue)
    : Outcome JSValue := l ← as_array v; VArr <$> filter_from p l.

Definition array_some (p : JSValue → Outcome bool) (v : JSValue)
    : Outcome bool := l ← as_array v; some_from p l.

(** [notes.push(note)] *)
Definition array_push (v x : JSValue) : Outcome JSValue :=
  l ← as_array v; Resolved (VArr (l ++ [x])).

(** [notes[index] = note], for an index within the array *)
Definition array_set (v : JSValue) (i : Z) (x : JSValue) : Outcome JSValue :=
  l ← as_array v; Resolved (VArr (<[Z.to_nat i := x]> l)).

(** *** Clock, random generator, local storage *)

(** [Date.now()] *)
Definition Date_now : Async N :=
  λ w, (Resolved (clock w (clock_reads w)), tick w).

(** [new Date().toISOString()] *)
Definition new_Date_toISOString : Async string :=
  let! t := Date_now in ret (toISOString t).

(** [Math.random().toString(36)] *)
Definition Math_random_toString36 : Async string :=
  λ w, (Resolved (random w (random_draws w)), draw w).

(** [typeof Storage !== 'undefined']. The source tests the global [Storage]
    and then uses [localStorage]; the model keeps the two apart as the
    source does. *)
Definition typeof_Storage : Async bool :=
  λ w, (Resolved (Storage_defined w), w).

(** [localStorage.getItem('offline_notes')] *)
Definition localStorage_getItem : Async (option Text) :=
  λ w, (Resolved (offline_notes w), w).

(** [localStorage.setItem('offline_notes', text)] *)
Definition localStorage_setItem (t : Text) : Async unit :=
  λ w, (Resolved tt, set_offline_notes t w).

(** An IndexedDB request wrapped in a promise, as every [...IndexedDB]
    method does: a synchronous throw inside the executor rejects the promise
    with the exception, [onerror] rejects with [new Error(msg)], [onsuccess]
    resolves. *)
Definition settle {A} (r : IDB.Request A) (msg : string) : Async A :=
  match r with
  | IDB.Threw => throw DataError
  | IDB.OnError => throw (Error msg)
  | IDB.OnSuccess a => ret a
  end.

Definition this_db : Async IDB.ObjectStore := λ w, (Resolved (db w), w).

Definition commit (st : IDB.ObjectStore) : Async unit :=
  λ w, (Resolved tt, set_db st w).

Definition this_isIndexedDBSupported : Async bool :=
  λ w, (Resolved (isIndexedDBSupported w), w).

(** ** StorageManager *)

Definition dbVersion : Z := 1.

(** [initLocalStorage] *)
Definition initLocalStorage : Async unit :=
  let! defined := typeof_Storage in
  if negb defined
  then throw (Error "Neither IndexedDB nor localStorage is supported")
  else
    let! item := localStorage_getItem in
    if match item with Some t => text_truthy t | None => false end
    then ret tt
    else localStorage_setItem (JSON_stringify (VArr [])).

(** [initIndexedDB]. What [indexedDB.open] answers is the platform's:
    [request] is the open request, which throws, fires [onerror], or fires
    [onsuccess] with the database, whose ['notes'] store [onupgradeneeded]
    has created where there was none. *)
Definition initIndexedDB (request : IDB.Request IDB.ObjectStore)
    : Async unit :=
  let! store := settle request "Failed to open IndexedDB" in
  commit store.

(** [init]. The fallback is initialised outside the [try]: what
    [initLocalStorage] throws rejects [init]. *)
Definition init (request : IDB.Request IDB.ObjectStore) : Async unit :=
  let! indexed := this_isIndexedDBSupported in
  let! _ :=
    if indexed : bool
    then try_catch (initIndexedDB request)
           (λ _ w, (Resolved tt, set_isIndexedDBSupported false w))
    else ret tt in
  let! indexed := this_isIndexedDBSupported in
  if indexed : bool then ret tt else initLocalStorage.

(** [getNotesFromLocalStorage] *)
Definition getNotesFromLocalStorage : Async JSValue :=
  let! notesJson := localStorage_getItem in
  match notesJson with
  | Some t => if text_truthy t then lift (JSON_parse t) else ret (VArr [])
  | None => ret (VArr [])
  end.

(** [generateId] *)
Definition generateId : Async string :=
  let! now := Date_now in
  let! r := Math_random_toString36 in
  ret ("note_" +:+ pretty now +:+ "_" +:+ substr r 2 9).

(** [createNoteIndexedDB] *)
Definition createNoteIndexedDB (note : JSValue) : Async JSValue :=
  let! store := this_db in
  let! store' := settle (IDB.add note store) "Failed to create note" in
  let! _ := commit store' in
  ret note.

(** [createNoteLocalStorage] *)
Definition createNoteLocalStorage (note : JSValue) : Async JSValue :=
  try_catch
    (let! notes := getNotesFromLocalStorage in
     let! notes' := lift (array_push notes note) in
     let! _ := localStorage_setItem (JSON_stringify notes') in
     ret note)
    (λ _, throw (Error "Failed to create note in localStorage")).

(** [createNote]: the object literal is evaluated property by property, the
    spread of [noteData] last. *)
Definition createNote (noteData : JSValue) : Async JSValue :=
  let! id := generateId in
  let! title := lift (get_prop noteData "title") in
  let! content := lift (get_prop noteData "content") in
  let! tags := lift (get_prop noteData "tags") in
  let! folder := lift (get_prop noteData "folder") in
  let! createdAt := new_Date_toISOString in
  let! updatedAt := new_Date_toISOString in
  let note :=
    VObj (spread
            {[ "id" := VStr id;
               "title" := or_else title (VStr "Untitled Note");
               "content" := or_else content (VStr "");
               "tags" := or_else tags (VArr []);
               "folder" := or_else folder (VStr "default");
               "createdAt" := VStr createdAt;
               "updatedAt" := VStr updatedAt ]}
            (own_props noteData)) in
  let! indexed := this_isIndexedDBSupported in
  if indexed : bool then createNoteIndexedDB note
  else createNoteLocalStorage note.

(** [getAllNotesIndexedDB] *)
Definition getAllNotesIndexedDB : Async JSValue :=
  let! store := this_db in
  let! result := settle (IDB.OnSuccess (IDB.getAll store))
                   "Failed to get notes" in
  ret (VArr result).

(** [getAllNotesLocalStorage] *)
Definition getAllNotesLocalStorage : Async JSValue :=
  try_catch
    (let! notes := getNotesFromLocalStorage in ret notes)
    (λ _, throw (Error "Failed to get notes from localStorage")).

(** [getAllNotes] *)
Definition getAllNotes : Async JSValue :=
  let! indexed := this_isIndexedDBSupported in
  if indexed : bool then getAllNotesIndexedDB else getAllNotesLocalStorage.

(** [getNoteIndexedDB] *)
Definition getNoteIndexedDB (id : JSValue) : Async JSValue :=
  let! store := this_db in
  settle (IDB.get id store) "Failed to get note".

(** [getNoteLocalStorage] *)
Definition getNoteLocalStorage (id : JSValue) : Async JSValue :=
  try_catch
    (let! notes := getNotesFromLocalStorage in
     let! note :=
       lift (array_find
               (λ n, nid ← get_prop n "id"; Resolved (strict_equal nid id))
               notes) in
     ret note)
    (λ _, throw (Error "Failed to get note from localStorage")).

(** [getNote] *)
Definition getNote (id : JSValue) : Async JSValue :=
  let! indexed := this_isIndexedDBSupported in
  if indexed : bool then getNoteIndexedDB id else getNoteLocalStorage id.

(** [updateNoteIndexedDB] *)
Definition updateNoteIndexedDB (note : JSValue) : Async JSValue :=
  let! store := this_db in
  let! store' := settle (IDB.put note store) "Failed to update note" in
  let! _ := commit store' in
  ret note.

(** [updateNoteLocalStorage] *)
Definition updateNoteLocalStorage (note : JSValue) : Async JSValue :=
  try_catch
    (let! notes := getNotesFromLocalStorage in
     let! index :=
       lift (array_findIndex
               (λ n, nid ← get_prop n "id"; id ← get_prop note "id";
                     Resolved (strict_equal nid id))
               notes) in
     if (index =? -1)%Z then throw (Error "Note not found")
     else
       let! notes' := lift (array_set notes index note) in
       let! _ := localStorage_setItem (JSON_stringify notes') in
       ret note)
    (λ _, throw (Error "Failed to update note in localStorage")).

(** [updateNote] *)
Definition updateNote (id updates : JSValue) : Async JSValue :=
  let! existingNote := getNote id in
  if negb (truthy existingNote) then throw (Error "Note not found")
  else
    let! now := new_Date_toISOString in
    let updatedNote :=
      VObj (<["updatedAt" := VStr now]>
              (spread (spread ∅ (own_props existingNote))
                      (own_props updates))) in
    let! indexed := this_isIndexedDBSupported in
    if indexed : bool then updateNoteIndexedDB updatedNote
    else updateNoteLocalStorage updatedNote.

(** [deleteNoteIndexedDB] *)
Definition deleteNoteIndexedDB (id : JSValue) : Async JSValue :=
  let! store := this_db in
  let! store' := settle (IDB.delete id store) "Failed to delete note" in
  let! _ := commit store' in
  ret (VBool true).

(** [deleteNoteLocalStorage] *)
Definition deleteNoteLocalStorage (id : JSValue) : Async JSValue :=
  try_catch
    (let! notes := getNotesFromLocalStorage in
     let! filteredNotes :=
       lift (array_filter
               (λ n, nid ← get_prop n "id";
                     Resolved (negb (strict_equal nid id)))
               notes) in
     let! _ := localStorage_setItem (JSON_stringify filteredNotes) in
     ret (VBool true))
    (λ _, throw (Error "Failed to delete note from localStorage")).

(** [deleteNote] *)
Definition deleteNote (id : JSValue) : Async JSValue :=
  let! indexed := this_isIndexedDBSupported in
  if indexed : bool then deleteNoteIndexedDB id else deleteNoteLocalStorage id.

(** The filter callback of [searchNotes]; [||] evaluates its right operand
    only when the left one is false. *)
Definition search_match (searchTerm : string) (note : JSValue) : Outcome bool :=
  title ← get_prop note "title";
  title_lc ← call_toLowerCase title;
  if includes title_lc searchTerm then Resolved true
  else
    content ← get_prop note "content";
    content_lc ← call_toLowerCase content;
    if includes content_lc searchTerm then Resolved true
    else
      tags ← get_prop note "tags";
      array_some
        (λ tag, tag_lc ← call_toLowerCase tag;
                Resolved (includes tag_lc searchTerm))
        tags.

(** [searchNotes] *)
Definition searchNotes (query : JSValue) : Async JSValue :=
  let! allNotes := getAllNotes in
  let! searchTerm := lift (call_toLowerCase query) in
  lift (array_filter (search_match searchTerm) allNotes).

(** [getNotesByFolderIndexedDB] *)
Definition getNotesByFolderIndexedDB (folder : JSValue) : Async JSValue :=
  let! store := this_db in
  let! result := settle (IDB.index_getAll folder store)
                   "Failed to get notes by folder" in
  ret (VArr result).

(** [getNotesByFolder] *)
Definition getNotesByFolder (folder : JSValue) : Async JSValue :=
  let! indexed := this_isIndexedDBSupported in
  if indexed : bool then getNotesByFolderIndexedDB folder
  else
    let! allNotes := getAllNotes in
    lift (array_filter
            (λ note, f ← get_prop note "folder";
                     Resolved (strict_equal f folder))
            allNotes).

(** [exportData] *)
Definition exportData : Async JSValue :=
  let! notes := getAllNotes in
  let! exportDate := new_Date_toISOString in
  ret (VObj {[ "version" := VNum dbVersion;
               "exportDate" := VStr exportDate;
               "notes" := notes ]}).

(** [clearAllDataIndexedDB] *)
Definition clearAllDataIndexedDB : Async JSValue :=
  let! store := this_db in
  let! store' := settle (IDB.OnSuccess (IDB.clear store))
                   "Failed to clear data" in
  let! _ := commit store' in
  ret (VBool true).

(** [clearAllDataLocalStorage] *)
Definition clearAllDataLocalStorage : Async JSValue :=
  try_catch
    (let! _ := localStorage_setItem (JSON_stringify (VArr [])) in
     ret (VBool true))
    (λ _, throw (Error "Failed to clear localStorage data")).

(** [clearAllData] *)
Definition clearAllData : Async JSValue :=
  let! indexed := this_isIndexedDBSupported in
  if indexed : bool then clearAllDataIndexedDB else clearAllDataLocalStorage.

(** [for (const x of xs) { await body(x); }] *)
Fixpoint for_of (body : JSValue → Async JSValue) (xs : list JSValue)
    : Async unit :=
  match xs with
  | [] => ret tt
  | x :: xs' => let! _ := body x in for_of body xs'
  end.

(** [importData] *)
Definition importData (data : JSValue) : Async JSValue :=
  let! notes := lift (get_prop data "notes") in
  if negb (truthy notes) || negb (is_array notes)
  then throw (Error "Invalid import data format")
  else
    let! _ := clearAllData in
    let! items := lift (as_array notes) in
    let! _ := for_of createNote items in
    ret (VNum (Z.of_nat (length items))).

(** *** Statistics *)

(** A number that may be NaN or -Infinity, as a time value and a maximum
    may be. *)
Inductive Num : Type :=
| NaN
| NegInfinity
| Finite (z : Z).

(** What the model leaves to the platform: the length of a text; whether a
    value that is a text, an array or an object is greater than zero once
    converted to a number; the time value [new Date(v)] gives a text that
    is not in the format of [toISOString], an array or an object. *)
Record Platform : Type := {
  text_length : Text → Z;
  to_number_positive : JSValue → bool;
  legacy_date : JSValue → Num
}.

(** [TimeClip] *)
Definition time_clip (z : Z) : Num :=
  if (Z.abs z <=? 8640000000000000)%Z then Finite z else NaN.

(** [new Date(v).getTime()]: a text is parsed, any other primitive is
    converted to a number. *)
Definition Date_getTime (p : Platform) (v : JSValue) : Num :=
  match v with
  | VUndefined => NaN
  | VNull => Finite 0
  | VBool b => Finite (if b then 1 else 0)
  | VNum z => time_clip z
  | VStr s =>
      match parse_iso s with
      | Some t => Finite (Z.of_N t)
      | None => legacy_date p v
      end
  | VArr _ | VObj _ => legacy_date p v
  end.

Definition num_max (a b : Num) : Num :=
  match a, b with
  | NaN, _ | _, NaN => NaN
  | NegInfinity, x | x, NegInfinity => x
  | Finite x, Finite y => Finite (Z.max x y)
  end.

(** [Math.max(...xs)]: NaN when some argument is, -Infinity without
    arguments. *)
Definition Math_max (xs : list Num) : Num := foldr num_max NegInfinity xs.

(** [v.length] *)
Definition get_length (v : JSValue) : Outcome JSValue :=
  match v with
  | VUndefined | VNull => Rejected TypeError
  | VArr l => Resolved (VNum (Z.of_nat (length l)))
  | VStr s => Resolved (VNum (Z.of_nat (String.length s)))
  | VObj o => Resolved (default VUndefined (o !! "length"))
  | _ => Resolved VUndefined
  end.

(** [v > 0] *)
Definition greater_than_zero (p : Platform) (v : JSValue) : bool :=
  match v with
  | VUndefined | VNull => false
  | VBool b => b
  | VNum z => (0 <? z)%Z
  | _ => to_number_positive p v
  end.

Fixpoint map_from {A} (f : JSValue → Outcome A) (l : list JSValue)
    : Outcome (list A) :=
  match l with
  | [] => Resolved []
  | x :: l' => y ← f x; ys ← map_from f l'; Resolved (y :: ys)
  end.

(** [v.map(f)] *)
Definition array_map {A} (f : JSValue → Outcome A) (v : JSValue)
    : Outcome (list A) := l ← as_array v; map_from f l.

(** [JSON.stringify(v).length]: [JSON.stringify(undefined)] is undefined. *)
Definition stringify_length (p : Platform) (v : JSValue) : Outcome Z :=
  match v with
  | VUndefined => Rejected TypeError
  | _ => Resolved (text_length p (JSON_stringify v))
  end.

(** What [getStorageStats] returns; [lastUpdated] is [None] for null. *)
Record StorageStats : Type := {
  totalNotes : JSValue;
  totalSize : Z;
  storageType : string;
  lastUpdated : option Num
}.

(** [getStorageStats] *)
Definition getStorageStats (p : Platform) : Async StorageStats :=
  let! notes := getAllNotes in
  let! totalNotes := lift (get_length notes) in
  let! totalSize := lift (stringify_length p notes) in
  let! indexed := this_isIndexedDBSupported in
  let! len := lift (get_length notes) in
  let! lastUpdated :=
    if greater_than_zero p len
    then
      let! times :=
        lift (array_map
                (λ n, updatedAt ← get_prop n "updatedAt";
                      Resolved (Date_getTime p updatedAt))
                notes) in
      ret (Some (Math_max times))
    else ret None in
  ret {| totalNotes := totalNotes;
         totalSize := totalSize;
         storageType := if indexed : bool then "IndexedDB" else "localStorage";
         lastUpdated := lastUpdated |}.

(** ** NotesManager: the helpers without a document *)

(** [s.split(sep)], for a separator of one character: the pieces between
    the separators, the empty ones included. *)
Fixpoint split_on (sep : ascii) (s : string) : list string :=
  match s with
  | EmptyString => [EmptyString]
  | String c s' =>
      if Ascii.eqb c sep then EmptyString :: split_on sep s'
      else
        match split_on sep s' with
        | piece :: pieces => String c piece :: pieces
        | [] => [String c EmptyString]
        end
  end.

(** White space and line terminators among the 8-bit code units: tab, line
    feed, vertical tab, form feed, carriage return, space, no-break space. *)
Definition is_white_space (c : ascii) : bool :=
  let n := nat_of_ascii c in
  ((9 <=? n)%nat && (n <=? 13)%nat) || (n =? 32)%nat || (n =? 160)%nat.

Fixpoint trimStart (s : string) : string :=
  match s with
  | EmptyString => EmptyString
  | String c s' => if is_white_space c then trimStart s' else s
  end.

Fixpoint trimEnd (s : string) : string :=
  match s with
  | EmptyString => EmptyString
  | String c s' =>
      match trimEnd s' with
      | EmptyString =>
          if is_white_space c then EmptyString else String c EmptyString
      | rest => String c rest
      end
  end.

(** [s.trim()] *)
Definition trim (s : string) : string := trimEnd (trimStart s).

(** [parseTags] *)
Definition parseTags (tagsString : string) : list string :=
  List.filter (λ tag, (0 <? String.length tag)%nat)
    (map trim (split_on "," tagsString)).

(** [tags.join(', ')], as the editor shows the tags of a note. *)
Definition join_tags (tags : list string) : string := String.concat ", " tags.

Fixpoint has_char (c : ascii) (s : string) : bool :=
  match s with
  | EmptyString => false
  | String c' s' => Ascii.eqb c' c || has_char c s'
  end.

(** A tag as [parseTags] yields them: not empty, without comma, without
    white space at either end. *)
Definition clean_tag (tag : string) : Prop :=
  tag ≠ "" ∧ has_char "," tag = false ∧ trim tag = tag.

(** [new Set()] with [add]: the values in the order of their first
    insertion; a value is in the set when it is the same value as one of
    them. *)
Definition set_add (x : JSValue) (s : list JSValue) : list JSValue :=
  if existsb (strict_equal x) s then s else (s ++ [x])%list.

(** The [forEach] of [getFolderNames] *)
Fixpoint collect_folders (notes folders : list JSValue)
    : Outcome (list JSValue) :=
  match notes with
  | [] => Resolved folders
  | note :: notes' =>
      folder ← get_prop note "folder";
      collect_folders notes'
        (if truthy folder && negb (strict_equal folder (VStr "default"))
         then set_add folder folders else folders)
  end.

(** [getFolderNames], on the notes the manager holds *)
Definition getFolderNames (notes : list JSValue) : Outcome (list JSValue) :=
  collect_folders notes [].

(** ** Vocabulary of the specification *)

(** *** Notes and their fields *)

(** The seven fields of a note. *)
Definition note_fields : list string :=
  ["id"; "title"; "content"; "tags"; "folder"; "createdAt"; "updatedAt"].

(** [v.k], total: undefined where the access yields nothing. *)
Definition field (k : string) (v : JSValue) : JSValue :=
  match v with
  | VObj o => default VUndefined (o !! k)
  | _ => VUndefined
  end.

Definition is_nullish (v : JSValue) : bool :=
  match v with VUndefined | VNull => true | _ => false end.

Definition is_text (v : JSValue) : bool :=
  match v with VStr _ => true | _ => false end.

(** The value is an object with all seven fields. *)
Definition has_all_fields (v : JSValue) : bool :=
  match v with
  | VObj o =>
      forallb (λ k, match o !! k with Some _ => true | None => false end)
        note_fields
  | _ => false
  end.

(** A note typed as the data model has it: title and content are texts, tags
    is a sequence of texts. *)
Definition well_typed (n : JSValue) : bool :=
  is_text (field "title" n) && is_text (field "content" n) &&
  match field "tags" n with
  | VArr tags => forallb is_text tags
  | _ => false
  end.

(** *** Stores *)

(** A world is consistent when the object store in use is. *)
Definition world_wf (w : World) : Prop :=
  isIndexedDBSupported w = true → IDB.store_wf (db w).

(** What [getNotesFromLocalStorage] makes of the stored text. *)
Definition parsed_notes (w : World) : Outcome JSValue :=
  match offline_notes w with
  | Some t => if text_truthy t then JSON_parse t else Resolved (VArr [])
  | None => Resolved (VArr [])
  end.

(** The store holds the collection [notes], each an object. *)
Definition stored_notes (w : World) (notes : list JSValue) : Prop :=
  getAllNotes w = (Resolved (VArr notes), w) ∧
  forallb is_object notes = true.

(** The record as the backend in use holds it. *)
Definition as_stored (w : World) (note : JSValue) : JSValue :=
  if isIndexedDBSupported w then note else json_norm note.

(** The store is sound: it is consistent, and what it holds is a
    collection of note objects. *)
Definition sound (w : World) : Prop :=
  world_wf w ∧ ∃ notes, stored_notes w notes.

(** The operations that write. *)
Inductive Write : Type :=
| CreateNote (noteData : JSValue)
| UpdateNote (id updates : JSValue)
| DeleteNote (id : JSValue)
| ClearAllData
| ImportData (data : JSValue).

Definition run_write (op : Write) : Async JSValue :=
  match op with
  | CreateNote noteData => createNote noteData
  | UpdateNote id updates => updateNote id updates
  | DeleteNote id => deleteNote id
  | ClearAllData => clearAllData
  | ImportData data => importData data
  end.

(** A sequence of writes, each run to its end, resolved or rejected, before
    the next. *)
Fixpoint run_writes (ops : list Write) (w : World) : World :=
  match ops with
  | [] => w
  | op :: ops' => run_writes ops' (run_write op w).2
  end.

(** *** Creation *)

(** The id [generateId] builds from a clock reading and a random text. *)
Definition make_id (now : N) (r : string) : string :=
  "note_" +:+ pretty now +:+ "_" +:+ substr r 2 9.

(** The note [createNote] builds from [noteData] in the world [w]: the first
    clock reading and the random draw go into the id, the second and third
    readings into [createdAt] and [updatedAt]. *)
Definition new_note (noteData : JSValue) (w : World) : JSValue :=
  let c := clock_reads w in
  VObj (spread
          {[ "id" := VStr (make_id (clock w c) (random w (random_draws w)));
             "title" :=
               or_else (field "title" noteData) (VStr "Untitled Note");
             "content" := or_else (field "content" noteData) (VStr "");
             "tags" := or_else (field "tags" noteData) (VArr []);
             "folder" := or_else (field "folder" noteData) (VStr "default");
             "createdAt" := VStr (toISOString (clock w (S c)));
             "updatedAt" := VStr (toISOString (clock w (S (S c)))) ]}
          (own_props noteData)).

(** The world once [createNote] has built its note. *)
Definition stamped (w : World) : World := tick (tick (draw (tick w))).

(** The input brings an id of its own. *)
Definition carries_id (v : JSValue) : bool :=
  match own_props v !! "id" with Some _ => true | None => false end.

(** A sequence of [createNote] calls, one per input, each awaited before
    the next, with the outcome of each. *)
Fixpoint create_all (inputs : list JSValue) (w : World)
    : list (Outcome JSValue) * World :=
  match inputs with
  | [] => ([], w)
  | x :: xs =>
      let '(o, w1) := createNote x w in
      let '(os, w2) := create_all xs w1 in
      (o :: os, w2)
  end.

(** The ids of the notes a sequence of calls returned. *)
Definition returned_ids (outs : list (Outcome JSValue)) : list JSValue :=
  omap (λ o, match o with
             | Resolved n => Some (field "id" n)
             | Rejected _ => None
             end) outs.

Fixpoint has_underscore (s : string) : bool :=
  match s with
  | EmptyString => false
  | String c s' => Ascii.eqb c "_" || has_underscore s'
  end.

(** What the next call of [generateId] draws in the world [w]: the
    millisecond the clock reads and the nine-character suffix of the random
    text. *)
Definition next_draw (w : World) : N * string :=
  (clock w (clock_reads w), substr (random w (random_draws w)) 2 9).

(** The id [generateId] builds from a draw. *)
Definition draw_id (d : N * string) : JSValue :=
  VStr ("note_" +:+ pretty d.1 +:+ "_" +:+ d.2).

(** The draws behind the notes a sequence of [createNote] calls returns:
    each call starts with [generateId], in the world the call before it
    left; a call that rejects returns no note. *)
Fixpoint id_draws (inputs : list JSValue) (w : World) : list (N * string) :=
  match inputs with
  | [] => []
  | x :: xs =>
      match (createNote x w).1 with
      | Resolved _ => [next_draw w]
      | Rejected _ => []
      end ++ id_draws xs (createNote x w).2
  end.

(** No two of the draws that the calls on [inputs] make from [w], and that
    end in a returned note, coincide. *)
Definition distinct_draws (inputs : list JSValue) (w : World) : Prop :=
  NoDup (id_draws inputs w).

(** *** Lookup and update *)

(** The test [n => n.id === id] of [find] and [findIndex]. *)
Definition has_id (id n : JSValue) : Outcome bool :=
  nid ← get_prop n "id"; Resolved (strict_equal nid id).

(** [x] at index [i] is the first element of [l] that passes the test [p],
    the test failing, without throwing, on the elements before it. *)
Definition first_at (p : JSValue → Outcome bool) (l : list JSValue)
    (i : nat) (x : JSValue) : Prop :=
  l !! i = Some x ∧ p x = Resolved true ∧
  ∀ j y, (j < i)%nat → l !! j = Some y → p y = Resolved false.

(** The note [updateNote] builds from the stored note, the updates and the
    clock reading. *)
Definition updated_note (existingNote updates : JSValue) (now : N)
    : JSValue :=
  VObj (<["updatedAt" := VStr (toISOString now)]>
          (spread (spread ∅ (own_props existingNote)) (own_props updates))).

(** The time a timestamp records, [new Date(v).getTime()], for a text that
    [toISOString] wrote. *)
Definition time_of (v : JSValue) : option N :=
  match v with
  | VStr s => parse_iso s
  | _ => None
  end.

(** The timestamp [a] records a later time than the timestamp [b]. *)
Definition later (a b : JSValue) : Prop :=
  ∃ ta tb, time_of a = Some ta ∧ time_of b = Some tb ∧ (tb < ta)%N.

(** The updates leave the id alone: they carry none, or the very [id]. *)
Definition keeps_id (id updates : JSValue) : bool :=
  match own_props updates !! "id" with
  | Some x => strict_equal x id
  | None => true
  end.

(** The note's id is another than [id]: the test [n => n.id !== id]. *)
Definition other_id (id n : JSValue) : bool :=
  negb (strict_equal (field "id" n) id).

(** The ids of the notes, when each is a text. *)
Definition text_ids (l : list JSValue) : option (list string) :=
  mapM (λ v, match field "id" v with VStr s => Some s | _ => None end) l.

(** *** Folders and search *)

(** The note's [folder] is the label [f]. *)
Definition in_folder (f : string) (n : JSValue) : bool :=
  strict_equal (field "folder" n) (VStr f).

(** [sub] occurs in [s]. *)
Definition is_substring (sub s : string) : Prop :=
  ∃ pre post, s = pre +:+ sub +:+ post.

(** The note matches the query: the lowercased query occurs in the lowercased
    title, or in the lowercased content, or in some lowercased tag. *)
Definition matches (q : string) (n : JSValue) : Prop :=
  (∃ title, field "title" n = VStr title ∧
            is_substring (toLowerCase q) (toLowerCase title)) ∨
  (∃ content, field "content" n = VStr content ∧
              is_substring (toLowerCase q) (toLowerCase content)) ∨
  (∃ tags tag, field "tags" n = VArr tags ∧ VStr tag ∈ tags ∧
               is_substring (toLowerCase q) (toLowerCase tag)).

(** The decision the filter of [searchNotes] takes on a well-typed note,
    given the lowercased query. *)
Definition tag_keep (term : string) (tag : JSValue) : bool :=
  match tag with
  | VStr s => includes (toLowerCase s) term
  | _ => false
  end.

Definition search_keep (term : string) (n : JSValue) : bool :=
  match field "title" n, field "content" n, field "tags" n with
  | VStr title, VStr content, VArr tags =>
      includes (toLowerCase title) term
      || includes (toLowerCase content) term
      || existsb (tag_keep term) tags
  | _, _, _ => false
  end.

(** Whether the note matches, decided on any note: a field of another type
    than the data model gives it holds no occurrence. *)
Definition match_keep (term : string) (n : JSValue) : bool :=
  match field "title" n with
  | VStr title => includes (toLowerCase title) term
  | _ => false
  end
  || match field "content" n with
     | VStr content => includes (toLowerCase content) term
     | _ => false
     end
  || match field "tags" n with
     | VArr tags => existsb (tag_keep term) tags
     | _ => false
     end.

(** *** Decimal digits *)

(** The decimal digits of [n], [w] of them, before [s]. *)
Fixpoint digits (w : nat) (n : N) (s : string) : string :=
  match w with
  | O => s
  | S w' => digits w' (n / 10)%N (String (pretty_N_char (n mod 10)%N) s)
  end.

(** [k] zeros. *)
Fixpoint zeros (k : nat) : string :=
  match k with
  | O => EmptyString
  | S k' => String "0" (zeros k')
  end.

(** ** Sample worlds *)

Definition sample_clock (n : nat) : N := (1700000000000 + N.of_nat n)%N.

Definition sample_random (n : nat) : string :=
  "0." +:+ pretty n +:+ "fzyo82mvyr".

(** A world on the fallback backend holding the given text. *)
Definition fallback_world (item : option Text) : World :=
  {| isIndexedDBSupported := false; db := IDB.empty_store;
     Storage_defined := true;
     offline_notes := item;
     clock := sample_clock; clock_reads := 0;
     random := sample_random; random_draws := 0 |}.

(** A world on the primary backend with the given store. *)
Definition primary_world (st : IDB.ObjectStore) : World :=
  {| isIndexedDBSupported := true; db := st;
     Storage_defined := true;
     offline_notes := None;
     clock := sample_clock; clock_reads := 0;
     random := sample_random; random_draws := 0 |}.

(** The store built by putting the given records, in order. *)
Definition store_of (l : list JSValue) : IDB.ObjectStore :=
  foldl (λ st v, match IDB.put v st with
                 | IDB.OnSuccess st' => st'
                 | _ => st
                 end) IDB.empty_store l.

Definition sample_note (id title folder : string) (tags : list string)
    (created updated : N) : JSValue :=
  VObj {[ "id" := VStr id;
          "title" := VStr title;
          "content" := VStr ("About " +:+ title);
          "tags" := VArr (VStr <$> tags);
          "folder" := VStr folder;
          "createdAt" := VStr (toISOString created);
          "updatedAt" := VStr (toISOString updated) ]}.

Definition sample_notes : list JSValue :=
  [ sample_note "note_1" "Groceries" "home" ["Food"; "list"]
      1600000000000 1600000000000;
    sample_note "note_2" "Sprint plan" "work" ["planning"]
      1600000100000 1600000200000;
    sample_note "note_3" "Retro" "work" []
      1600000300000 1600000300000 ].

Definition empty_fallback : World :=
  fallback_world (Some (Stringified (VArr []))).

Definition sample_fallback : World :=
  fallback_world (Some (Stringified (VArr sample_notes))).

Definition corrupted_fallback : World :=
  fallback_world (Some (Raw "invalid json")).

Definition sample_primary : World := primary_world (store_of sample_notes).

(** A world in which the clock stands still and the random generator
    repeats itself. *)
Definition stuck_fallback : World :=
  {| isIndexedDBSupported := false; db := IDB.empty_store;
     Storage_defined := true;
     offline_notes := Some (Stringified (VArr []));
     clock := λ _, 1700000000000%N; clock_reads := 0;
     random := λ _, "0.4fzyo82mvyr"; random_draws := 0 |}.

(** A world in which the clock stands still, while the random generator
    goes on: every call falls in one millisecond. *)
Definition burst_fallback : World :=
  {| isIndexedDBSupported := false; db := IDB.empty_store;
     Storage_defined := true;
     offline_notes := Some (Stringified (VArr []));
     clock := λ _, 1700000000000%N; clock_reads := 0;
     random := sample_random; random_draws := 0 |}.

Definition empty_primary : World := primary_world IDB.empty_store.

(** A browser that defines no [Storage]. *)
Definition bare_world : World :=
  {| isIndexedDBSupported := true; db := IDB.empty_store;
     Storage_defined := false;
     offline_notes := None;
     clock := sample_clock; clock_reads := 0;
     random := sample_random; random_draws := 0 |}.

(** A platform for the examples: every text has length 2, nothing else is
    known of it. *)
Definition sample_platform : Platform :=
  {| text_length := λ _, 2%Z;
     to_number_positive := λ _, false;
     legacy_date := λ _, NaN |}.

(** The world an operation leaves, and its outcome. *)
Definition after {A} (m : Async A) (w : World) : World := (m w).2.
Definition outcome {A} (m : Async A) (w : World) : Outcome A := (m w).1.

(** The scenarios of the specification. Three notes in two folders: the
    titles found in folder ["work"], and the number of notes in all. *)
Definition scenario_folders : Async (list JSValue * nat) :=
  let! _ := createNote
              (VObj {[ "title" := VStr "A"; "folder" := VStr "work" ]}) in
  let! _ := createNote
              (VObj {[ "title" := VStr "B"; "folder" := VStr "home" ]}) in
  let! _ := createNote
              (VObj {[ "title" := VStr "C"; "folder" := VStr "work" ]}) in
  let! work := getNotesByFolder (VStr "work") in
  let! all := getAllNotes in
  let! found := lift (as_array work) in
  let! notes := lift (as_array all) in
  ret (field "title" <$> found, length notes).

(** A note created with a title and then retitled: its title and content. *)
Definition scenario_update : Async (JSValue * JSValue) :=
  let! note := createNote (VObj {[ "title" := VStr "X" ]}) in
  let! _ := updateNote (field "id" note) (VObj {[ "title" := VStr "Y" ]}) in
  let! stored := getNote (field "id" note) in
  ret (field "title" stored, field "content" stored).

(** A note deleted twice: the two results, and what [getNote] then finds. *)
Definition scenario_delete : Async (list JSValue) :=
  let! note := createNote (VObj {[ "title" := VStr "X" ]}) in
  let! first := deleteNote (field "id" note) in
  let! second := deleteNote (field "id" note) in
  let! stored := getNote (field "id" note) in
  ret [first; second; stored].

(** * Properties *)

(** ** JavaScript values *)

Section js_facts.

Lemma vsize_lookup (o : Obj) (k : string) (v : JSValue) :
  o !! k = Some v → vsize v < vsize (VObj o).
Proof.
  simpl. revert k v.
  apply (map_fold_weak_ind
           (λ r (m : Obj), ∀ k v, m !! k = Some v → vsize v < S r)).
  - intros k v. by rewrite lookup_empty.
  - intros i x m r Hi IH k v. rewrite lookup_insert.
    case_decide; intros Hk; simplify_eq; [lia|].
    specialize (IH _ _ Hk). lia.
Qed.

Lemma vsize_elem (l : list JSValue) (v : JSValue) :
  v ∈ l → vsize v < vsize (VArr l).
Proof.
  simpl. induction 1 as [|x y l Hin IH]; simpl; lia.
Qed.

(** Induction on values: the elements of an array and the properties of an
    object are smaller values. *)
Lemma JSValue_nested_ind (P : JSValue → Prop) :
  P VUndefined → P VNull → (∀ b, P (VBool b)) → (∀ z, P (VNum z)) →
  (∀ s, P (VStr s)) →
  (∀ l, Forall P l → P (VArr l)) →
  (∀ o, map_Forall (λ _, P) o → P (VObj o)) →
  ∀ v, P v.
Proof.
  intros HU HN HB HZ HS HA HO v.
  remember (vsize v) as n eqn:Hn. revert v Hn.
  induction n as [n IH] using lt_wf_ind. intros v ->.
  destruct v as [| |b|z|s|l|o]; auto.
  - apply HA, Forall_forall. intros x Hx.
    eapply IH; [|done]. by apply vsize_elem.
  - apply HO. intros k x Hx.
    eapply IH; [|done]. by eapply vsize_lookup.
Qed.

Lemma strict_equal_eq (a b : JSValue) : strict_equal a b = true → a = b.
Proof.
  destruct a, b; simpl; try done.
  - by intros ->%Bool.eqb_prop.
  - by intros ->%Z.eqb_eq.
  - by intros ->%String.eqb_eq.
Qed.

(** [json_norm] on an object, property by property. *)
Lemma json_norm_lookup (o : Obj) (k : string) :
  own_props (json_norm (VObj o)) !! k =
    match o !! k with
    | None | Some VUndefined => None
    | Some v => Some (json_norm v)
    end.
Proof.
  simpl. rewrite lookup_omap. by destruct (o !! k) as [[]|].
Qed.

(** Text read back by [JSON.parse] stringifies to itself:
    normalisation is idempotent. *)
Lemma json_norm_idemp (v : JSValue) : json_norm (json_norm v) = json_norm v.
Proof.
  induction v as [| |b|z|s|l IH|o IH] using JSValue_nested_ind; try done.
  - simpl. f_equal. rewrite map_map.
    induction IH as [|x l Hx _ IHl]; simpl; [done|]. by rewrite Hx, IHl.
  - simpl. f_equal. apply map_eq. intros k. rewrite !lookup_omap.
    destruct (o !! k) as [x|] eqn:Hk; simpl; [|done].
    specialize (IH k x Hk).
    destruct x; try done; simpl; f_equal; exact IH.
Qed.

Lemma append_cons (c : ascii) (s t : string) :
  String c s +:+ t = String c (s +:+ t).
Proof. reflexivity. Qed.

Lemma append_nil (s : string) : "" +:+ s = s.
Proof. reflexivity. Qed.

Lemma prefix_spec (sub s : string) :
  String.prefix sub s = true ↔ ∃ post, s = sub +:+ post.
Proof.
  revert s. induction sub as [|c sub IH]; intros s.
  - split; [by exists s|by destruct s].
  - destruct s as [|d s]; simpl; [split; [done|by intros [? ?]]|].
    setoid_rewrite append_cons.
    destruct (Ascii.ascii_dec c d) as [->|Hne].
    + rewrite IH. split; intros [post ?]; exists post; congruence.
    + split; [done|]. intros [post ?]. congruence.
Qed.

(** [includes] decides the substring relation. *)
Lemma includes_spec (s sub : string) :
  includes s sub = true ↔ ∃ pre post, s = pre +:+ sub +:+ post.
Proof.
  induction s as [|c s IH].
  - change (includes "" sub) with (String.prefix sub "" || false).
    rewrite orb_false_r, prefix_spec. split.
    + intros [post ?]. by exists "", post.
    + intros [[|? pre] [post H]]; [by exists post|done].
  - change (includes (String c s) sub)
      with (String.prefix sub (String c s) || includes s sub).
    rewrite orb_true_iff, prefix_spec, IH. split.
    + intros [[post H]|(pre & post & ->)]; [by exists "", post|].
      by exists (String c pre), post.
    + intros [[|d pre] [post H]]; [left; by exists post|].
      right. exists pre, post. rewrite append_cons in H. congruence.
Qed.

End js_facts.

(** ** The object store *)

Section idb_facts.
Import IDB.

Implicit Types (st : ObjectStore) (v : JSValue) (k pk f : IDBKey).

Lemma to_key_array (l : list JSValue) (ks : list IDBKey) :
  to_key (VArr l) = Some (KArr ks) ↔ Forall2 (λ v k, to_key v = Some k) l ks.
Proof.
  simpl. rewrite fmap_Some. split.
  - intros (ks' & Hks & [= ->]). revert ks' Hks.
    induction l as [|x l IH]; simpl; intros ks' Hks.
    + injection Hks as <-. constructor.
    + destruct (to_key x) as [k|] eqn:Hx; simpl in Hks; [|done].
      apply fmap_Some in Hks as (ks'' & Hl & ->). constructor; auto.
  - intros H. exists ks. split; [|done].
    induction H as [|x k l ks' Hx _ IH]; simpl; [done|].
    rewrite Hx. simpl. by rewrite IH.
Qed.

(** Distinct values convert to distinct keys. *)
Lemma to_key_inj (v1 v2 : JSValue) (k : IDBKey) :
  to_key v1 = Some k → to_key v2 = Some k → v1 = v2.
Proof.
  revert v2 k.
  induction v1 as [| |b|z|s|l IH|o IH] using JSValue_nested_ind;
    intros v2 k H1 H2; try done.
  - injection H1 as <-. destruct v2; try done.
    + by injection H2 as ->.
    + simpl in H2. by apply fmap_Some in H2 as (? & _ & ?).
  - injection H1 as <-. destruct v2; try done.
    + by injection H2 as ->.
    + simpl in H2. by apply fmap_Some in H2 as (? & _ & ?).
  - destruct k as [| |ks];
      [simpl in H1; by apply fmap_Some in H1 as (? & _ & ?)..|].
    destruct v2 as [| | | | |l2|]; try done.
    apply to_key_array in H1, H2. f_equal.
    revert l2 H2. induction H1 as [|x k l ks Hx Hl IHl]; intros l2 H2.
    + by inversion H2.
    + inversion H2 as [|y ? l2' ? Hy Hl2]; subst.
      inversion IH as [|? ? IHx IHrest]; subst.
      f_equal; [by eapply IHx|by apply IHl].
Qed.

Lemma eval_key_path_object (path : string) (v : JSValue) (k : IDBKey) :
  eval_key_path path v = Some k →
  ∃ o x, v = VObj o ∧ o !! path = Some x ∧ to_key x = Some k.
Proof.
  destruct v as [| | | | | |o]; try done. simpl.
  destruct (o !! path) as [x|] eqn:Hx; [|done]. simpl. eauto.
Qed.

Lemma elem_of_index_insert (fk : option IDBKey) k
    (idx : gmap IDBKey (gset IDBKey)) f pk :
  pk ∈ index_insert fk k idx !!! f
  ↔ (fk = Some f ∧ pk = k) ∨ pk ∈ idx !!! f.
Proof.
  destruct fk as [g|]; simpl; [|naive_solver].
  destruct (decide (g = f)) as [->|Hne].
  - rewrite lookup_total_insert_eq. set_solver.
  - rewrite lookup_total_insert_ne by done. naive_solver.
Qed.

Lemma elem_of_index_remove k (idx : gmap IDBKey (gset IDBKey)) f pk :
  pk ∈ index_remove k idx !!! f ↔ pk ≠ k ∧ pk ∈ idx !!! f.
Proof.
  unfold index_remove. rewrite !lookup_total_alt, lookup_fmap.
  destruct (idx !! f) as [s|]; simpl; set_solver.
Qed.

Lemma empty_store_wf : store_wf empty_store.
Proof.
  split; simpl.
  - intros k v. by rewrite lookup_empty.
  - intros f pk. rewrite lookup_total_empty. setoid_rewrite lookup_empty.
    set_solver.
Qed.

Lemma clear_wf st : store_wf (clear st).
Proof. apply empty_store_wf. Qed.

Lemma put_wf v st st' :
  store_wf st → put v st = OnSuccess st' → store_wf st'.
Proof.
  intros [Hk Hi]. unfold put.
  destruct (eval_key_path "id" v) as [k|] eqn:Hid; [|done].
  intros [= <-]. split; simpl.
  - intros k' v'. rewrite lookup_insert. case_decide; [naive_solver|auto].
  - intros f pk. rewrite elem_of_index_insert, elem_of_index_remove, Hi.
    setoid_rewrite lookup_insert. split.
    + intros [[Hf ->]|[Hne (v' & Hv' & Hf)]].
      * exists v. by rewrite decide_True.
      * exists v'. by rewrite decide_False.
    + intros (v' & Hv' & Hf). case_decide; simplify_eq; [by left|].
      right. eauto.
Qed.

Lemma add_wf v st st' :
  store_wf st → add v st = OnSuccess st' → store_wf st'.
Proof.
  intros [Hk Hi]. unfold add.
  destruct (eval_key_path "id" v) as [k|] eqn:Hid; [|done].
  destruct (records st !! k) eqn:Hfree; [done|].
  intros [= <-]. split; simpl.
  - intros k' v'. rewrite lookup_insert. case_decide; [naive_solver|auto].
  - intros f pk. rewrite elem_of_index_insert, Hi.
    setoid_rewrite lookup_insert. split.
    + intros [[Hf ->]|(v' & Hv' & Hf)].
      * exists v. by rewrite decide_True.
      * exists v'. rewrite decide_False; [done|congruence].
    + intros (v' & Hv' & Hf). case_decide; simplify_eq; [by left|].
      right. eauto.
Qed.

Lemma delete_wf q st st' :
  store_wf st → delete q st = OnSuccess st' → store_wf st'.
Proof.
  intros [Hk Hi]. unfold delete.
  destruct (to_key q) as [k|]; [|done].
  intros [= <-]. split; simpl.
  - intros k' v'. rewrite lookup_delete. case_decide; [done|auto].
  - intros f pk. rewrite elem_of_index_remove, Hi.
    setoid_rewrite lookup_delete. split.
    + intros [Hne (v' & Hv' & Hf)]. exists v'. by rewrite decide_False.
    + intros (v' & Hv' & Hf). case_decide; [done|]. split; [done|eauto].
Qed.

Lemma elem_of_getAll st v :
  v ∈ getAll st ↔ ∃ k, records st !! k = Some v.
Proof.
  unfold getAll. rewrite list_elem_of_fmap. split.
  - intros ([k v'] & -> & H). exists k. by apply elem_of_map_to_list in H.
  - intros [k H]. exists (k, v). split; [done|]. by apply elem_of_map_to_list.
Qed.

(** In a consistent store, the index lookup under a key returns the records
    whose [folder] evaluates to that key. *)
Lemma index_getAll_spec st q f :
  store_wf st → to_key q = Some f →
  ∃ r, index_getAll q st = OnSuccess r ∧
       ∀ v, v ∈ r ↔ v ∈ getAll st ∧ eval_key_path "folder" v = Some f.
Proof.
  intros [Hk Hi] Hq.
  exists (omap (λ pk, records st !! pk) (elements (folder_index st !!! f))).
  split.
  { unfold index_getAll. destruct q; try done; by rewrite Hq. }
  intros v. rewrite list_elem_of_omap, elem_of_getAll.
  setoid_rewrite elem_of_elements. setoid_rewrite Hi. split.
  - intros (pk & (v' & Hv' & Hf) & Hv). simplify_eq. eauto.
  - intros [[k Hv] Hf]. exists k. split; [|done]. eauto.
Qed.

Lemma NoDup_omap_inj {A B} (g : A → option B) (l : list A) :
  NoDup l →
  (∀ x y z, x ∈ l → y ∈ l → g x = Some z → g y = Some z → x = y) →
  NoDup (omap g l).
Proof.
  induction 1 as [|x l Hx Hl IH]; intros Hinj; simpl; [constructor|].
  destruct (g x) as [z|] eqn:Hgx.
  - constructor.
    + rewrite list_elem_of_omap. intros (y & Hy & Hgy).
      assert (x = y) as -> by (eapply Hinj; [left|by right|done..]). done.
    + apply IH. intros a b c Ha Hb. apply Hinj; by right.
  - apply IH. intros a b c Ha Hb. apply Hinj; by right.
Qed.

(** A consistent store holds no record twice. *)
Lemma getAll_NoDup st : store_wf st → NoDup (getAll st).
Proof.
  intros [Hk _]. unfold getAll. apply NoDup_fmap_2_strong.
  - intros [k1 v1] [k2 v2] H1%elem_of_map_to_list H2%elem_of_map_to_list Hv.
    simpl in Hv. subst v2. f_equal.
    apply Hk in H1, H2. congruence.
  - apply NoDup_map_to_list.
Qed.

Lemma index_getAll_NoDup st q r :
  store_wf st → index_getAll q st = OnSuccess r → NoDup r.
Proof.
  intros [Hk _] Hr.
  assert (∀ s : gset IDBKey,
    NoDup (omap (λ pk, records st !! pk) (elements s))) as Hnd.
  { intros s. apply NoDup_omap_inj; [apply NoDup_elements|].
    intros x y z _ _ Hx%Hk Hy%Hk. congruence. }
  unfold index_getAll in Hr.
  destruct q; try destruct (to_key _); by simplify_eq.
Qed.

Lemma folder_key_string (v : JSValue) (f : string) :
  is_object v = true →
  eval_key_path "folder" v = Some (KStr f) ↔ in_folder f v = true.
Proof.
  destruct v as [| | | | | |o]; try done. intros _.
  unfold in_folder, field. simpl.
  destruct (o !! "folder") as [x|]; simpl; [|done]. split.
  - intros Hx. assert (x = VStr f) as -> by (by eapply to_key_inj).
    simpl. apply String.eqb_refl.
  - by intros ->%(strict_equal_eq _ (VStr f)).
Qed.

Lemma store_of_wf (l : list JSValue) : store_wf (store_of l).
Proof.
  unfold store_of. generalize empty_store_wf. generalize empty_store.
  induction l as [|v l IH]; intros st Hst; simpl; [done|].
  apply IH. destruct (put v st) eqn:Hput; try done. by eapply put_wf.
Qed.

End idb_facts.

(** ** Running the operations *)

Ltac unfold_async :=
  unfold bind, ret, throw, lift, try_catch, this_isIndexedDBSupported,
    this_db, commit, settle, localStorage_getItem, localStorage_setItem in *.

Section reads.

Implicit Types (w : World) (v n id : JSValue).

Lemma getNotesFromLocalStorage_run w :
  getNotesFromLocalStorage w = (parsed_notes w, w).
Proof.
  unfold getNotesFromLocalStorage, parsed_notes. unfold_async.
  destruct (offline_notes w) as [t|]; [|done]. by destruct (text_truthy t).
Qed.

Lemma getAllNotes_fallback w :
  isIndexedDBSupported w = false →
  getAllNotes w =
    (match parsed_notes w with
     | Resolved v => Resolved v
     | Rejected _ => Rejected (Error "Failed to get notes from localStorage")
     end, w).
Proof.
  intros Hb. unfold getAllNotes, getAllNotesLocalStorage. unfold_async.
  rewrite Hb, getNotesFromLocalStorage_run. by destruct (parsed_notes w).
Qed.

Lemma getAllNotes_primary w :
  isIndexedDBSupported w = true →
  getAllNotes w = (Resolved (VArr (IDB.getAll (db w))), w).
Proof.
  intros Hb. unfold getAllNotes, getAllNotesIndexedDB. unfold_async.
  by rewrite Hb.
Qed.

Lemma getNote_fallback w id :
  isIndexedDBSupported w = false →
  getNote id w =
    (match parsed_notes w ≫=
             array_find (λ n, nid ← get_prop n "id";
                              Resolved (strict_equal nid id)) with
     | Resolved v => Resolved v
     | Rejected _ => Rejected (Error "Failed to get note from localStorage")
     end, w).
Proof.
  intros Hb. unfold getNote, getNoteLocalStorage. unfold_async.
  rewrite Hb, getNotesFromLocalStorage_run.
  destruct (parsed_notes w) as [v|e]; simpl; [|done].
  by destruct (array_find _ v).
Qed.

Lemma getNote_primary w id :
  isIndexedDBSupported w = true →
  getNote id w =
    (match IDB.to_key id with
     | Some k => Resolved (default VUndefined (IDB.records (db w) !! k))
     | None => Rejected DataError
     end, w).
Proof.
  intros Hb. unfold getNote, getNoteIndexedDB, IDB.get. unfold_async.
  rewrite Hb. by destruct (IDB.to_key id).
Qed.

(** Reading does not change the world. *)
Lemma getAllNotes_world w : (getAllNotes w).2 = w.
Proof.
  destruct (isIndexedDBSupported w) eqn:Hb.
  - by rewrite getAllNotes_primary.
  - by rewrite getAllNotes_fallback.
Qed.

Lemma getNote_world w id : (getNote id w).2 = w.
Proof.
  destruct (isIndexedDBSupported w) eqn:Hb.
  - by rewrite getNote_primary.
  - by rewrite getNote_fallback.
Qed.

(** In a consistent world every stored record is an object. *)
Lemma stored_notes_primary w :
  isIndexedDBSupported w = true → world_wf w →
  stored_notes w (IDB.getAll (db w)).
Proof.
  intros Hb Hwf. split; [by apply getAllNotes_primary|].
  apply forallb_forall. intros v [k Hv]%list_elem_of_In%elem_of_getAll.
  destruct (Hwf Hb) as [Hk _].
  by destruct (eval_key_path_object _ _ _ (Hk _ _ Hv)) as (o & x & -> & _).
Qed.

Lemma stored_notes_fallback w notes :
  isIndexedDBSupported w = false → stored_notes w notes →
  parsed_notes w = Resolved (VArr notes).
Proof.
  intros Hb [Hall _]. rewrite getAllNotes_fallback in Hall by done.
  destruct (parsed_notes w); congruence.
Qed.

Lemma get_prop_object n k :
  is_object n = true → get_prop n k = Resolved (field k n).
Proof. by destruct n. Qed.

Lemma find_from_none (p : JSValue → Outcome bool) (l : list JSValue) :
  Forall (λ x, p x = Resolved false) l → find_from p l = Resolved VUndefined.
Proof. induction 1 as [|x l Hx _ IH]; simpl; [done|]. by rewrite Hx. Qed.

(** [getNote] on an id that no stored note carries yields undefined. *)
Lemma getNote_absent w (id : string) notes :
  world_wf w → stored_notes w notes →
  forallb (λ n, negb (strict_equal (field "id" n) (VStr id))) notes = true →
  getNote (VStr id) w = (Resolved VUndefined, w).
Proof.
  intros Hwf Hst Hid. destruct (isIndexedDBSupported w) eqn:Hb.
  - rewrite getNote_primary by done. simpl.
    destruct (IDB.records (db w) !! IDB.KStr id) as [v|] eqn:Hv; [|done].
    exfalso. destruct (Hwf Hb) as [Hk _].
    destruct (eval_key_path_object _ _ _ (Hk _ _ Hv))
      as (o & x & -> & Hx & Hkx).
    assert (x = VStr id) as -> by (by eapply to_key_inj).
    destruct Hst as [Hall _]. rewrite getAllNotes_primary in Hall by done.
    injection Hall as <-.
    rewrite forallb_forall in Hid.
    specialize (Hid (VObj o)). unfold field in Hid. simpl in Hid.
    rewrite Hx in Hid. simpl in Hid. rewrite String.eqb_refl in Hid.
    assert (false = true)
      by (apply Hid, list_elem_of_In, elem_of_getAll; eauto).
    done.
  - rewrite getNote_fallback by done.
    rewrite (stored_notes_fallback _ _ Hb Hst). cbn.
    rewrite find_from_none; [done|].
    destruct Hst as [_ Hobj]. rewrite forallb_forall in Hid, Hobj.
    apply Forall_forall. intros n Hn%list_elem_of_In.
    rewrite get_prop_object by auto. cbn.
    specialize (Hid n Hn). by destruct (strict_equal _ _).
Qed.

End reads.

(** ** Corrupted text under the notes key *)

(** C1 (what the code does, against the claim): on the fallback backend,
    when the text under the notes key is non-empty and [JSON.parse] rejects
    it, [getAllNotes], [getNote], [searchNotes] and [getNotesByFolder] do not
    resolve with an empty collection: each rejects, with the
    ["Failed to get ..."] error of the read that met the parse failure. *)
Theorem corrupted_blob_reads_reject (w : World) (t : Text) (e : JSError)
    (id query folder : JSValue) :
  isIndexedDBSupported w = false →
  offline_notes w = Some t →
  text_truthy t = true →
  JSON_parse t = Rejected e →
  getAllNotes w =
    (Rejected (Error "Failed to get notes from localStorage"), w) ∧
  getNote id w =
    (Rejected (Error "Failed to get note from localStorage"), w) ∧
  searchNotes query w =
    (Rejected (Error "Failed to get notes from localStorage"), w) ∧
  getNotesByFolder folder w =
    (Rejected (Error "Failed to get notes from localStorage"), w).
Proof.
  intros Hb Ht Htruthy Hparse.
  assert (parsed_notes w = Rejected e) as Hp.
  { unfold parsed_notes. by rewrite Ht, Htruthy. }
  assert (getAllNotes w =
    (Rejected (Error "Failed to get notes from localStorage"), w)) as Hall.
  { rewrite getAllNotes_fallback by done. by rewrite Hp. }
  repeat split.
  - done.
  - rewrite getNote_fallback by done. by rewrite Hp.
  - unfold searchNotes, bind. by rewrite Hall.
  - unfold getNotesByFolder. unfold_async. by rewrite Hb, Hall.
Qed.

Lemma corrupted_blob_reads_reject_witness :
  getAllNotes corrupted_fallback =
    (Rejected (Error "Failed to get notes from localStorage"),
     corrupted_fallback) ∧
  getNote (VStr "note_1") corrupted_fallback =
    (Rejected (Error "Failed to get note from localStorage"),
     corrupted_fallback) ∧
  searchNotes (VStr "x") corrupted_fallback =
    (Rejected (Error "Failed to get notes from localStorage"),
     corrupted_fallback) ∧
  getNotesByFolder (VStr "default") corrupted_fallback =
    (Rejected (Error "Failed to get notes from localStorage"),
     corrupted_fallback).
Proof.
  set (w := corrupted_fallback).
  apply (corrupted_blob_reads_reject w (Raw "invalid json") SyntaxError);
    reflexivity.
Defined.

(** ** Update of an id that is not stored *)

(** C5: for every id that no stored note carries, [updateNote] rejects with
    the error ["Note not found"] and leaves the world, hence the store, as
    it was: no record is created. *)
Theorem updateNote_missing_id_rejects (w : World) (id : string)
    (updates : JSValue) (notes : list JSValue) :
  world_wf w →
  stored_notes w notes →
  forallb (λ n, negb (strict_equal (field "id" n) (VStr id))) notes = true →
  updateNote (VStr id) updates w = (Rejected (Error "Note not found"), w).
Proof.
  intros Hwf Hst Hid. unfold updateNote, bind.
  by rewrite (getNote_absent _ _ _ Hwf Hst Hid).
Qed.

Lemma updateNote_missing_id_rejects_witness :
  updateNote (VStr "non-existent-id")
    (VObj {[ "title" := VStr "New Title" ]}) sample_primary
  = (Rejected (Error "Note not found"), sample_primary).
Proof.
  set (w := sample_primary).
  apply (updateNote_missing_id_rejects w "non-existent-id" _
           (IDB.getAll (store_of sample_notes))).
  - intros _. apply store_of_wf.
  - split; reflexivity.
  - reflexivity.
Defined.

(** ** Import of a malformed bundle *)

(** C6: for every bundle whose [notes] property is absent or is not an
    array, [importData] rejects with ["Invalid import data format"] and the
    world is unchanged: nothing is cleared, nothing imported. *)
Theorem importData_invalid_rejects (w : World) (data notes : JSValue) :
  get_prop data "notes" = Resolved notes →
  is_array notes = false →
  importData data w = (Rejected (Error "Invalid import data format"), w).
Proof.
  intros Hnotes Harr. unfold importData. unfold_async.
  rewrite Hnotes, Harr. by rewrite orb_true_r.
Qed.

Lemma importData_invalid_rejects_witness :
  importData (VObj {[ "invalid" := VStr "data" ]}) sample_primary
  = (Rejected (Error "Invalid import data format"), sample_primary).
Proof.
  set (w := sample_primary).
  apply (importData_invalid_rejects w _ VUndefined); reflexivity.
Defined.

(** ** Notes by folder *)

Lemma filter_from_total (p : JSValue → Outcome bool) (q : JSValue → bool)
    (l : list JSValue) :
  Forall (λ x, p x = Resolved (q x)) l →
  filter_from p l = Resolved (List.filter q l).
Proof.
  induction 1 as [|x l Hx _ IH]; simpl; [done|].
  rewrite Hx, IH. cbn. by destruct (q x).
Qed.

(** C8: for every folder label [f], on the primary (indexed) backend as on
    the fallback backend, [getNotesByFolder f] resolves with the notes of
    [getAllNotes] whose folder is [f], each as often as it is stored and in
    some order; with no such note the result is empty. *)
Theorem getNotesByFolder_is_filter (w : World) (f : string)
    (notes : list JSValue) :
  world_wf w →
  stored_notes w notes →
  ∃ r, getNotesByFolder (VStr f) w = (Resolved (VArr r), w) ∧
       r ≡ₚ List.filter (in_folder f) notes.
Proof.
  intros Hwf Hst. destruct (isIndexedDBSupported w) eqn:Hb.
  - specialize (Hwf Hb).
    destruct (index_getAll_spec (db w) (VStr f) (IDB.KStr f) Hwf eq_refl)
      as (r & Hr & Hin).
    exists r. split.
    { unfold getNotesByFolder, getNotesByFolderIndexedDB. unfold_async.
      by rewrite Hb, Hr. }
    destruct Hst as [Hall Hobj]. rewrite getAllNotes_primary in Hall by done.
    injection Hall as <-. rewrite forallb_forall in Hobj.
    apply NoDup_Permutation.
    + by eapply index_getAll_NoDup.
    + apply NoDup_ListNoDup, List.NoDup_filter, NoDup_ListNoDup.
      by apply getAll_NoDup.
    + intros v. rewrite Hin, !list_elem_of_In, filter_In, <-list_elem_of_In.
      split; intros [Hv Hf]; (split; [done|]);
        apply folder_key_string; auto; by apply Hobj, list_elem_of_In.
  - exists (List.filter (in_folder f) notes). split; [|done].
    unfold getNotesByFolder. unfold_async. rewrite Hb.
    destruct Hst as [Hall Hobj]. rewrite Hall. cbn.
    rewrite (filter_from_total _ (in_folder f)); [done|].
    rewrite forallb_forall in Hobj. apply Forall_forall.
    intros n Hn%list_elem_of_In. by rewrite get_prop_object by auto.
Qed.

Lemma getNotesByFolder_is_filter_witness :
  ∃ r, getNotesByFolder (VStr "work") sample_primary
       = (Resolved (VArr r), sample_primary) ∧
       r ≡ₚ List.filter (in_folder "work")
              (IDB.getAll (store_of sample_notes)).
Proof.
  set (w := sample_primary).
  apply (getNotesByFolder_is_filter w "work").
  - intros _. apply store_of_wf.
  - split; reflexivity.
Defined.

(** ** Search *)

Section search.

Lemma some_from_total (p : JSValue → Outcome bool) (q : JSValue → bool)
    (l : list JSValue) :
  Forall (λ x, p x = Resolved (q x)) l →
  some_from p l = Resolved (existsb q l).
Proof.
  induction 1 as [|x l Hx _ IH]; simpl; [done|].
  rewrite Hx. cbn. by destruct (q x).
Qed.

Lemma search_match_total (term : string) (n : JSValue) :
  is_object n = true → well_typed n = true →
  search_match term n = Resolved (search_keep term n).
Proof.
  intros Hobj Hty. unfold search_match, search_keep.
  rewrite !get_prop_object by done. unfold well_typed in Hty.
  destruct (field "title" n) as [| | | |title| |]; try done.
  destruct (field "content" n) as [| | | |content| |]; try done.
  destruct (field "tags" n) as [| | | | |tags|]; try done.
  simpl in Hty. cbn.
  destruct (includes (toLowerCase title) term); [done|].
  destruct (includes (toLowerCase content) term); [done|]. cbn.
  apply some_from_total. rewrite forallb_forall in Hty.
  apply Forall_forall. intros tag Htag%list_elem_of_In%Hty. by destruct tag.
Qed.

Lemma search_keep_matches (q : string) (n : JSValue) :
  well_typed n = true →
  search_keep (toLowerCase q) n = true ↔ matches q n.
Proof.
  intros Hty. unfold search_keep, matches, well_typed, is_substring in *.
  destruct (field "title" n) as [| | | |title| |]; try done.
  destruct (field "content" n) as [| | | |content| |]; try done.
  destruct (field "tags" n) as [| | | | |tags|]; try done.
  rewrite !orb_true_iff, !includes_spec, existsb_exists. split.
  - intros [[H|H]|(tag & Htag & H)]; [left; eauto|right; left; eauto|].
    right; right. destruct tag as [| | | |s| |]; try done.
    exists tags, s. apply includes_spec in H. by rewrite list_elem_of_In.
  - intros [(? & [= <-] & H)|[(? & [= <-] & H)|(? & tag & [= <-] & Htag & H)]];
      [by left; left|by left; right|].
    right. exists (VStr tag). rewrite <-list_elem_of_In. split; [done|].
    by apply includes_spec.
Qed.

Lemma match_keep_matches (q : string) (n : JSValue) :
  match_keep (toLowerCase q) n = true ↔ matches q n.
Proof.
  unfold match_keep, matches, is_substring.
  rewrite !orb_true_iff. split.
  - intros [[H|H]|H].
    + left. destruct (field "title" n) as [| | | |title| |]; try done.
      exists title. split; [done|]. by apply includes_spec.
    + right; left.
      destruct (field "content" n) as [| | | |content| |]; try done.
      exists content. split; [done|]. by apply includes_spec.
    + right; right. destruct (field "tags" n) as [| | | | |tags|]; try done.
      apply existsb_exists in H as (tag & Htag & H).
      destruct tag as [| | | |s| |]; try done.
      exists tags, s. apply includes_spec in H. by rewrite list_elem_of_In.
  - intros [(title & -> & H)|[(content & -> & H)|(tags & tag & -> & Htag & H)]].
    + left; left. by apply includes_spec.
    + left; right. by apply includes_spec.
    + right. apply existsb_exists. exists (VStr tag).
      rewrite <-list_elem_of_In. split; [done|]. by apply includes_spec.
Qed.

(** [some] over the tags stops at the first tag that matches; a tag that
    is not a text, met before, is a [TypeError]. *)
Lemma some_from_tags (term : string) (tags : list JSValue) :
  let p := λ tag, tag_lc ← call_toLowerCase tag;
                  Resolved (includes tag_lc term) in
  some_from p tags = Resolved (existsb (tag_keep term) tags) ∨
  some_from p tags = Rejected TypeError ∧ forallb is_text tags = false.
Proof.
  intros p. induction tags as [|tag tags IH]; [by left|].
  destruct tag as [| | | |s| |]; try (by right).
  cbn. destruct (includes (toLowerCase s) term); [by left|].
  destruct IH as [IH|[IH Hty]]; [left|right]; by rewrite IH.
Qed.

(** The filter callback on any note object: it answers whether the note
    matches, or throws a [TypeError] on a field that is not typed as the
    data model has it. *)
Lemma search_match_cases (term : string) (n : JSValue) :
  is_object n = true →
  search_match term n = Resolved (match_keep term n) ∨
  search_match term n = Rejected TypeError ∧ well_typed n = false.
Proof.
  intros Hobj. unfold search_match, match_keep, well_typed.
  rewrite !get_prop_object by done.
  destruct (field "title" n) as [| | | |title| |]; try (by right).
  cbn. destruct (includes (toLowerCase title) term); [by left|].
  destruct (field "content" n) as [| | | |content| |]; try (by right).
  cbn. destruct (includes (toLowerCase content) term); [by left|].
  destruct (field "tags" n) as [| | | | |tags|]; try (by right).
  cbn. destruct (some_from_tags term tags) as [->|[-> Hty]]; [by left|].
  right. by rewrite Hty.
Qed.

Lemma filter_from_search (term : string) (notes : list JSValue) :
  forallb is_object notes = true →
  filter_from (search_match term) notes
  = Resolved (List.filter (match_keep term) notes) ∨
  filter_from (search_match term) notes = Rejected TypeError ∧
  forallb well_typed notes = false.
Proof.
  induction notes as [|n notes IH]; [by left|]. intros Hobj.
  simpl in Hobj. apply andb_true_iff in Hobj as [Hn Hobj]. simpl.
  destruct (search_match_cases term n Hn) as [->|[-> Hty]].
  - cbn. destruct (IH Hobj) as [->|[-> Hty]].
    + left. cbn. by destruct (match_keep term n).
    + right. split; [done|]. by rewrite Hty, andb_false_r.
  - right. split; [done|]. by rewrite Hty.
Qed.

End search.

(** C7 (amended): for every query text [q] and every store, [searchNotes q]
    either resolves, leaving the world as it is, with exactly the notes of
    the store, in their order, for which the lowercased [q] occurs in the
    lowercased title, or in the lowercased content, or in the lowercasing of
    some tag, or rejects with a [TypeError], and that only when some note
    is not typed as the data model has it. On a store of well-typed notes
    it resolves; when no note matches, with the empty sequence. *)
Theorem searchNotes_matches (w : World) (q : string) (notes : list JSValue) :
  stored_notes w notes →
  ∃ keep : JSValue → bool,
    (∀ n, keep n = true ↔ matches q n) ∧
    (searchNotes (VStr q) w = (Resolved (VArr (List.filter keep notes)), w) ∨
     searchNotes (VStr q) w = (Rejected TypeError, w) ∧
     forallb well_typed notes = false) ∧
    (forallb well_typed notes = true →
     searchNotes (VStr q) w = (Resolved (VArr (List.filter keep notes)), w) ∧
     ((∀ n, n ∈ notes → ¬ matches q n) →
      searchNotes (VStr q) w = (Resolved (VArr []), w))).
Proof.
  intros [Hall Hobj].
  exists (match_keep (toLowerCase q)).
  split; [intros n; apply match_keep_matches|].
  assert (searchNotes (VStr q) w =
    (VArr <$> filter_from (search_match (toLowerCase q)) notes, w)) as Hrun.
  { unfold searchNotes. unfold_async. rewrite Hall. cbn.
    by destruct (filter_from _ notes). }
  destruct (filter_from_search (toLowerCase q) notes Hobj) as [Hf|[Hf Hty]];
    rewrite Hrun, Hf; cbn.
  - split; [by left|]. intros _. split; [done|]. intros Hnone.
    destruct (List.filter _ notes) as [|n r] eqn:Hkeep; [done|]. exfalso.
    assert (In n (List.filter (match_keep (toLowerCase q)) notes)) as Hn
      by (rewrite Hkeep; by left).
    apply filter_In in Hn as [Hn Hk].
    apply (Hnone n); [by apply list_elem_of_In|].
    by apply match_keep_matches.
  - split; [by right|]. intros Hty'. congruence.
Qed.

Lemma searchNotes_matches_witness :
  ∃ keep : JSValue → bool,
    (∀ n, keep n = true ↔ matches "PLAN" n) ∧
    searchNotes (VStr "PLAN") sample_fallback
    = (Resolved (VArr (List.filter keep sample_notes)), sample_fallback) ∧
    List.filter keep sample_notes
    = [sample_note "note_2" "Sprint plan" "work" ["planning"]
         1600000100000 1600000200000].
Proof.
  destruct (searchNotes_matches sample_fallback "PLAN" sample_notes)
    as (keep & Hkeep & _ & Hrun).
  { split; reflexivity. }
  destruct Hrun as [Hrun _]; [reflexivity|].
  exists keep. split; [exact Hkeep|]. split; [exact Hrun|].
  assert (searchNotes (VStr "PLAN") sample_fallback
          = (Resolved (VArr [sample_note "note_2" "Sprint plan" "work"
                               ["planning"] 1600000100000 1600000200000]),
             sample_fallback)) as Hrun' by reflexivity.
  congruence.
Defined.

(** C7 as stated does not hold. [createNote] stores the note it is given
    with a content that is undefined, and on that store the search for a
    text that occurs in no note rejects with a [TypeError] instead of
    resolving with the empty sequence. *)
Lemma searchNotes_claim_fails :
  let noteData := VObj {[ "title" := VStr "A"; "content" := VUndefined ]} in
  ∃ n, outcome (let! _ := createNote noteData in getAllNotes) empty_fallback
       = Resolved (VArr [n]) ∧
       field "title" n = VStr "A" ∧
       ¬ matches "zzz" n ∧
       outcome (let! _ := createNote noteData in searchNotes (VStr "zzz"))
         empty_fallback
       = Rejected TypeError.
Proof.
  eexists. split; [by vm_compute|]. split; [by vm_compute|].
  split; [|by vm_compute].
  rewrite <-match_keep_matches. by vm_compute.
Qed.

(** ** Creation *)

Section creation.

Implicit Types (w : World) (v n note : JSValue) (o : Obj).

Lemma get_prop_field v k :
  is_nullish v = false → get_prop v k = Resolved (field k v).
Proof. by destruct v. Qed.

Lemma createNoteIndexedDB_run note w :
  createNoteIndexedDB note w =
    match IDB.add note (db w) with
    | IDB.Threw => (Rejected DataError, w)
    | IDB.OnError => (Rejected (Error "Failed to create note"), w)
    | IDB.OnSuccess st => (Resolved note, set_db st w)
    end.
Proof.
  unfold createNoteIndexedDB. unfold_async. by destruct (IDB.add note (db w)).
Qed.

Lemma createNoteLocalStorage_run note w :
  createNoteLocalStorage note w =
    match parsed_notes w ≫= (λ notes, array_push notes note) with
    | Resolved notes' =>
        (Resolved note, set_offline_notes (Stringified notes') w)
    | Rejected _ =>
        (Rejected (Error "Failed to create note in localStorage"), w)
    end.
Proof.
  unfold createNoteLocalStorage. unfold_async.
  rewrite getNotesFromLocalStorage_run.
  destruct (parsed_notes w) as [v|e]; [|done]. cbn.
  by destruct (array_push v note).
Qed.

(** [createNote] builds [new_note] and hands it to the backend in use. *)
Lemma createNote_run v w :
  is_nullish v = false →
  createNote v w =
    if isIndexedDBSupported w
    then createNoteIndexedDB (new_note v w) (stamped w)
    else createNoteLocalStorage (new_note v w) (stamped w).
Proof.
  intros Hv. unfold createNote, generateId, new_Date_toISOString, Date_now,
    Math_random_toString36. unfold_async.
  rewrite !get_prop_field by done. simpl.
  by destruct (isIndexedDBSupported w).
Qed.

Lemma new_note_present o w k v :
  o !! k = Some v → field k (new_note (VObj o) w) = v.
Proof.
  intros Hk. unfold new_note, field, spread. simpl.
  by rewrite (lookup_union_Some_l _ _ _ _ Hk).
Qed.

Lemma new_note_absent o w k :
  o !! k = None →
  field k (new_note (VObj o) w) =
    let c := clock_reads w in
    if decide (k = "id")
    then VStr (make_id (clock w c) (random w (random_draws w)))
    else if decide (k = "title") then VStr "Untitled Note"
    else if decide (k = "content") then VStr ""
    else if decide (k = "tags") then VArr []
    else if decide (k = "folder") then VStr "default"
    else if decide (k = "createdAt") then VStr (toISOString (clock w (S c)))
    else if decide (k = "updatedAt")
    then VStr (toISOString (clock w (S (S c))))
    else VUndefined.
Proof.
  intros Hk. unfold new_note, field, spread. simpl.
  rewrite lookup_union_r by done.
  repeat case_decide; subst; simplify_map_eq; try done.
  all: unfold or_else, field; by rewrite ?Hk.
Qed.

Lemma createNote_nullish v w :
  is_nullish v = true → createNote v w = (Rejected TypeError, draw (tick w)).
Proof. by destruct v. Qed.

Lemma truthy_append_r (a b : string) :
  truthy (VStr b) = true → truthy (VStr (a +:+ b)) = true.
Proof. destruct a; [done|]. by rewrite append_cons. Qed.

Lemma make_id_truthy (now : N) (r : string) :
  truthy (VStr (make_id now r)) = true.
Proof. done. Qed.

Lemma toISOString_truthy (t : N) : truthy (VStr (toISOString t)) = true.
Proof.
  unfold toISOString. destruct (civil_from_days _) as [[y m] d].
  by apply truthy_append_r.
Qed.

(** On the fallback backend [createNote] resolves whenever the stored text
    reads as an array, appending the note to it. *)
Lemma createNote_fallback v w (l : list JSValue) :
  is_nullish v = false →
  isIndexedDBSupported w = false →
  parsed_notes w = Resolved (VArr l) →
  createNote v w =
    (Resolved (new_note v w),
     set_offline_notes (Stringified (VArr (l ++ [new_note v w]))) (stamped w)).
Proof.
  intros Hv Hb Hl. rewrite createNote_run, Hb by done.
  rewrite createNoteLocalStorage_run.
  change (parsed_notes (stamped w)) with (parsed_notes w). by rewrite Hl.
Qed.

(** On the primary backend it resolves when the id of the note is a valid
    key that no record has, adding the note to the store. *)
Lemma createNote_primary v w (k : IDB.IDBKey) :
  is_nullish v = false →
  isIndexedDBSupported w = true →
  IDB.eval_key_path "id" (new_note v w) = Some k →
  IDB.records (db w) !! k = None →
  ∃ st, IDB.add (new_note v w) (db w) = IDB.OnSuccess st ∧
        IDB.records st = <[k := new_note v w]> (IDB.records (db w)) ∧
        createNote v w = (Resolved (new_note v w), set_db st (stamped w)).
Proof.
  intros Hv Hb Hk Hfree. rewrite createNote_run, Hb by done.
  rewrite createNoteIndexedDB_run.
  change (db (stamped w)) with (db w).
  unfold IDB.add. rewrite Hk, Hfree. eauto.
Qed.

(** Whatever [createNote] returns is the note it built. *)
Lemma createNote_resolved v w n w' :
  createNote v w = (Resolved n, w') → n = new_note v w.
Proof.
  destruct (is_nullish v) eqn:Hv; [by rewrite createNote_nullish|].
  rewrite createNote_run by done.
  destruct (isIndexedDBSupported w).
  - rewrite createNoteIndexedDB_run.
    destruct (IDB.add _ _); congruence.
  - rewrite createNoteLocalStorage_run.
    destruct (_ ≫= _); congruence.
Qed.

End creation.

(** C2 (amended): for every partial note [o], the note [createNote]
    returns has, for each of title, content, tags and folder that [o] does
    not carry, the documented default (["Untitled Note"], [""], the empty
    sequence, ["default"]); a generated id and the two clock readings taken
    after it as [createdAt] and [updatedAt] where [o] carries none, so that
    the two timestamps are equal when the clock has not advanced between the
    two readings; and for every property [o] carries with a truthy value,
    that value. The three of id, [createdAt], [updatedAt] are populated
    (truthy) unless [o] itself carries a falsy one. The call does return on
    the fallback backend whenever the stored text reads as an array. *)
Theorem createNote_defaults (w : World) (o : Obj) :
  (isIndexedDBSupported w = false →
   (∃ l, parsed_notes w = Resolved (VArr l)) →
   ∃ n w', createNote (VObj o) w = (Resolved n, w')) ∧
  ∀ n w', createNote (VObj o) w = (Resolved n, w') →
    let c := clock_reads w in
    (o !! "title" = None → field "title" n = VStr "Untitled Note") ∧
    (o !! "content" = None → field "content" n = VStr "") ∧
    (o !! "tags" = None → field "tags" n = VArr []) ∧
    (o !! "folder" = None → field "folder" n = VStr "default") ∧
    (o !! "id" = None →
     field "id" n =
       VStr (make_id (clock w c) (random w (random_draws w)))) ∧
    (o !! "createdAt" = None →
     field "createdAt" n = VStr (toISOString (clock w (S c)))) ∧
    (o !! "updatedAt" = None →
     field "updatedAt" n = VStr (toISOString (clock w (S (S c))))) ∧
    (o !! "createdAt" = None → o !! "updatedAt" = None →
     clock w (S c) = clock w (S (S c)) →
     field "createdAt" n = field "updatedAt" n) ∧
    (∀ k v, o !! k = Some v → truthy v = true → field k n = v) ∧
    (∀ k, k ∈ ["id"; "createdAt"; "updatedAt"] →
          (∀ v, o !! k = Some v → truthy v = true) →
          truthy (field k n) = true).
Proof.
  split.
  { intros Hb [l Hl]. eexists _, _. by apply createNote_fallback. }
  intros n w' Hrun c. apply createNote_resolved in Hrun as ->.
  assert (∀ k, o !! k = None → field k (new_note (VObj o) w) = _) as Habs
    by (intros k; apply new_note_absent).
  repeat split.
  - intros H. by rewrite (Habs _ H).
  - intros H. by rewrite (Habs _ H).
  - intros H. by rewrite (Habs _ H).
  - intros H. by rewrite (Habs _ H).
  - intros H. by rewrite (Habs _ H).
  - intros H. by rewrite (Habs _ H).
  - intros H. by rewrite (Habs _ H).
  - intros H1 H2 Heq. rewrite (Habs _ H1), (Habs _ H2). simpl.
    subst c. by rewrite Heq.
  - intros k v Hk _. by apply new_note_present.
  - intros k Hk Hv. destruct (o !! k) as [v|] eqn:Hok.
    + rewrite (new_note_present _ _ _ _ Hok). eauto.
    + rewrite (Habs _ Hok).
      apply elem_of_cons in Hk as [->|Hk]; [apply make_id_truthy|].
      apply elem_of_cons in Hk as [->|Hk]; [apply toISOString_truthy|].
      apply elem_of_cons in Hk as [->|Hk]; [apply toISOString_truthy|].
      by apply elem_of_nil in Hk.
Qed.

Lemma createNote_defaults_witness :
  ∃ n w', createNote (VObj {[ "title" := VStr "Minimal Note" ]})
            sample_fallback = (Resolved n, w') ∧
          field "title" n = VStr "Minimal Note" ∧
          field "content" n = VStr "" ∧
          field "tags" n = VArr [] ∧
          field "folder" n = VStr "default" ∧
          field "id" n = VStr "note_1700000000000_0fzyo82mv" ∧
          field "createdAt" n = VStr "2023-11-14T22:13:20.001Z" ∧
          field "updatedAt" n = VStr "2023-11-14T22:13:20.002Z".
Proof.
  set (w := sample_fallback).
  set (o := {[ "title" := VStr "Minimal Note" ]} : Obj).
  destruct (createNote_defaults w o) as [Hreturns Hfields].
  destruct Hreturns as (n & w' & Hrun);
    [reflexivity|by exists sample_notes|].
  exists n, w'. split; [exact Hrun|].
  destruct (Hfields n w' Hrun)
    as (_ & Hcontent & Htags & Hfolder & Hid & Hcreated & Hupdated & _
        & Hkept & _).
  split; [by apply Hkept|].
  split; [by apply Hcontent|].
  split; [by apply Htags|].
  split; [by apply Hfolder|].
  split; [by rewrite Hid|].
  split; [by rewrite Hcreated|by rewrite Hupdated].
Defined.

(** C2 as stated does not hold: with no field given, [createdAt] and
    [updatedAt] are two readings of the clock, which differ when the clock
    advances between them; and a partial note that carries its own id and
    timestamps, as every note handed over by [importData] does, keeps
    them. *)
Lemma createNote_timestamps_differ :
  (∃ n w', createNote (VObj ∅) empty_fallback = (Resolved n, w') ∧
           field "createdAt" n = VStr "2023-11-14T22:13:20.001Z" ∧
           field "updatedAt" n = VStr "2023-11-14T22:13:20.002Z" ∧
           field "createdAt" n ≠ field "updatedAt" n) ∧
  (∃ n w',
     createNote (sample_note "note_2" "Sprint plan" "work" ["planning"]
                   1600000100000 1600000200000) empty_fallback
     = (Resolved n, w') ∧
     field "id" n = VStr "note_2" ∧
     field "createdAt" n = VStr "2020-09-13T12:28:20.000Z" ∧
     field "updatedAt" n = VStr "2020-09-13T12:30:00.000Z" ∧
     field "createdAt" n ≠ field "updatedAt" n).
Proof.
  set (w := empty_fallback). split.
  - exists (new_note (VObj ∅) w), (after (createNote (VObj ∅)) w).
    split; [reflexivity|]. by vm_compute.
  - set (nd := sample_note "note_2" "Sprint plan" "work" ["planning"]
                  1600000100000 1600000200000).
    exists (new_note nd w), (after (createNote nd) w).
    split; [reflexivity|]. by vm_compute.
Qed.

(** The default title is not applied to a title that is present and empty:
    the spread of the input, coming last, writes the empty title back. *)
Example createNote_empty_title :
  ∃ n w', createNote (VObj {[ "title" := VStr "" ]}) empty_fallback
          = (Resolved n, w') ∧
          field "title" n = VStr "".
Proof.
  set (w := empty_fallback). set (nd := VObj {[ "title" := VStr "" ]}).
  exists (new_note nd w), (after (createNote nd) w).
  split; [reflexivity|]. by vm_compute.
Qed.

(** ** Generated ids *)

Section ids.

Implicit Types (w : World) (v n : JSValue).

Lemma pretty_N_go_no_underscore (x : N) (s : string) :
  has_underscore s = false → has_underscore (pretty_N_go x s) = false.
Proof.
  revert s. induction (N.lt_wf_0 x) as [x _ IH]; intros s Hs.
  assert (x = 0 ∨ 0 < x)%N as [->|Hx] by lia.
  - by rewrite pretty_N_go_0.
  - rewrite pretty_N_go_step by done. apply IH; [by apply N.div_lt|].
    simpl. rewrite Hs. unfold pretty_N_char. by repeat case_match.
Qed.

Lemma pretty_no_underscore (x : N) : has_underscore (pretty x) = false.
Proof.
  unfold pretty, pretty_N. case_decide; [done|].
  by apply pretty_N_go_no_underscore.
Qed.

(** A text without underscore, an underscore, a suffix: the three parts are
    determined by the whole. *)
Lemma split_underscore (a a' s s' : string) :
  has_underscore a = false → has_underscore a' = false →
  a +:+ String "_" s = a' +:+ String "_" s' → a = a' ∧ s = s'.
Proof.
  revert a'. induction a as [|c a IH]; intros [|c' a'] Ha Ha' Heq.
  - rewrite !append_nil in Heq. by simplify_eq.
  - rewrite append_nil, append_cons in Heq. by simplify_eq.
  - rewrite append_nil, append_cons in Heq. by simplify_eq.
  - rewrite !append_cons in Heq. injection Heq as -> Heq.
    simpl in Ha, Ha'. apply orb_false_elim in Ha as [_ Ha].
    apply orb_false_elim in Ha' as [_ Ha'].
    by destruct (IH a' Ha Ha' Heq) as [-> ->].
Qed.

Lemma make_id_inj (t t' : N) (r r' : string) :
  make_id t r = make_id t' r' → (t, substr r 2 9) = (t', substr r' 2 9).
Proof.
  unfold make_id. intros Heq.
  assert (pretty t +:+ String "_" (substr r 2 9)
          = pretty t' +:+ String "_" (substr r' 2 9)) as Heq'.
  { change ("note_" +:+ ?x) with (String "n" (String "o" (String "t"
      (String "e" (String "_" x))))) in Heq. by simplify_eq. }
  apply split_underscore in Heq' as [Ht ->]; auto using pretty_no_underscore.
  by apply (inj pretty) in Ht as ->.
Qed.

(** What a call of [createNote] does to the world besides the store: the
    clock and the random generator are read, at least once each. *)
Lemma createNote_world v w :
  let w1 := (createNote v w).2 in
  clock w1 = clock w ∧ random w1 = random w ∧
  (clock_reads w < clock_reads w1)%nat ∧
  (random_draws w < random_draws w1)%nat ∧
  isIndexedDBSupported w1 = isIndexedDBSupported w.
Proof.
  destruct (is_nullish v) eqn:Hv.
  { rewrite createNote_nullish by done. simpl. repeat split; lia. }
  rewrite createNote_run by done.
  destruct (isIndexedDBSupported w) eqn:Hb.
  - rewrite createNoteIndexedDB_run.
    destruct (IDB.add _ _); simpl; repeat split; auto; lia.
  - rewrite createNoteLocalStorage_run.
    destruct (_ ≫= _); simpl; repeat split; auto; lia.
Qed.

Lemma new_note_generated_id v w :
  own_props v !! "id" = None →
  field "id" (new_note v w)
  = VStr (make_id (clock w (clock_reads w)) (random w (random_draws w))).
Proof.
  intros Hid. unfold new_note, field, spread.
  rewrite lookup_union_r by done. by simplify_map_eq.
Qed.

End ids.

Section sequences.

Implicit Types (w : World) (v n x : JSValue).

Lemma createNote_primary_step v w :
  isIndexedDBSupported w = true → IDB.store_wf (db w) →
  IDB.store_wf (db (createNote v w).2) ∧
  match (createNote v w).1 with
  | Resolved n =>
      ∃ k, IDB.to_key (field "id" n) = Some k ∧
           IDB.records (db w) !! k = None ∧
           IDB.records (db (createNote v w).2)
           = <[k := n]> (IDB.records (db w))
  | Rejected _ => db (createNote v w).2 = db w
  end.
Proof.
  intros Hb Hwf. destruct (is_nullish v) eqn:Hv.
  { by rewrite createNote_nullish. }
  rewrite createNote_run, Hb, createNoteIndexedDB_run by done.
  change (db (stamped w)) with (db w).
  generalize (new_note v w). intros note.
  destruct (IDB.add _ _) as [|st|] eqn:Hadd; simpl; [done| |done].
  split; [by eapply add_wf|].
  unfold IDB.add in Hadd.
  destruct (IDB.eval_key_path _ _) as [k|] eqn:Hk; [|done].
  destruct (IDB.records (db w) !! k) eqn:Hfree; [done|].
  injection Hadd as <-. exists k. split; [|done].
  apply eval_key_path_object in Hk as (o & x & Ho & Hx & Hkx).
  rewrite Ho. simpl. by rewrite Hx.
Qed.

Lemma returned_ids_resolved n (outs : list (Outcome JSValue)) :
  returned_ids (Resolved n :: outs) = field "id" n :: returned_ids outs.
Proof. done. Qed.

Lemma returned_ids_rejected (e : JSError) (outs : list (Outcome JSValue)) :
  returned_ids (Rejected e :: outs) = returned_ids outs.
Proof. done. Qed.

Lemma create_all_cons v inputs w :
  create_all (v :: inputs) w =
    ((createNote v w).1 :: (create_all inputs (createNote v w).2).1,
     (create_all inputs (createNote v w).2).2).
Proof.
  simpl. destruct (createNote v w) as [o w1]. simpl.
  by destruct (create_all inputs w1).
Qed.

(** On the primary backend every id returned is the key of a record added
    by the sequence, and no key is added twice. *)
Lemma create_all_primary inputs w :
  isIndexedDBSupported w = true → IDB.store_wf (db w) →
  NoDup (returned_ids (create_all inputs w).1) ∧
  IDB.records (db w) ⊆ IDB.records (db (create_all inputs w).2) ∧
  ∀ x, x ∈ returned_ids (create_all inputs w).1 →
       ∃ k, IDB.to_key x = Some k ∧ IDB.records (db w) !! k = None.
Proof.
  revert w. induction inputs as [|v inputs IH]; intros w Hb Hwf.
  { simpl. split; [constructor|]. split; [done|]. by intros x ?%elem_of_nil. }
  rewrite create_all_cons. cbn [fst snd].
  destruct (createNote_primary_step v w Hb Hwf) as [Hwf1 Hstep].
  destruct (createNote_world v w) as (_ & _ & _ & _ & Hb1).
  rewrite Hb in Hb1.
  destruct (IH _ Hb1 Hwf1) as (Hnd & Hsub & Hfresh).
  destruct ((createNote v w).1) as [n|e] eqn:Ho.
  - destruct Hstep as (k & Hk & Hfree & Hrec).
    assert (IDB.records (db w) ⊆ IDB.records (db (createNote v w).2))
      as Hsub1.
    { rewrite Hrec. by apply insert_subseteq. }
    rewrite returned_ids_resolved. split; [|split].
    + constructor; [|done].
      intros (k' & Hk' & Hfree')%Hfresh. simplify_eq.
      rewrite Hrec, lookup_insert_eq in Hfree'. done.
    + by etrans.
    + intros x [->|Hx]%elem_of_cons; [by eauto|].
      destruct (Hfresh x Hx) as (k' & Hk' & Hfree').
      exists k'. split; [done|].
      eapply lookup_weaken_None; done.
  - rewrite returned_ids_rejected. rewrite Hstep in *. done.
Qed.

Lemma draw_id_inj : Inj (=) (=) draw_id.
Proof.
  intros [t s] [t' s'] Heq. unfold draw_id in Heq. simpl in Heq.
  assert (pretty t +:+ String "_" s = pretty t' +:+ String "_" s') as Heq'.
  { change ("note_" +:+ ?x) with (String "n" (String "o" (String "t"
      (String "e" (String "_" x))))) in Heq. by simplify_eq. }
  apply split_underscore in Heq' as [Ht ->]; auto using pretty_no_underscore.
  by apply (inj pretty) in Ht as ->.
Qed.

(** With inputs that bring no id, the ids returned are those built from the
    draws of the calls that returned a note, in the order of the calls. *)
Lemma returned_ids_draws inputs w :
  forallb (λ v, negb (carries_id v)) inputs = true →
  returned_ids (create_all inputs w).1 = draw_id <$> id_draws inputs w.
Proof.
  revert w. induction inputs as [|v inputs IH]; intros w Hin; [done|].
  simpl in Hin. apply andb_true_iff in Hin as [Hv Hin].
  rewrite create_all_cons. cbn [fst id_draws]. rewrite fmap_app, <-IH by done.
  destruct (createNote v w) as [[n|e] w1] eqn:Hrun; cbn [fst snd]; [|done].
  rewrite returned_ids_resolved. cbn [fmap list_fmap app]. f_equal.
  apply createNote_resolved in Hrun as ->.
  rewrite new_note_generated_id; [done|].
  unfold carries_id in Hv. by destruct (own_props v !! "id").
Qed.

End sequences.

(** C9 (amended): for every sequence of [createNote] calls, the ids of the
    notes returned are pairwise distinct on the primary backend, where the
    store refuses to add a second record under a key it has; and on either
    backend, when no input brings an id of its own, they are pairwise
    distinct exactly when no two of the calls that returned a note drew the
    same pair of millisecond reading and random suffix. *)
Theorem createNote_ids_distinct (w : World) (inputs : list JSValue) :
  world_wf w →
  (isIndexedDBSupported w = true →
   NoDup (returned_ids (create_all inputs w).1)) ∧
  (forallb (λ v, negb (carries_id v)) inputs = true →
   (NoDup (returned_ids (create_all inputs w).1)
    ↔ distinct_draws inputs w)).
Proof.
  intros Hwf. split.
  - intros Hb. by apply create_all_primary; auto.
  - intros Hin. pose proof draw_id_inj as Hinj.
    rewrite returned_ids_draws by done. apply (NoDup_fmap draw_id).
Qed.

(** Three calls within one millisecond: the draws differ by the random
    suffix alone. *)
Example burst_draws :
  id_draws [VObj {[ "title" := VStr "A" ]}; VObj ∅; VStr "text"]
    burst_fallback
  = [ (1700000000000%N, "0fzyo82mv"); (1700000000000%N, "1fzyo82mv");
      (1700000000000%N, "2fzyo82mv") ].
Proof. by vm_compute. Qed.

Lemma createNote_ids_distinct_witness :
  NoDup (returned_ids
           (create_all [VObj {[ "title" := VStr "A" ]}; VObj ∅; VStr "text"]
              burst_fallback).1).
Proof.
  assert (world_wf burst_fallback) as Hwf by (intros H; discriminate H).
  apply (proj2 (createNote_ids_distinct burst_fallback _ Hwf)).
  - reflexivity.
  - unfold distinct_draws. rewrite burst_draws.
    repeat (apply NoDup_cons; split; [set_solver|]). apply NoDup_nil_2.
Defined.

(** C9 as stated does not hold: on the fallback backend two calls return
    notes with one id when the caller gives the id, and also when both draws
    of the generator give the same reading and the same random text. *)
Lemma createNote_ids_collide :
  returned_ids
    (create_all [VObj {[ "id" := VStr "note_1" ]};
                 VObj {[ "id" := VStr "note_1" ]}] empty_fallback).1
  = [VStr "note_1"; VStr "note_1"] ∧
  returned_ids (create_all [VObj ∅; VObj ∅] stuck_fallback).1
  = [VStr "note_1700000000000_4fzyo82mv";
     VStr "note_1700000000000_4fzyo82mv"].
Proof. split; by vm_compute. Qed.

(** ** First matches in an array *)

Section first_match.

Implicit Types (p q : JSValue → Outcome bool) (l : list JSValue)
  (x y : JSValue).

Lemma first_at_here p x l : p x = Resolved true → first_at p (x :: l) 0 x.
Proof. intros Hx. split; [done|]. split; [done|]. intros j y Hj. lia. Qed.

Lemma first_at_later p x0 l i x :
  p x0 = Resolved false → first_at p l i x → first_at p (x0 :: l) (S i) x.
Proof.
  intros Hx0 (Hi & Hx & Hbefore). split; [done|]. split; [done|].
  intros [|j] y Hj Hy; simpl in Hy; [by simplify_eq|].
  apply (Hbefore j); [lia|done].
Qed.

Lemma first_at_tail p x0 l i x :
  first_at p (x0 :: l) (S i) x → p x0 = Resolved false ∧ first_at p l i x.
Proof.
  intros (Hi & Hx & Hbefore). split.
  - apply (Hbefore 0); [lia|done].
  - split; [done|]. split; [done|].
    intros j y Hj Hy. apply (Hbefore (S j)); [lia|done].
Qed.

Lemma first_at_head p x0 l x :
  first_at p (x0 :: l) 0 x → x = x0 ∧ p x0 = Resolved true.
Proof. intros (Hi & Hx & _). simpl in Hi. by simplify_eq. Qed.

(** [find] returns a defined value only as the first match. *)
Lemma find_from_first p l x :
  find_from p l = Resolved x → x ≠ VUndefined → ∃ i, first_at p l i x.
Proof.
  induction l as [|x0 l IH]; simpl; intros Hfind Hx; [by simplify_eq|].
  destruct (p x0) as [[]|] eqn:Hx0; cbn in Hfind; [| |done].
  - simplify_eq. exists 0. by apply first_at_here.
  - destruct (IH Hfind Hx) as [i Hi]. exists (S i). by apply first_at_later.
Qed.

Lemma first_at_find p l i x : first_at p l i x → find_from p l = Resolved x.
Proof.
  revert i. induction l as [|x0 l IH]; intros i H.
  { by destruct H as [? _]. }
  destruct i as [|i].
  - apply first_at_head in H as [-> Hx]. simpl. by rewrite Hx.
  - apply first_at_tail in H as [Hx0 H]. simpl. rewrite Hx0. cbn. eauto.
Qed.

Lemma first_at_findIndex p l i x (z : Z) :
  first_at p l i x → findIndex_from p l z = Resolved (z + Z.of_nat i)%Z.
Proof.
  revert i z. induction l as [|x0 l IH]; intros i z H.
  { by destruct H as [? _]. }
  destruct i as [|i].
  - apply first_at_head in H as [-> Hx]. simpl. rewrite Hx. cbn.
    f_equal. lia.
  - apply first_at_tail in H as [Hx0 H]. simpl. rewrite Hx0. cbn.
    rewrite (IH i) by done. f_equal. lia.
Qed.

(** [findIndex] returns an index other than -1 only as that of the first
    match. *)
Lemma findIndex_from_first p l (z r : Z) :
  findIndex_from p l z = Resolved r → (0 ≤ z)%Z → r ≠ (-1)%Z →
  ∃ i x, r = (z + Z.of_nat i)%Z ∧ first_at p l i x.
Proof.
  revert z. induction l as [|x0 l IH]; simpl; intros z Hfind Hz Hr.
  { by simplify_eq. }
  destruct (p x0) as [[]|] eqn:Hx0; cbn in Hfind; [| |done].
  - simplify_eq. exists 0, x0. split; [lia|]. by apply first_at_here.
  - destruct (IH _ Hfind ltac:(lia) Hr) as (i & x & -> & Hi).
    exists (S i), x. split; [lia|]. by apply first_at_later.
Qed.

Lemma first_at_ext p q l i x :
  (∀ y, p y = q y) → first_at p l i x → first_at q l i x.
Proof.
  intros Hpq (Hi & Hx & Hbefore). split; [done|]. rewrite <-Hpq.
  split; [done|]. intros j y Hj Hy. rewrite <-Hpq. eauto.
Qed.

Lemma findIndex_from_ext p q l (z : Z) :
  (∀ y, p y = q y) → findIndex_from p l z = findIndex_from q l z.
Proof.
  intros Hpq. revert z. induction l as [|x0 l IH]; intros z; simpl; [done|].
  rewrite Hpq. destruct (q x0) as [[]|]; cbn; auto.
Qed.

(** Replacing the first match by another match keeps it the first. *)
Lemma first_at_insert p l i x x' :
  first_at p l i x → p x' = Resolved true →
  first_at p (<[i := x']> l) i x'.
Proof.
  intros (Hi & Hx & Hbefore) Hx'. split.
  - apply list_lookup_insert_eq. by eapply lookup_lt_Some.
  - split; [done|]. intros j y Hj Hy.
    rewrite list_lookup_insert_ne in Hy by lia. eauto.
Qed.

End first_match.

(** ** Dates read back *)

Ltac nlia := zify; Z.div_mod_to_equations; lia.

Lemma civil_from_days_inv (days : N) :
  let '(y, m, d) := civil_from_days days in
  days_from_civil y m d = days ∧ (1 ≤ m ≤ 12)%N ∧ (1 ≤ d ≤ 31)%N.
Proof.
  unfold civil_from_days, days_from_civil.
  set (z := (days + 719468)%N).
  set (era := (z / 146097)%N).
  set (doe := (z - era * 146097)%N).
  set (yoe := ((doe - doe / 1460 + doe / 36524 - doe / 146096) / 365)%N).
  set (doy := (doe - (365 * yoe + yoe / 4 - yoe / 100))%N).
  set (mp := ((5 * doy + 2) / 153)%N).
  assert (doe < 146097)%N as Hdoe by (unfold doe, era; nlia).
  assert (yoe ≤ 399 ∧ 365 * yoe + yoe / 4 - yoe / 100 ≤ doe ∧ doy ≤ 365)%N
    as (Hyoe & Hle & Hdoy) by (unfold doy, yoe; nlia).
  assert (mp ≤ 11)%N as Hmp by (unfold mp; nlia).
  assert ((153 * mp + 2) / 5 ≤ doy ∧ doy - (153 * mp + 2) / 5 ≤ 30)%N
    as [Hd1 Hd2] by (unfold mp; nlia).
  destruct (mp <? 10)%N eqn:Hlt;
    [apply N.ltb_lt in Hlt|apply N.ltb_ge in Hlt].
  - replace (mp + 3 <=? 2)%N with false by (symmetry; apply N.leb_gt; lia).
    replace (2 <? mp + 3)%N with true by (symmetry; apply N.ltb_lt; lia).
    split; [|lia].
    replace ((yoe + era * 400 + 0) / 400)%N with era by nlia.
    replace (yoe + era * 400 + 0 - era * 400)%N with yoe by lia.
    replace (mp + 3 - 3)%N with mp by lia.
    unfold doy, doe, era, z in *. nlia.
  - replace (mp - 9 <=? 2)%N with true by (symmetry; apply N.leb_le; lia).
    replace (2 <? mp - 9)%N with false by (symmetry; apply N.ltb_ge; lia).
    split; [|lia].
    replace (yoe + era * 400 + 1 - 1)%N with (yoe + era * 400)%N by lia.
    replace ((yoe + era * 400) / 400)%N with era by nlia.
    replace (yoe + era * 400 - era * 400)%N with yoe by lia.
    replace (mp - 9 + 9)%N with mp by lia.
    unfold doy, doe, era, z in *. nlia.
Qed.

Lemma civil_from_days_year (days : N) :
  (days < 2932897)%N → ((civil_from_days days).1.1 ≤ 9999)%N.
Proof.
  intros Hdays. unfold civil_from_days.
  set (z := (days + 719468)%N).
  set (era := (z / 146097)%N).
  set (doe := (z - era * 146097)%N).
  set (yoe := ((doe - doe / 1460 + doe / 36524 - doe / 146096) / 365)%N).
  set (doy := (doe - (365 * yoe + yoe / 4 - yoe / 100))%N).
  set (mp := ((5 * doy + 2) / 153)%N).
  cbn [fst].
  assert (doe < 146097)%N as Hdoe by (unfold doe, era; nlia).
  assert (era ≤ 24)%N as Hera by (unfold era, z; nlia).
  assert (yoe ≤ 399 ∧ 365 * yoe + yoe / 4 - yoe / 100 ≤ doe ∧ doy ≤ 365)%N
    as (Hyoe & Hle & Hdoy) by (unfold doy, yoe; nlia).
  assert (mp ≤ 11)%N as Hmp by (unfold mp; nlia).
  destruct (mp <? 10)%N eqn:Hlt;
    [apply N.ltb_lt in Hlt|apply N.ltb_ge in Hlt].
  - replace (mp + 3 <=? 2)%N with false by (symmetry; apply N.leb_gt; lia).
    lia.
  - replace (mp - 9 <=? 2)%N with true by (symmetry; apply N.leb_le; lia).
    cbv iota.
    assert (¬ (era = 24 ∧ yoe = 399))%N as Hnot; [|lia].
    intros [He Hy].
    assert (doe ≤ 146036)%N by (unfold doe, z; rewrite He; lia).
    assert (306 ≤ doy)%N by (unfold mp in Hlt; nlia).
    unfold doy in *. rewrite Hy in *. nlia.
Qed.

Section iso.

Lemma digit_value_char (x : N) :
  (x < 10)%N → digit_value (pretty_N_char x) = Some x.
Proof.
  intros Hx. destruct x as [|p]; [done|].
  do 4 (destruct p as [p|p|]; try done; try lia).
Qed.

Lemma digits_append (w : nat) (n : N) (s rest : string) :
  digits w n s +:+ rest = digits w n (s +:+ rest).
Proof.
  revert n s. induction w as [|w IH]; intros n s; simpl; [done|apply IH].
Qed.

Lemma read_digits_digits (w k : nat) (n acc : N) (s : string) :
  (n < 10 ^ N.of_nat w)%N →
  read_digits (w + k) (digits w n s) acc
  = read_digits k s (acc * 10 ^ N.of_nat w + n)%N.
Proof.
  revert k n acc s. induction w as [|w IH]; intros k n acc s Hn.
  { simpl in *. f_equal. lia. }
  rewrite Nat2N.inj_succ, N.pow_succ_r' in Hn.
  change (digits (S w) n s)
    with (digits w (n / 10)%N (String (pretty_N_char (n mod 10)%N) s)).
  replace (S w + k)%nat with (w + S k)%nat by lia.
  rewrite IH by (apply N.Div0.div_lt_upper_bound; lia). simpl.
  rewrite digit_value_char by (by apply N.mod_lt). simpl. f_equal.
  rewrite Nat2N.inj_succ, N.pow_succ_r'.
  generalize (10 ^ N.of_nat w)%N. intros p.
  pose proof (N.div_mod n 10 ltac:(lia)) as Hdm.
  set (q := (n / 10)%N) in *. set (r := (n mod 10)%N) in *.
  clearbody q r. clear Hn IH. subst n. ring.
Qed.

Lemma concat_zeros (k : nat) : String.concat "" (replicate k "0") = zeros k.
Proof.
  induction k as [|k IH]; [done|]. simpl.
  destruct k as [|k]; [done|]. by rewrite IH.
Qed.

Lemma zeros_snoc (k : nat) (s : string) :
  zeros (S k) +:+ s = zeros k +:+ String "0" s.
Proof.
  induction k as [|k IH]; [done|].
  change (zeros (S (S k))) with (String "0" (zeros (S k))).
  rewrite append_cons, IH. done.
Qed.

Lemma digits_pretty (w : nat) (n : N) (s : string) :
  (n < 10 ^ N.of_nat w)%N →
  (String.length (pretty_N_go n s) ≤ w + String.length s)%nat ∧
  digits w n s
  = zeros (w + String.length s - String.length (pretty_N_go n s))
      +:+ pretty_N_go n s.
Proof.
  revert n s. induction w as [|w IH]; intros n s Hn.
  { simpl in Hn. assert (n = 0)%N as -> by lia. rewrite pretty_N_go_0.
    split; [simpl; lia|]. simpl. by rewrite Nat.sub_diag. }
  rewrite Nat2N.inj_succ, N.pow_succ_r' in Hn.
  change (digits (S w) n s)
    with (digits w (n / 10)%N (String (pretty_N_char (n mod 10)%N) s)).
  destruct (IH (n / 10)%N (String (pretty_N_char (n mod 10)%N) s))
    as [Hlen Heq]; [apply N.Div0.div_lt_upper_bound; lia|].
  rewrite Heq. simpl String.length in *.
  assert (n = 0 ∨ 0 < n)%N as [->|Hpos] by lia.
  - change (0 / 10)%N with 0%N. change (0 mod 10)%N with 0%N.
    rewrite !pretty_N_go_0. simpl String.length. split; [lia|].
    replace (w + S (String.length s) - S (String.length s))%nat with w
      by lia.
    replace (S w + String.length s - String.length s)%nat with (S w) by lia.
    by rewrite zeros_snoc.
  - rewrite (pretty_N_go_step n) by done. split; [lia|].
    by replace (S w + String.length s)%nat
         with (w + S (String.length s))%nat by lia.
Qed.

(** A number below [10 ^ w] is padded to its [w] decimal digits. *)
Lemma pad_digits (w : nat) (n : N) :
  (0 < w)%nat → (n < 10 ^ N.of_nat w)%N → pad w n = digits w n "".
Proof.
  intros Hw Hn. destruct (digits_pretty w n "" Hn) as [Hlen ->].
  unfold pad. rewrite concat_zeros. simpl String.length in *.
  unfold pretty, pretty_N. case_decide as H0.
  - subst n. rewrite pretty_N_go_0. simpl String.length.
    destruct w as [|w]; [lia|].
    replace (S w - 1)%nat with w by lia.
    replace (S w + 0 - 0)%nat with (S w) by lia.
    by rewrite zeros_snoc.
  - by rewrite Nat.add_0_r.
Qed.

Lemma read_pad (w : nat) (n : N) (rest : string) :
  (0 < w)%nat → (n < 10 ^ N.of_nat w)%N →
  read_digits w (pad w n +:+ rest) 0 = Some (n, rest).
Proof.
  intros Hw Hn. rewrite pad_digits by done. rewrite digits_append.
  replace w with (w + 0)%nat at 1 by lia.
  rewrite read_digits_digits by done. simpl. by rewrite N.add_0_l.
Qed.

Lemma expect_cons (c : ascii) (rest : string) :
  expect c (String c "" +:+ rest) = Some rest.
Proof.
  rewrite append_cons, append_nil. simpl. by rewrite Ascii.eqb_refl.
Qed.

Lemma time_of_day (t : N) :
  ((t / 86400000) * 86400000 + (t / 3600000 mod 24) * 3600000
   + (t / 60000 mod 60) * 60000 + (t / 1000 mod 60) * 1000 + t mod 1000
   = t)%N.
Proof.
  replace (t / 60000)%N with (t / 1000 / 60)%N
    by (by rewrite N.Div0.div_div).
  replace (t / 3600000)%N with (t / 1000 / 60 / 60)%N
    by (by rewrite !N.Div0.div_div).
  replace (t / 86400000)%N with (t / 1000 / 60 / 60 / 24)%N
    by (by rewrite !N.Div0.div_div).
  pose proof (N.div_mod t 1000 ltac:(lia)) as H1.
  pose proof (N.div_mod (t / 1000) 60 ltac:(lia)) as H2.
  pose proof (N.div_mod (t / 1000 / 60) 60 ltac:(lia)) as H3.
  pose proof (N.div_mod (t / 1000 / 60 / 60) 24 ltac:(lia)) as H4.
  lia.
Qed.

Lemma parse_iso_fields (text : string) (y m d h mi sec ms : N) :
  text = pad 4 y +:+ "-" +:+ pad 2 m +:+ "-" +:+ pad 2 d
         +:+ "T" +:+ pad 2 h +:+ ":" +:+ pad 2 mi +:+ ":" +:+ pad 2 sec
         +:+ "." +:+ pad 3 ms +:+ "Z" →
  (y < 10000 ∧ m < 100 ∧ d < 100 ∧ h < 100 ∧ mi < 100 ∧ sec < 100
   ∧ ms < 1000)%N →
  let t := (days_from_civil y m d * 86400000 + h * 3600000 + mi * 60000
            + sec * 1000 + ms)%N in
  toISOString t = text →
  parse_iso text = Some t.
Proof.
  intros Htext (Hy & Hm & Hd & Hh & Hmi & Hsec & Hms) t Hprint.
  unfold parse_iso. rewrite Htext at 1.
  rewrite read_pad by (done || lia). cbn [mbind option_bind].
  rewrite expect_cons. cbn [mbind option_bind].
  rewrite read_pad by (done || lia). cbn [mbind option_bind].
  rewrite expect_cons. cbn [mbind option_bind].
  rewrite read_pad by (done || lia). cbn [mbind option_bind].
  rewrite expect_cons. cbn [mbind option_bind].
  rewrite read_pad by (done || lia). cbn [mbind option_bind].
  rewrite expect_cons. cbn [mbind option_bind].
  rewrite read_pad by (done || lia). cbn [mbind option_bind].
  rewrite expect_cons. cbn [mbind option_bind].
  rewrite read_pad by (done || lia). cbn [mbind option_bind].
  rewrite expect_cons. cbn [mbind option_bind].
  rewrite read_pad by (done || lia).
  cbn -[pad toISOString days_from_civil].
  fold t. by rewrite Hprint, String.eqb_refl.
Qed.

(** Reading back what [toISOString] wrote, for a time value up to the end
    of the year 9999. *)
Lemma parse_iso_toISOString (t : N) :
  (t < 253402300800000)%N → parse_iso (toISOString t) = Some t.
Proof.
  intros Ht.
  pose proof (civil_from_days_inv (t / 86400000)) as Hinv.
  pose proof (civil_from_days_year (t / 86400000) ltac:(nlia)) as Hyear.
  destruct (civil_from_days (t / 86400000)) as [[y m] d] eqn:Hc.
  destruct Hinv as (Hdays & Hm & Hd). simpl in Hyear.
  assert (toISOString t
          = pad 4 y +:+ "-" +:+ pad 2 m +:+ "-" +:+ pad 2 d
            +:+ "T" +:+ pad 2 (t / 3600000 mod 24)
            +:+ ":" +:+ pad 2 (t / 60000 mod 60)
            +:+ ":" +:+ pad 2 (t / 1000 mod 60)
            +:+ "." +:+ pad 3 (t mod 1000) +:+ "Z") as Htext.
  { unfold toISOString. rewrite Hc.
    by replace (y <=? 9999)%N with true by (symmetry; apply N.leb_le; lia). }
  pose proof (parse_iso_fields _ y m d (t / 3600000 mod 24)
                (t / 60000 mod 60) (t / 1000 mod 60) (t mod 1000) Htext)
    as Hparse.
  cbv zeta in Hparse. rewrite Hdays, time_of_day in Hparse.
  apply Hparse; [|done].
  repeat split; try lia;
    (eapply N.lt_le_trans; [apply N.mod_lt; lia|lia]).
Qed.

End iso.

(** ** Update *)

Section update.

Implicit Types (w : World) (v n note id updates : JSValue) (o : Obj)
  (l : list JSValue).

Lemma updateNoteIndexedDB_run note w :
  updateNoteIndexedDB note w =
    match IDB.put note (db w) with
    | IDB.Threw => (Rejected DataError, w)
    | IDB.OnError => (Rejected (Error "Failed to update note"), w)
    | IDB.OnSuccess st => (Resolved note, set_db st w)
    end.
Proof.
  unfold updateNoteIndexedDB. unfold_async. by destruct (IDB.put note (db w)).
Qed.

Lemma update_test_ext o notes :
  array_findIndex
    (λ n, nid ← get_prop n "id";
          id ← get_prop (VObj o) "id";
          Resolved (strict_equal nid id)) notes
  = array_findIndex (has_id (field "id" (VObj o))) notes.
Proof.
  unfold array_findIndex. destruct (as_array notes) as [l|]; [|done]. cbn.
  apply findIndex_from_ext. intros y. unfold has_id.
  by destruct (get_prop y "id").
Qed.

Lemma updateNoteLocalStorage_run o w :
  updateNoteLocalStorage (VObj o) w =
    match parsed_notes w ≫= (λ notes,
            index ← array_findIndex (has_id (field "id" (VObj o))) notes;
            if (index =? -1)%Z then Rejected (Error "Note not found")
            else array_set notes index (VObj o)) with
    | Resolved notes' =>
        (Resolved (VObj o), set_offline_notes (Stringified notes') w)
    | Rejected _ =>
        (Rejected (Error "Failed to update note in localStorage"), w)
    end.
Proof.
  unfold updateNoteLocalStorage. unfold_async.
  rewrite getNotesFromLocalStorage_run.
  destruct (parsed_notes w) as [notes|e]; [|done].
  cbv beta iota. rewrite update_test_ext.
  change (Resolved notes ≫= ?k) with (k notes). cbv beta.
  destruct (array_findIndex _ notes) as [index|]; [|done]. cbn.
  destruct (index =? -1)%Z; [done|].
  by destruct (array_set notes index (VObj o)).
Qed.

(** [updateNote] on a stored note builds [updated_note] from one clock
    reading and hands it to the backend in use. *)
Lemma updateNote_run id updates w existing :
  getNote id w = (Resolved existing, w) → truthy existing = true →
  updateNote id updates w =
    let note := updated_note existing updates (clock w (clock_reads w)) in
    if isIndexedDBSupported w then updateNoteIndexedDB note (tick w)
    else updateNoteLocalStorage note (tick w).
Proof.
  intros Hget Htruthy. unfold updateNote, new_Date_toISOString, Date_now.
  unfold_async. rewrite Hget, Htruthy. simpl.
  by destruct (isIndexedDBSupported w).
Qed.

(** What [JSON.parse] returns is a fixed point of the JSON round trip. *)
Lemma parsed_notes_norm w v : parsed_notes w = Resolved v → json_norm v = v.
Proof.
  unfold parsed_notes. destruct (offline_notes w) as [[v0|s]|].
  - simpl. intros [= <-]. apply json_norm_idemp.
  - simpl. destruct (negb _); [done|]. by intros [= <-].
  - by intros [= <-].
Qed.

Lemma parsed_notes_set (t : Text) w :
  text_truthy t = true →
  parsed_notes (set_offline_notes t w) = JSON_parse t.
Proof. intros Ht. unfold parsed_notes. simpl. by rewrite Ht. Qed.

(** The id of an object that some [===] test accepted survives the JSON
    round trip. *)
Lemma field_id_norm o (a : JSValue) :
  strict_equal a (field "id" (VObj o)) = true →
  field "id" (json_norm (VObj o)) = field "id" (VObj o).
Proof.
  unfold field. simpl. rewrite lookup_omap.
  destruct (o !! "id") as [x|]; simpl; [|done].
  destruct x; try done; by destruct a.
Qed.

(** On the fallback backend, with the first note of the given id at index
    [i], the update writes the note there, and reading the id back yields
    the note as the JSON round trip leaves it. *)
Lemma updateNoteLocalStorage_first o w l i x :
  parsed_notes w = Resolved (VArr l) →
  first_at (has_id (field "id" (VObj o))) l i x →
  updateNoteLocalStorage (VObj o) w =
    (Resolved (VObj o),
     set_offline_notes (Stringified (VArr (<[i := VObj o]> l))) w).
Proof.
  intros Hl Hfirst. rewrite updateNoteLocalStorage_run, Hl. cbn -[field].
  rewrite (first_at_findIndex _ _ _ _ 0 Hfirst). cbn.
  destruct (_ =? -1)%Z eqn:Hi; [apply Z.eqb_eq in Hi; lia|]. cbn.
  by rewrite Z.add_0_l, Nat2Z.id.
Qed.

Lemma getNoteLocalStorage_updated o w l i x :
  isIndexedDBSupported w = false →
  parsed_notes w = Resolved (VArr l) →
  first_at (has_id (field "id" (VObj o))) l i x →
  let w' := set_offline_notes (Stringified (VArr (<[i := VObj o]> l))) w in
  getNote (field "id" (VObj o)) w' = (Resolved (json_norm (VObj o)), w').
Proof.
  intros Hb Hl Hfirst w'. rewrite getNote_fallback by done.
  unfold w'. rewrite parsed_notes_set by done.
  apply parsed_notes_norm in Hl as Hnorm. simpl in Hnorm.
  injection Hnorm as Hnorm.
  cbn -[json_norm].
  change (json_norm (VArr ?l')) with (VArr (map json_norm l')).
  cbn -[json_norm].
  assert (map json_norm (<[i:=VObj o]> l) = <[i := json_norm (VObj o)]> l)
    as ->.
  { rewrite <-Hnorm at 2. apply (list_fmap_insert json_norm). }
  erewrite first_at_find; [done|].
  eapply first_at_insert; [done|].
  destruct Hfirst as (_ & Hx & _). unfold has_id in *.
  destruct (get_prop x "id") as [a|]; [|done]. cbn in Hx.
  injection Hx as Hx.
  change (get_prop (json_norm (VObj o)) "id")
    with (Resolved (field "id" (json_norm (VObj o)))).
  rewrite (field_id_norm _ _ Hx). cbn. f_equal.
  apply strict_equal_eq in Hx as Heq. by rewrite <-Heq, Hx in *.
Qed.

Lemma updateNoteLocalStorage_resolved o w n w' :
  updateNoteLocalStorage (VObj o) w = (Resolved n, w') →
  ∃ l i x, parsed_notes w = Resolved (VArr l) ∧
           first_at (has_id (field "id" (VObj o))) l i x.
Proof.
  rewrite updateNoteLocalStorage_run.
  destruct (parsed_notes w) as [notes|e]; [|done].
  destruct notes as [| | | | |l|]; try done. cbn -[field].
  destruct (findIndex_from _ l 0) as [r|] eqn:Hfind; [|done]. cbn.
  destruct (r =? -1)%Z eqn:Hr; [done|]. intros _.
  apply Z.eqb_neq in Hr.
  destruct (findIndex_from_first _ _ _ _ Hfind ltac:(lia) Hr)
    as (i & x & _ & Hfirst).
  eauto.
Qed.

Lemma updated_note_stamp v updates (now : N) :
  field "updatedAt" (updated_note v updates now) = VStr (toISOString now).
Proof. unfold updated_note, field. by rewrite lookup_insert_eq. Qed.

Lemma updated_note_frame v updates (now : N) (k : string) :
  k ≠ "updatedAt" → own_props updates !! k = None →
  own_props (updated_note v updates now) !! k = own_props v !! k.
Proof.
  intros Hk Hu. unfold updated_note, spread. simpl.
  rewrite lookup_insert_ne by done.
  rewrite lookup_union_r by done. by rewrite lookup_union_l by done.
Qed.

Lemma field_own_props v (k : string) :
  is_object v = true → field k v = default VUndefined (own_props v !! k).
Proof. by destruct v. Qed.

(** A stored note that [getNote id] finds, in either backend: where it
    sits, and that its own [id] is [id]. *)
Lemma getNote_found w id o :
  world_wf w → getNote id w = (Resolved (VObj o), w) →
  field "id" (VObj o) = id ∧
  if isIndexedDBSupported w
  then ∃ k, IDB.to_key id = Some k ∧
            IDB.records (db w) !! k = Some (VObj o)
  else ∃ l i, parsed_notes w = Resolved (VArr l) ∧
              first_at (has_id id) l i (VObj o).
Proof.
  intros Hwf Hget. destruct (isIndexedDBSupported w) eqn:Hb.
  - rewrite getNote_primary in Hget by done.
    destruct (IDB.to_key id) as [k|] eqn:Hk; [|done].
    destruct (IDB.records (db w) !! k) as [v|] eqn:Hv; [|done].
    simpl in Hget. injection Hget as ->.
    destruct (Hwf Hb) as [Hkeys _].
    pose proof (eval_key_path_object _ _ _ (Hkeys _ _ Hv))
      as (o' & x & [= <-] & Hx & Hkx).
    split; [|by exists k]. simpl. rewrite Hx. simpl. by eapply to_key_inj.
  - rewrite getNote_fallback in Hget by done.
    destruct (parsed_notes w) as [notes|] eqn:Hp; [|done].
    destruct notes as [| | | | |l|]; try done. cbn in Hget.
    destruct (find_from _ l) as [x|] eqn:Hfind; [|done].
    injection Hget as ->.
    apply find_from_first in Hfind as [i Hfirst]; [|done].
    split; [|eauto]. destruct Hfirst as (_ & Hx & _).
    unfold has_id in Hx. cbn in Hx. injection Hx as Hx.
    by apply strict_equal_eq in Hx.
Qed.

(** Whenever [updateNote] on a stored note resolves, it resolves with the
    note it built, and the store holds that note under the note's id. *)
Lemma updateNote_resolved w id updates o n w' :
  world_wf w → getNote id w = (Resolved (VObj o), w) →
  updateNote id updates w = (Resolved n, w') →
  n = updated_note (VObj o) updates (clock w (clock_reads w)) ∧
  getNote (field "id" n) w' = (Resolved (as_stored w n), w').
Proof.
  intros Hwf Hget. rewrite (updateNote_run _ _ _ _ Hget eq_refl).
  cbv zeta. unfold as_stored.
  assert (∃ o', updated_note (VObj o) updates (clock w (clock_reads w))
                = VObj o') as [o' ->] by (unfold updated_note; eauto).
  destruct (isIndexedDBSupported w) eqn:Hb.
  - rewrite updateNoteIndexedDB_run. change (db (tick w)) with (db w).
    destruct (IDB.put (VObj o') (db w)) as [|st|] eqn:Hput; try done.
    intros [= <- <-]. split; [done|].
    rewrite getNote_primary by done. unfold IDB.put in Hput.
    destruct (IDB.eval_key_path "id" (VObj o')) as [k|] eqn:Hk; [|done].
    injection Hput as <-.
    apply eval_key_path_object in Hk as (o'' & x & [= <-] & Hx & Hkx).
    simpl. rewrite Hx. simpl. rewrite Hkx.
    by rewrite lookup_insert_eq.
  - intros Hrun. pose proof Hrun as Hinv.
    apply updateNoteLocalStorage_resolved in Hinv as (l & i & x & Hl & Hfirst).
    rewrite (updateNoteLocalStorage_first _ _ _ _ _ Hl Hfirst) in Hrun.
    injection Hrun as <- <-. split; [done|].
    by eapply (getNoteLocalStorage_updated _ (tick w)).
Qed.

(** [updateNote] on a stored note, with updates that leave the id alone,
    resolves; the note is then the one [getNote] finds under the same id. *)
Lemma updateNote_resolves w id updates o :
  world_wf w → getNote id w = (Resolved (VObj o), w) →
  keeps_id id updates = true →
  ∃ n w', updateNote id updates w = (Resolved n, w') ∧ field "id" n = id.
Proof.
  intros Hwf Hget Hkeep.
  destruct (getNote_found _ _ _ Hwf Hget) as [Hid Hwhere].
  rewrite (updateNote_run _ _ _ _ Hget eq_refl). cbv zeta.
  assert (∃ o', updated_note (VObj o) updates (clock w (clock_reads w))
                = VObj o') as [o' Ho'] by (unfold updated_note; eauto).
  assert (field "id" (VObj o') = id) as Hnid.
  { rewrite <-Ho'. unfold keeps_id in Hkeep.
    destruct (own_props updates !! "id") as [x|] eqn:Hu.
    - apply strict_equal_eq in Hkeep as <-.
      unfold updated_note, field, spread.
      rewrite lookup_insert_ne by done.
      by rewrite (lookup_union_Some_l _ _ _ _ Hu).
    - rewrite <-Hid, !field_own_props by done.
      by rewrite updated_note_frame. }
  rewrite Ho'. destruct (isIndexedDBSupported w) eqn:Hb.
  - destruct Hwhere as (k & Hk & Hrec).
    rewrite updateNoteIndexedDB_run. change (db (tick w)) with (db w).
    assert (IDB.eval_key_path "id" (VObj o') = Some k) as Hkey.
    { unfold field in Hnid. unfold IDB.eval_key_path.
      destruct (o' !! "id") as [x|]; simpl in Hnid;
        rewrite <-Hnid in Hk; [exact Hk|by simpl in Hk]. }
    unfold IDB.put. rewrite Hkey. eauto.
  - destruct Hwhere as (l & i & Hl & Hfirst).
    eexists _, _. split; [|exact Hnid].
    eapply (updateNoteLocalStorage_first _ (tick w)); [exact Hl|].
    by rewrite Hnid.
Qed.

Lemma field_norm_text o (k s : string) :
  o !! k = Some (VStr s) → field k (json_norm (VObj o)) = VStr s.
Proof. intros Hk. unfold field. simpl. by rewrite lookup_omap, Hk. Qed.

(** A note found on the fallback backend is as the JSON round trip leaves
    it. *)
Lemma getNote_fallback_norm w id o :
  world_wf w → isIndexedDBSupported w = false →
  getNote id w = (Resolved (VObj o), w) → json_norm (VObj o) = VObj o.
Proof.
  intros Hwf Hb Hget.
  destruct (getNote_found _ _ _ Hwf Hget) as [_ Hwhere]. rewrite Hb in Hwhere.
  destruct Hwhere as (l & i & Hl & Hi & _).
  apply parsed_notes_norm in Hl. simpl in Hl. injection Hl as Hl.
  rewrite <-Hl, list_lookup_fmap in Hi.
  destruct (l !! i) as [x|] eqn:Hx; [|done]. simpl in Hi.
  injection Hi as Hi. rewrite <-Hi. apply json_norm_idemp.
Qed.

End update.

(** C10: for every stored note and every updates partial, one that itself
    carries an [updatedAt] included, whenever [updateNote] resolves, the note
    it returns and the record then stored under that note's id both carry as
    [updatedAt] the timestamp of the clock reading the update took, not the
    caller's value; and it does resolve when the updates leave the id
    alone. *)
Theorem updateNote_stamps_updatedAt (w : World) (id updates : JSValue)
    (o : Obj) :
  world_wf w →
  getNote id w = (Resolved (VObj o), w) →
  let stamp := VStr (toISOString (clock w (clock_reads w))) in
  (keeps_id id updates = true →
   ∃ n w', updateNote id updates w = (Resolved n, w')) ∧
  ∀ n w', updateNote id updates w = (Resolved n, w') →
    field "updatedAt" n = stamp ∧
    ∃ stored, getNote (field "id" n) w' = (Resolved stored, w') ∧
              field "updatedAt" stored = stamp.
Proof.
  intros Hwf Hget stamp. split.
  { intros Hnoid.
    destruct (updateNote_resolves _ _ _ _ Hwf Hget Hnoid)
      as (n & w' & Hrun & _).
    eauto. }
  intros n w' Hrun.
  destruct (updateNote_resolved _ _ _ _ _ _ Hwf Hget Hrun) as [-> Hstored].
  split; [apply updated_note_stamp|].
  eexists. split; [exact Hstored|].
  unfold as_stored. destruct (isIndexedDBSupported w).
  - apply updated_note_stamp.
  - unfold updated_note. apply field_norm_text, lookup_insert_eq.
Qed.

Lemma updateNote_stamps_updatedAt_witness :
  ∃ n w',
    updateNote (VStr "note_2")
      (VObj {[ "title" := VStr "Plan";
               "updatedAt" := VStr "1999-12-31T23:59:59.000Z" ]})
      sample_fallback = (Resolved n, w') ∧
    field "updatedAt" n = VStr "2023-11-14T22:13:20.000Z" ∧
    ∃ stored, getNote (field "id" n) w' = (Resolved stored, w') ∧
              field "updatedAt" stored = VStr "2023-11-14T22:13:20.000Z".
Proof.
  set (w := sample_fallback).
  set (updates := VObj {[ "title" := VStr "Plan";
                          "updatedAt" := VStr "1999-12-31T23:59:59.000Z" ]}).
  set (o := own_props (sample_note "note_2" "Sprint plan" "work" ["planning"]
                         1600000100000 1600000200000)).
  assert (world_wf w) as Hwf by (intros H; discriminate H).
  assert (getNote (VStr "note_2") w = (Resolved (VObj o), w)) as Hget
    by reflexivity.
  destruct (updateNote_stamps_updatedAt w (VStr "note_2") updates o Hwf Hget)
    as [Hresolves Hstamp].
  destruct Hresolves as (n & w' & Hrun); [reflexivity|].
  exists n, w'. split; [exact Hrun|]. exact (Hstamp n w' Hrun).
Defined.

(** C4 (amended): for every stored note and every updates partial that
    leaves the id alone, [updateNote] resolves and [getNote] of the same id
    then returns a record whose [updatedAt] is the timestamp of the clock
    reading the update took, a later time than its [createdAt] whenever
    that reading, a time before the year 10000, is later than the time
    [createdAt] records; and whose every other field not present in the
    updates, [createdAt] among them when the updates do not carry it, is as
    before the update. *)
Theorem updateNote_then_getNote (w : World) (id updates : JSValue) (o : Obj) :
  world_wf w →
  getNote id w = (Resolved (VObj o), w) →
  keeps_id id updates = true →
  let now := clock w (clock_reads w) in
  ∃ n w' o',
    updateNote id updates w = (Resolved n, w') ∧
    getNote id w' = (Resolved (VObj o'), w') ∧
    o' !! "updatedAt" = Some (VStr (toISOString now)) ∧
    (∀ created, time_of (field "createdAt" (VObj o')) = Some created →
                (created < now < 253402300800000)%N →
                later (field "updatedAt" (VObj o'))
                      (field "createdAt" (VObj o'))) ∧
    (∀ k, k ≠ "updatedAt" → own_props updates !! k = None →
          o' !! k = o !! k) ∧
    (own_props updates !! "createdAt" = None →
     o' !! "createdAt" = o !! "createdAt").
Proof.
  intros Hwf Hget Hnoid now.
  destruct (updateNote_resolves _ _ _ _ Hwf Hget Hnoid)
    as (n & w' & Hrun & Hid).
  destruct (updateNote_resolved _ _ _ _ _ _ Hwf Hget Hrun) as [Hn Hstored].
  rewrite Hid in Hstored. unfold as_stored in Hstored.
  assert (∃ o1, n = VObj o1 ∧
    o1 !! "updatedAt" = Some (VStr (toISOString now)) ∧
    ∀ k, k ≠ "updatedAt" → own_props updates !! k = None →
         o1 !! k = o !! k) as (o1 & -> & Hstamp & Hframe).
  { rewrite Hn. eexists. split; [reflexivity|]. split.
    - apply lookup_insert_eq.
    - intros k Hk Hu.
      apply (updated_note_frame (VObj o) updates now k Hk Hu). }
  assert (∀ o', o' !! "updatedAt" = Some (VStr (toISOString now)) →
    ∀ created, time_of (field "createdAt" (VObj o')) = Some created →
               (created < now < 253402300800000)%N →
               later (field "updatedAt" (VObj o'))
                     (field "createdAt" (VObj o'))) as Hlater.
  { intros o' Hup created Hcreated [Hlt Hmax]. exists now, created.
    split; [|done]. unfold field at 1. rewrite Hup. simpl.
    by apply parse_iso_toISOString. }
  destruct (isIndexedDBSupported w) eqn:Hb.
  - exists (VObj o1), w', o1. split; [done|]. split; [done|].
    split; [done|]. split; [by apply Hlater|]. split; [done|]. auto.
  - pose proof (getNote_fallback_norm _ _ _ Hwf Hb Hget) as Hnorm.
    simpl in Hnorm, Hstored. injection Hnorm as Hnorm.
    eexists (VObj o1), w', _. split; [done|]. split; [exact Hstored|].
    assert (∀ k, k ≠ "updatedAt" → own_props updates !! k = None →
      omap (λ x, match x with
                 | VUndefined => None
                 | _ => Some (json_norm x)
                 end) o1 !! k = o !! k) as Hframe'.
    { intros k Hk Hu. rewrite <-Hnorm at 1.
      by rewrite !lookup_omap, (Hframe k Hk Hu). }
    assert (omap (λ x, match x with
                       | VUndefined => None
                       | _ => Some (json_norm x)
                       end) o1 !! "updatedAt"
            = Some (VStr (toISOString now))) as Hstamp'
      by (by rewrite lookup_omap, Hstamp).
    split; [done|]. split; [by apply Hlater|]. split; [done|].
    intros Hu. by apply Hframe'.
Qed.

Lemma updateNote_then_getNote_witness :
  ∃ n w' o',
    updateNote (VStr "note_2") (VObj {[ "title" := VStr "Plan" ]})
      sample_primary = (Resolved n, w') ∧
    getNote (VStr "note_2") w' = (Resolved (VObj o'), w') ∧
    o' !! "updatedAt" = Some (VStr "2023-11-14T22:13:20.000Z") ∧
    o' !! "createdAt" = Some (VStr "2020-09-13T12:28:20.000Z") ∧
    later (field "updatedAt" (VObj o')) (field "createdAt" (VObj o')) ∧
    o' !! "content" = Some (VStr "About Sprint plan").
Proof.
  set (w := sample_primary).
  set (updates := VObj {[ "title" := VStr "Plan" ]}).
  set (o := own_props (sample_note "note_2" "Sprint plan" "work" ["planning"]
                         1600000100000 1600000200000)).
  destruct (updateNote_then_getNote w (VStr "note_2") updates o)
    as (n & w' & o' & Hrun & Hget & Hstamp & Hlater & Hframe & Hcreated).
  - intros _. apply store_of_wf.
  - reflexivity.
  - reflexivity.
  - assert (o' !! "createdAt" = Some (VStr "2020-09-13T12:28:20.000Z"))
      as Hc by (rewrite Hcreated; reflexivity).
    exists n, w', o'. split; [exact Hrun|]. split; [exact Hget|].
    split; [exact Hstamp|]. split; [exact Hc|]. split.
    + apply (Hlater 1600000100000%N).
      * unfold field. rewrite Hc. reflexivity.
      * split; reflexivity.
    + rewrite Hframe; [reflexivity|discriminate|reflexivity].
Defined.

(** C4 as stated does not hold. Updates that carry a [createdAt] replace
    the stored one; a note imported with a [createdAt] in the future keeps
    it, and after an update its [updatedAt] is the earlier of the two; and
    with updates that carry another id the fallback backend finds no note to
    replace and rejects. *)
Lemma updateNote_claim_fails :
  (∃ n, outcome
          (let! _ := updateNote (VStr "note_2")
                       (VObj {[ "createdAt" :=
                                  VStr "1999-12-31T23:59:59.000Z" ]}) in
           getNote (VStr "note_2")) sample_fallback = Resolved n ∧
        field "createdAt" n = VStr "1999-12-31T23:59:59.000Z" ∧
        outcome (getNote (VStr "note_2")) sample_fallback
        = Resolved (sample_note "note_2" "Sprint plan" "work" ["planning"]
                      1600000100000 1600000200000)) ∧
  (∃ n, outcome
          (let! _ := importData
                       (VObj {[ "notes" :=
                                  VArr [sample_note "note_7" "Plans" "work" []
                                          4102444800000 4102444800000] ]}) in
           let! _ := updateNote (VStr "note_7")
                       (VObj {[ "title" := VStr "Y" ]}) in
           getNote (VStr "note_7")) empty_fallback = Resolved n ∧
        field "createdAt" n = VStr "2100-01-01T00:00:00.000Z" ∧
        field "updatedAt" n = VStr "2023-11-14T22:13:20.003Z" ∧
        later (field "createdAt" n) (field "updatedAt" n)) ∧
  outcome (updateNote (VStr "note_2") (VObj {[ "id" := VStr "note_9" ]}))
    sample_fallback
  = Rejected (Error "Failed to update note in localStorage").
Proof.
  split; [|split].
  - eexists. split; [by vm_compute|]. by vm_compute.
  - eexists. split; [by vm_compute|]. split; [by vm_compute|].
    split; [by vm_compute|].
    exists 4102444800000%N, 1700000000003%N. by vm_compute.
  - by vm_compute.
Qed.

(** An update within the millisecond of the creation leaves [updatedAt]
    equal to the [updatedAt] and the [createdAt] the creation wrote, where
    the repository's test 'should update a note successfully' expects
    the update to change it. *)
Example updateNote_same_millisecond :
  ∃ created updated,
    outcome (createNote (VObj ∅)) stuck_fallback = Resolved created ∧
    outcome
      (let! a := createNote (VObj ∅) in
       updateNote (field "id" a) (VObj {[ "title" := VStr "Y" ]}))
      stuck_fallback = Resolved updated ∧
    field "updatedAt" updated = field "updatedAt" created ∧
    field "updatedAt" updated = field "createdAt" updated.
Proof.
  eexists _, _. split; [by vm_compute|]. split; [by vm_compute|].
  by vm_compute.
Qed.


(** ** Export and import *)

Section round_trip.

Implicit Types (w : World) (v n : JSValue) (o : Obj) (l : list JSValue).

(** For a note that has all its fields, the spread leaves nothing of the
    defaults and the generated values. *)
Lemma new_note_full v w : has_all_fields v = true → new_note v w = v.
Proof.
  destruct v as [| | | | | |o]; try done. intros Hall.
  unfold new_note, spread. f_equal. apply map_eq. intros k.
  destruct (o !! k) as [x|] eqn:Hk; [by apply lookup_union_Some_l|].
  rewrite lookup_union_r by done.
  unfold has_all_fields, note_fields in Hall. simpl in Hall.
  repeat (apply andb_true_iff in Hall as [? Hall]).
  repeat (rewrite lookup_insert_ne;
          [|intros <-; by rewrite Hk in *]).
  rewrite lookup_singleton_ne; [done|]. intros <-. by rewrite Hk in *.
Qed.

Lemma has_all_fields_not_nullish v :
  has_all_fields v = true → is_nullish v = false.
Proof. by destruct v. Qed.

Lemma exportData_run w notes :
  getAllNotes w = (Resolved notes, w) →
  exportData w =
    (Resolved (VObj {[ "version" := VNum dbVersion;
                       "exportDate" :=
                         VStr (toISOString (clock w (clock_reads w)));
                       "notes" := notes ]}), tick w).
Proof.
  intros Hall. unfold exportData, new_Date_toISOString, Date_now.
  unfold_async. by rewrite Hall.
Qed.

Lemma clearAllData_run w :
  clearAllData w =
    (Resolved (VBool true),
     if isIndexedDBSupported w then set_db IDB.empty_store w
     else set_offline_notes (Stringified (VArr [])) w).
Proof.
  unfold clearAllData, clearAllDataIndexedDB, clearAllDataLocalStorage.
  unfold_async. by destruct (isIndexedDBSupported w).
Qed.

Lemma importData_run data l w :
  get_prop data "notes" = Resolved (VArr l) →
  importData data w =
    match for_of createNote l (clearAllData w).2 with
    | (Resolved _, w') => (Resolved (VNum (Z.of_nat (length l))), w')
    | (Rejected e, w') => (Rejected e, w')
    end.
Proof.
  intros Hnotes. unfold importData. unfold_async. rewrite Hnotes. simpl.
  rewrite clearAllData_run. simpl.
  by destruct (for_of createNote l _) as [[[]|e] w'].
Qed.

(** Import on the fallback backend: the notes are appended one by one. *)
Lemma for_of_createNote_fallback l w acc :
  isIndexedDBSupported w = false →
  parsed_notes w = Resolved (VArr acc) →
  forallb has_all_fields l = true →
  ∃ w', for_of createNote l w = (Resolved tt, w') ∧
        isIndexedDBSupported w' = false ∧
        parsed_notes w' = Resolved (VArr (acc ++ map json_norm l)).
Proof.
  revert w acc. induction l as [|n l IH]; intros w acc Hb Hacc Hall.
  { exists w. by rewrite app_nil_r. }
  simpl in Hall. apply andb_true_iff in Hall as [Hn Hall].
  simpl. unfold bind.
  rewrite (createNote_fallback n w acc)
    by auto using has_all_fields_not_nullish.
  rewrite (new_note_full _ _ Hn).
  set (w1 := set_offline_notes _ _).
  destruct (IH w1 (acc ++ [json_norm n])%list)
    as (w' & Hrun & Hb' & Hparsed); auto.
  { unfold w1. rewrite parsed_notes_set by done. simpl.
    rewrite map_app. simpl. do 3 f_equal.
    apply parsed_notes_norm in Hacc. simpl in Hacc. by injection Hacc. }
  exists w'. split; [done|]. split; [done|].
  by rewrite Hparsed, <-app_assoc.
Qed.

(** Import on the primary backend: the notes are added one by one, each
    under its own key. *)
Lemma for_of_createNote_primary (kvs : list (IDB.IDBKey * JSValue)) w :
  isIndexedDBSupported w = true →
  IDB.store_wf (db w) →
  NoDup kvs.*1 →
  (∀ k v, (k, v) ∈ kvs →
          IDB.eval_key_path "id" v = Some k ∧ has_all_fields v = true ∧
          IDB.records (db w) !! k = None) →
  ∃ w', for_of createNote kvs.*2 w = (Resolved tt, w') ∧
        isIndexedDBSupported w' = true ∧
        IDB.store_wf (db w') ∧
        IDB.records (db w') = list_to_map kvs ∪ IDB.records (db w).
Proof.
  revert w. induction kvs as [|[k v] kvs IH]; intros w Hb Hwf Hnd Hkvs.
  { exists w. split; [done|]. split; [done|]. split; [done|].
    simpl. by rewrite (left_id_L ∅ (∪)). }
  rewrite fmap_cons in Hnd. apply NoDup_cons in Hnd as [Hk Hnd].
  destruct (Hkvs k v) as (Hid & Hall & Hfree); [left|].
  rewrite fmap_cons. cbn [for_of snd]. unfold bind.
  pose proof (has_all_fields_not_nullish _ Hall) as Hnn.
  pose proof (new_note_full v w Hall) as Hnew.
  destruct (createNote_primary v w k Hnn Hb) as (st & Hadd & Hrec & Hrun);
    [by rewrite Hnew|done|].
  rewrite Hrun, Hnew in *.
  destruct (IH (set_db st (stamped w))) as (w' & Hrest & Hb' & Hwf' & Hrec');
    [done|by eapply add_wf|done| |].
  { intros k' v' Hin. destruct (Hkvs k' v') as (? & ? & ?); [by right|].
    split; [done|]. split; [done|]. simpl. rewrite Hrec.
    rewrite lookup_insert_ne; [done|]. intros <-.
    apply Hk, list_elem_of_fmap. by exists (k, v'). }
  exists w'. split; [done|]. split; [done|]. split; [done|].
  rewrite Hrec'. cbn [db set_db list_to_map foldr]. rewrite Hrec.
  rewrite <-insert_union_l. symmetry. apply insert_union_r.
  by apply not_elem_of_list_to_map_1.
Qed.

End round_trip.

(** C3 (amended): round trip. For every consistent store whose notes have
    all their seven fields, exporting a bundle, clearing all data (the store
    is then empty) and importing the bundle resolves with the number of
    notes and leaves the store with the same notes as before the export:
    [getAllNotes] returns the same sequence of records, each with its id
    and all its field values as they were. *)
Theorem export_clear_import_round_trip (w : World) (notes : list JSValue) :
  world_wf w →
  getAllNotes w = (Resolved (VArr notes), w) →
  forallb has_all_fields notes = true →
  ∃ bundle w1 w2 w3,
    exportData w = (Resolved bundle, w1) ∧
    clearAllData w1 = (Resolved (VBool true), w2) ∧
    getAllNotes w2 = (Resolved (VArr []), w2) ∧
    importData bundle w2
    = (Resolved (VNum (Z.of_nat (length notes))), w3) ∧
    getAllNotes w3 = (Resolved (VArr notes), w3).
Proof.
  intros Hwf Hall Hfull.
  set (bundle := VObj {[ "version" := VNum dbVersion;
                         "exportDate" :=
                           VStr (toISOString (clock w (clock_reads w)));
                         "notes" := VArr notes ]}).
  assert (get_prop bundle "notes" = Resolved (VArr notes)) as Hnotes.
  { unfold bundle. simpl. by simplify_map_eq. }
  pose proof (exportData_run _ _ Hall) as Hexport. fold bundle in Hexport.
  pose proof (clearAllData_run (tick w)) as Hclear.
  change (isIndexedDBSupported (tick w)) with (isIndexedDBSupported w)
    in Hclear.
  destruct (isIndexedDBSupported w) eqn:Hb.
  - rewrite getAllNotes_primary in Hall by done. injection Hall as Hall.
    set (w2 := set_db IDB.empty_store (tick w)) in *.
    destruct (for_of_createNote_primary
                (map_to_list (IDB.records (db w))) (set_db IDB.empty_store w2))
      as (w3 & Hrun & Hb3 & Hwf3 & Hrec); auto using empty_store_wf.
    { apply NoDup_fst_map_to_list. }
    { intros k v Hkv%elem_of_map_to_list. destruct (Hwf Hb) as [Hkeys _].
      split; [by apply Hkeys|]. split; [|done].
      rewrite forallb_forall in Hfull. apply Hfull.
      rewrite <-Hall. apply list_elem_of_In, elem_of_getAll. eauto. }
    exists bundle, (tick w), w2, w3.
    split; [done|]. split; [done|]. split.
    { rewrite getAllNotes_primary by done. unfold IDB.getAll. simpl.
      by rewrite map_to_list_empty. }
    split.
    + rewrite (importData_run _ notes) by apply Hnotes.
      rewrite clearAllData_run. cbn [snd]. change (isIndexedDBSupported w2)
        with (isIndexedDBSupported w). rewrite Hb.
      unfold IDB.getAll in Hall. rewrite <-Hall at 1. by rewrite Hrun, <-Hall.
    + rewrite getAllNotes_primary by done. unfold IDB.getAll. rewrite Hrec.
      simpl. rewrite (right_id_L ∅ (∪)), list_to_map_to_list.
      by rewrite <-Hall.
  - rewrite getAllNotes_fallback in Hall by done.
    destruct (parsed_notes w) as [v|] eqn:Hp; [|done]. injection Hall as ->.
    apply parsed_notes_norm in Hp. simpl in Hp. injection Hp as Hnorm.
    set (w2 := set_offline_notes (Stringified (VArr [])) (tick w)) in *.
    destruct (for_of_createNote_fallback notes
                (set_offline_notes (Stringified (VArr [])) w2) [])
      as (w3 & Hrun & Hb3 & Hparsed); auto.
    rewrite Hnorm in Hparsed. simpl in Hparsed.
    exists bundle, (tick w), w2, w3.
    split; [done|]. split; [done|]. split.
    { by rewrite getAllNotes_fallback. }
    split.
    + rewrite (importData_run _ notes) by apply Hnotes.
      rewrite clearAllData_run. cbn [snd]. change (isIndexedDBSupported w2)
        with (isIndexedDBSupported w). by rewrite Hb, Hrun.
    + rewrite getAllNotes_fallback by done. by rewrite Hparsed.
Qed.

Lemma export_clear_import_round_trip_witness :
  ∃ bundle w1 w2 w3,
    exportData sample_primary = (Resolved bundle, w1) ∧
    clearAllData w1 = (Resolved (VBool true), w2) ∧
    getAllNotes w2 = (Resolved (VArr []), w2) ∧
    importData bundle w2 = (Resolved (VNum 3), w3) ∧
    getAllNotes w3
    = (Resolved (VArr (IDB.getAll (store_of sample_notes))), w3).
Proof.
  apply (export_clear_import_round_trip sample_primary
           (IDB.getAll (store_of sample_notes))).
  - intros _. apply store_of_wf.
  - reflexivity.
  - reflexivity.
Defined.

(** C3 as stated does not hold. The fallback backend stores a note created
    with a content that is undefined without that field, and the import,
    which creates each note of the bundle anew, fills the field with its
    default: the note comes back with its id and with the empty text as
    content. *)
Lemma round_trip_claim_fails :
  let noteData := VObj {[ "title" := VStr "A"; "content" := VUndefined ]} in
  ∃ before back,
    outcome (let! _ := createNote noteData in getAllNotes) empty_fallback
    = Resolved (VArr [before]) ∧
    outcome (let! _ := createNote noteData in
             let! bundle := exportData in
             let! _ := clearAllData in
             let! _ := importData bundle in
             getAllNotes) empty_fallback
    = Resolved (VArr [back]) ∧
    has_all_fields before = false ∧
    field "id" back = field "id" before ∧
    field "content" before = VUndefined ∧
    field "content" back = VStr "".
Proof.
  eexists _, _. split; [by vm_compute|]. split; [by vm_compute|].
  by vm_compute.
Qed.

(** ** Consistency is an invariant *)

Section invariant.

Implicit Types (w : World) (v id updates : JSValue).

Lemma createNote_wf v w : world_wf w → world_wf (createNote v w).2.
Proof.
  intros Hwf Hb.
  destruct (createNote_world v w) as (_ & _ & _ & _ & Hflag).
  rewrite Hflag in Hb. by apply createNote_primary_step; auto.
Qed.

Lemma new_note_has_all_fields v w : has_all_fields (new_note v w) = true.
Proof.
  unfold new_note, has_all_fields, note_fields, spread. simpl.
  repeat (apply andb_true_iff; split); try done.
  all: match goal with
       | |- context [(?o ∪ ?m) !! ?k] =>
           destruct (o !! k) eqn:Hk;
           [by rewrite (lookup_union_Some_l _ _ _ _ Hk)
           |rewrite lookup_union_r by done; by simplify_map_eq]
       end.
Qed.

Lemma updated_note_has_all_fields v updates (now : N) :
  has_all_fields v = true →
  has_all_fields (updated_note v updates now) = true.
Proof.
  destruct v as [| | | | | |o]; try done.
  unfold updated_note, has_all_fields, note_fields, spread. simpl.
  intros Hall. repeat (apply andb_true_iff in Hall as [? Hall]).
  repeat (apply andb_true_iff; split); try done.
  all: match goal with
       | |- context [<[?j := ?x]> (?u ∪ ?m) !! ?k] =>
           rewrite lookup_insert; case_decide; [done|];
           destruct (u !! k) eqn:Hk;
           [by rewrite (lookup_union_Some_l _ _ _ _ Hk)
           |rewrite lookup_union_r by done;
            rewrite lookup_union_l by done; by destruct (o !! k)]
       end.
Qed.

(** The JSON round trip of the fallback backend keeps a note complete when
    none of its properties is undefined. *)
Lemma has_all_fields_norm v :
  has_all_fields v = true →
  (∀ k, own_props v !! k ≠ Some VUndefined) →
  has_all_fields (json_norm v) = true.
Proof.
  destruct v as [| | | | | |o]; try done. intros Hall Hdef.
  unfold has_all_fields in *. rewrite forallb_forall in Hall.
  apply forallb_forall. intros k Hk. specialize (Hall k Hk).
  specialize (Hdef k). simpl in Hdef.
  change (match own_props (json_norm (VObj o)) !! k with
          | Some _ => true
          | None => false
          end = true).
  rewrite json_norm_lookup. by destruct (o !! k) as [[]|].
Qed.

Lemma updateNote_wf id updates w :
  world_wf w → world_wf (updateNote id updates w).2.
Proof.
  intros Hwf. unfold updateNote, bind.
  pose proof (getNote_world w id) as Hw.
  destruct (getNote id w) as [[existing|e] w0]; simpl in Hw; subst w0;
    [|done].
  destruct (truthy existing); [|done]. simpl.
  unfold new_Date_toISOString, Date_now. unfold_async.
  change (isIndexedDBSupported (tick w)) with (isIndexedDBSupported w).
  destruct (isIndexedDBSupported w) eqn:Hb.
  - rewrite updateNoteIndexedDB_run. change (db (tick w)) with (db w).
    destruct (IDB.put _ (db w)) as [|st|] eqn:Hput; intros Hb'; simpl; auto.
    eapply put_wf; [|exact Hput]. auto.
  - rewrite updateNoteLocalStorage_run.
    destruct (_ ≫= _); intros Hb'; simpl in Hb'; congruence.
Qed.

Lemma deleteNote_wf id w : world_wf w → world_wf (deleteNote id w).2.
Proof.
  intros Hwf. unfold deleteNote, deleteNoteIndexedDB, deleteNoteLocalStorage.
  unfold_async. destruct (isIndexedDBSupported w) eqn:Hb; intros Hb'.
  - destruct (IDB.delete id (db w)) as [|st|] eqn:Hdel; simpl; auto.
    eapply delete_wf; [|exact Hdel]. auto.
  - exfalso. revert Hb'. rewrite getNotesFromLocalStorage_run.
    destruct (parsed_notes w) as [notes|]; simpl; [|congruence].
    destruct (array_filter _ notes); simpl; congruence.
Qed.

Lemma clearAllData_wf w : world_wf (clearAllData w).2.
Proof.
  rewrite clearAllData_run. simpl.
  destruct (isIndexedDBSupported w) eqn:Hb; intros Hb'; simpl in *.
  - apply empty_store_wf.
  - congruence.
Qed.

Lemma for_of_createNote_wf (l : list JSValue) w :
  world_wf w → world_wf (for_of createNote l w).2.
Proof.
  revert w. induction l as [|v l IH]; intros w Hwf; [done|].
  simpl. unfold bind. pose proof (createNote_wf v w Hwf) as Hwf1.
  destruct (createNote v w) as [[n|e] w1]; simpl in *; auto.
Qed.

Lemma importData_wf data w : world_wf w → world_wf (importData data w).2.
Proof.
  intros Hwf. unfold importData. unfold_async.
  destruct (get_prop data "notes") as [notes|]; [|done].
  destruct (negb (truthy notes) || negb (is_array notes)); [done|].
  pose proof (clearAllData_wf w) as Hwf1.
  destruct (clearAllData w) as [[r|e] w1]; simpl in *; [|done].
  destruct (as_array notes) as [items|]; [|done].
  pose proof (for_of_createNote_wf items w1 Hwf1) as Hwf2.
  by destruct (for_of createNote items w1) as [[[]|e] w2].
Qed.

End invariant.

(** ** Deletion, creation and lookup *)

Section writes.

Implicit Types (w : World) (v n id : JSValue) (l notes : list JSValue).

(** Filtering keeps a list that the JSON round trip leaves as it is such a
    list. *)
Lemma map_json_norm_filter (q : JSValue → bool) l :
  map json_norm l = l → map json_norm (List.filter q l) = List.filter q l.
Proof.
  induction l as [|x l IH]; simpl; [done|]. intros [= Hx Hl].
  destruct (q x); simpl; rewrite ?Hx, IH; auto.
Qed.

Lemma filter_all (q : JSValue → bool) l :
  forallb q l = true → List.filter q l = l.
Proof.
  induction l as [|x l IH]; simpl; [done|].
  intros [Hx Hl]%andb_true_iff. by rewrite Hx, IH.
Qed.

Lemma forallb_filter (p q : JSValue → bool) l :
  forallb p l = true → forallb p (List.filter q l) = true.
Proof.
  rewrite !forallb_forall. intros H x [Hx _]%filter_In. auto.
Qed.

(** What the fallback backend reads back once an array was written. *)
Lemma getAllNotes_written w l :
  isIndexedDBSupported w = false → map json_norm l = l →
  getAllNotes (set_offline_notes (Stringified (VArr l)) w)
  = (Resolved (VArr l), set_offline_notes (Stringified (VArr l)) w).
Proof.
  intros Hb Hl. rewrite getAllNotes_fallback by done.
  rewrite parsed_notes_set by done. simpl. by rewrite Hl.
Qed.

Lemma stored_notes_norm w notes :
  isIndexedDBSupported w = false → stored_notes w notes →
  map json_norm notes = notes.
Proof.
  intros Hb Hst. pose proof (stored_notes_fallback _ _ Hb Hst) as Hp.
  apply parsed_notes_norm in Hp. simpl in Hp. by injection Hp.
Qed.

Lemma deleteNoteIndexedDB_run id w :
  deleteNoteIndexedDB id w =
    match IDB.delete id (db w) with
    | IDB.Threw => (Rejected DataError, w)
    | IDB.OnError => (Rejected (Error "Failed to delete note"), w)
    | IDB.OnSuccess st => (Resolved (VBool true), set_db st w)
    end.
Proof.
  unfold deleteNoteIndexedDB. unfold_async. by destruct (IDB.delete id (db w)).
Qed.

Lemma deleteNoteLocalStorage_run id w :
  deleteNoteLocalStorage id w =
    match parsed_notes w ≫=
            array_filter (λ n, nid ← get_prop n "id";
                               Resolved (negb (strict_equal nid id))) with
    | Resolved notes' =>
        (Resolved (VBool true), set_offline_notes (Stringified notes') w)
    | Rejected _ =>
        (Rejected (Error "Failed to delete note from localStorage"), w)
    end.
Proof.
  unfold deleteNoteLocalStorage. unfold_async.
  rewrite getNotesFromLocalStorage_run.
  destruct (parsed_notes w) as [notes|e]; [|done]. cbn.
  by destruct (array_filter _ notes).
Qed.

(** On the fallback backend [deleteNote] writes back the notes of another
    id. *)
Lemma deleteNote_fallback w id notes :
  isIndexedDBSupported w = false → stored_notes w notes →
  deleteNote id w =
    (Resolved (VBool true),
     set_offline_notes
       (Stringified (VArr (List.filter (other_id id) notes))) w).
Proof.
  intros Hb Hst. unfold deleteNote. unfold_async. rewrite Hb.
  fold (deleteNoteLocalStorage id w). rewrite deleteNoteLocalStorage_run.
  rewrite (stored_notes_fallback _ _ Hb Hst). cbn.
  rewrite (filter_from_total _ (other_id id)); [done|].
  destruct Hst as [_ Hobj]. rewrite forallb_forall in Hobj.
  apply Forall_forall. intros n Hn%list_elem_of_In.
  by rewrite get_prop_object by auto.
Qed.

(** In a consistent store, the record under the key of a text [id] is the
    one whose [id] is that text. *)
Lemma record_key_id (st : IDB.ObjectStore) (k : IDB.IDBKey) v (id : string) :
  IDB.store_wf st → IDB.records st !! k = Some v →
  other_id (VStr id) v = false ↔ k = IDB.KStr id.
Proof.
  intros [Hk _] Hv.
  destruct (eval_key_path_object _ _ _ (Hk _ _ Hv)) as (o & x & -> & Hx & Hkx).
  unfold other_id, field. rewrite Hx. simpl. rewrite negb_false_iff. split.
  - intros ->%strict_equal_eq. simpl in Hkx. congruence.
  - intros ->. assert (x = VStr id) as -> by (by eapply to_key_inj).
    simpl. apply String.eqb_refl.
Qed.

Lemma getAll_delete (st st' : IDB.ObjectStore) (id : string) :
  IDB.store_wf st → IDB.delete (VStr id) st = IDB.OnSuccess st' →
  IDB.getAll st' ≡ₚ List.filter (other_id (VStr id)) (IDB.getAll st).
Proof.
  intros Hwf Hdel. apply NoDup_Permutation.
  - apply getAll_NoDup. by eapply delete_wf.
  - apply NoDup_ListNoDup, List.NoDup_filter, NoDup_ListNoDup.
    by apply getAll_NoDup.
  - intros v. rewrite !list_elem_of_In, filter_In, <-!list_elem_of_In.
    rewrite !elem_of_getAll.
    injection Hdel as <-. simpl. setoid_rewrite lookup_delete_Some. split.
    + intros (k & Hne & Hv). split; [eauto|].
      destruct (other_id (VStr id) v) eqn:Ho; [done|].
      by apply (record_key_id st k) in Ho.
    + intros [[k Hv] Ho]. exists k. split; [|done].
      intros <-. apply (record_key_id st _ v id) in Hv as Hiff; [|done].
      destruct Hiff as [_ Hiff]. rewrite Hiff in Ho; done.
Qed.

End writes.

(** X1: [deleteNote] of a text id resolves with true on both backends;
    afterwards [getNote] of that id yields undefined and the store holds
    exactly the notes of another id, each as before (on the fallback backend
    in their order). *)
Theorem deleteNote_removes (w : World) (id : string) (notes : list JSValue) :
  world_wf w →
  stored_notes w notes →
  ∃ w' notes',
    deleteNote (VStr id) w = (Resolved (VBool true), w') ∧
    getNote (VStr id) w' = (Resolved VUndefined, w') ∧
    stored_notes w' notes' ∧
    notes' ≡ₚ List.filter (other_id (VStr id)) notes ∧
    (isIndexedDBSupported w = false →
     notes' = List.filter (other_id (VStr id)) notes).
Proof.
  intros Hwf Hst. destruct (isIndexedDBSupported w) eqn:Hb.
  - set (st := {| IDB.records :=
                    base.delete (IDB.KStr id) (IDB.records (db w));
                  IDB.folder_index :=
                    IDB.index_remove (IDB.KStr id)
                      (IDB.folder_index (db w)) |}).
    assert (IDB.store_wf st) as Hwf'
      by (by apply (delete_wf (VStr id) (db w)); auto).
    exists (set_db st w), (IDB.getAll st).
    split; [|split; [|split; [|split]]].
    + unfold deleteNote. unfold_async. by rewrite Hb.
    + rewrite getNote_primary by done. simpl. by rewrite lookup_delete_eq.
    + apply (stored_notes_primary (set_db st w)); [exact Hb|by intros _].
    + destruct Hst as [Hall _]. rewrite getAllNotes_primary in Hall by done.
      injection Hall as <-. by apply (getAll_delete (db w) st id); auto.
    + done.
  - pose proof (stored_notes_norm _ _ Hb Hst) as Hnorm.
    set (kept := List.filter (other_id (VStr id)) notes).
    assert (map json_norm kept = kept) as Hkept
      by (by apply map_json_norm_filter).
    exists (set_offline_notes (Stringified (VArr kept)) w), kept.
    split; [|split; [|split; [|split]]].
    + by apply deleteNote_fallback.
    + rewrite getNote_fallback by done. rewrite parsed_notes_set by done.
      simpl. rewrite Hkept. cbn. rewrite find_from_none; [done|].
      apply Forall_forall. intros n [Hn Ho]%list_elem_of_In%filter_In.
      destruct Hst as [_ Hobj]. rewrite forallb_forall in Hobj.
      rewrite get_prop_object by auto. cbn.
      unfold other_id in Ho. by destruct (strict_equal _ _).
    + split; [by apply getAllNotes_written|].
      apply forallb_filter. by destruct Hst.
    + done.
    + done.
Qed.

Lemma deleteNote_removes_witness :
  ∃ w' notes',
    deleteNote (VStr "note_2") sample_primary = (Resolved (VBool true), w') ∧
    getNote (VStr "note_2") w' = (Resolved VUndefined, w') ∧
    stored_notes w' notes' ∧
    notes' ≡ₚ List.filter (other_id (VStr "note_2"))
                (IDB.getAll (store_of sample_notes)) ∧
    (isIndexedDBSupported sample_primary = false →
     notes' = List.filter (other_id (VStr "note_2"))
                (IDB.getAll (store_of sample_notes))).
Proof.
  apply (deleteNote_removes sample_primary "note_2").
  - intros _. apply store_of_wf.
  - split; reflexivity.
Defined.

(** X2: deleting an id that no stored note carries is not an error:
    [deleteNote] resolves with true and the store holds the same notes, in
    the same order, as before. *)
Theorem deleteNote_absent_keeps_notes (w : World) (id : string)
    (notes : list JSValue) :
  world_wf w →
  stored_notes w notes →
  forallb (other_id (VStr id)) notes = true →
  ∃ w', deleteNote (VStr id) w = (Resolved (VBool true), w') ∧
        stored_notes w' notes.
Proof.
  intros Hwf Hst Hid. destruct (isIndexedDBSupported w) eqn:Hb.
  - assert (IDB.records (db w) !! IDB.KStr id = None) as Hfree.
    { destruct (IDB.records (db w) !! IDB.KStr id) as [v|] eqn:Hv; [|done].
      exfalso. rewrite forallb_forall in Hid.
      assert (other_id (VStr id) v = true) as Ho.
      { apply Hid. destruct Hst as [Hall _].
        rewrite getAllNotes_primary in Hall by done. injection Hall as <-.
        apply list_elem_of_In, elem_of_getAll. eauto. }
      assert (other_id (VStr id) v = false)
        by (by eapply record_key_id; eauto).
      congruence. }
    eexists. split.
    { unfold deleteNote. unfold_async. by rewrite Hb. }
    destruct Hst as [Hall Hobj]. split; [|done].
    rewrite getAllNotes_primary in * by done. injection Hall as <-.
    unfold IDB.getAll. simpl. by rewrite delete_id.
  - eexists. split; [by apply deleteNote_fallback|].
    rewrite filter_all by done. destruct Hst as [Hall Hobj]. split; [|done].
    apply getAllNotes_written; [done|].
    eapply stored_notes_norm; [done|]. by split.
Qed.

Lemma deleteNote_absent_keeps_notes_witness :
  ∃ w', deleteNote (VStr "note_9") sample_fallback
        = (Resolved (VBool true), w') ∧
        stored_notes w' sample_notes.
Proof.
  apply (deleteNote_absent_keeps_notes sample_fallback "note_9").
  - intros Hb. discriminate Hb.
  - split; reflexivity.
  - reflexivity.
Defined.

Section creation_more.

Implicit Types (w : World) (v n id : JSValue) (l notes : list JSValue).

(** A first match stays the first match when the list grows at its end. *)
Lemma first_at_app (p : JSValue → Outcome bool) l l' (i : nat) (x : JSValue) :
  first_at p l i x → first_at p (l ++ l')%list i x.
Proof.
  intros (Hi & Hx & Hbefore). split; [by apply lookup_app_l_Some|].
  split; [done|]. intros j y Hj Hy. apply (Hbefore j); [done|].
  rewrite lookup_app_l in Hy; [done|].
  apply lookup_lt_Some in Hi. lia.
Qed.

(** An element that passes the test, after a list on which the test fails,
    is the first match. *)
Lemma first_at_end (p : JSValue → Outcome bool) l (x : JSValue) :
  Forall (λ y, p y = Resolved false) l → p x = Resolved true →
  first_at p (l ++ [x])%list (length l) x.
Proof.
  intros Hl Hx. split; [by rewrite lookup_app_r, Nat.sub_diag|].
  split; [done|]. intros j y Hj Hy. rewrite lookup_app_l in Hy by done.
  rewrite Forall_forall in Hl. apply Hl. by eapply list_elem_of_lookup_2.
Qed.

Lemma other_id_test id notes :
  forallb is_object notes = true →
  forallb (other_id id) notes = true →
  Forall (λ y, has_id id y = Resolved false) notes.
Proof.
  rewrite !forallb_forall. intros Hobj Hid.
  apply Forall_forall. intros y Hy%list_elem_of_In. unfold has_id.
  rewrite get_prop_object by auto. cbn.
  specialize (Hid y Hy). unfold other_id in Hid.
  by destruct (strict_equal _ _).
Qed.

Lemma eval_key_path_field v (k s : string) :
  field k v = VStr s → IDB.eval_key_path k v = Some (IDB.KStr s).
Proof.
  destruct v as [| | | | | |o]; try done. unfold field. simpl.
  destruct (o !! k) as [x|]; simpl; [by intros ->|done].
Qed.

Lemma index_getAll_empty (f : string) :
  IDB.index_getAll (VStr f) IDB.empty_store = IDB.OnSuccess [].
Proof.
  unfold IDB.index_getAll. simpl. rewrite lookup_total_empty.
  change (elements inhabitant) with (elements (∅ : gset IDB.IDBKey)).
  by rewrite elements_empty.
Qed.

Lemma getNotesByFolder_primary w (f : JSValue) :
  isIndexedDBSupported w = true →
  getNotesByFolder f w =
    match IDB.index_getAll f (db w) with
    | IDB.Threw => (Rejected DataError, w)
    | IDB.OnError => (Rejected (Error "Failed to get notes by folder"), w)
    | IDB.OnSuccess r => (Resolved (VArr r), w)
    end.
Proof.
  intros Hb. unfold getNotesByFolder, getNotesByFolderIndexedDB.
  unfold_async. rewrite Hb. by destruct (IDB.index_getAll f (db w)).
Qed.

Lemma createNote_resolved_not_nullish v w n w' :
  createNote v w = (Resolved n, w') → is_nullish v = false.
Proof.
  destruct (is_nullish v) eqn:Hv; [|done]. by rewrite createNote_nullish.
Qed.

End creation_more.

(** X3: a note that [createNote] returned is stored. On both backends the
    store then holds the notes it held and the new one (on the fallback
    backend the new one last); and [getNote] of the id of the new note, a
    text that no note stored before carries, yields the new note as the
    backend holds it. *)
Theorem createNote_then_getNote (w : World) (v : JSValue)
    (notes : list JSValue) (n : JSValue) (w' : World) (id : string) :
  world_wf w →
  stored_notes w notes →
  createNote v w = (Resolved n, w') →
  field "id" n = VStr id →
  (isIndexedDBSupported w = false →
   forallb (other_id (VStr id)) notes = true) →
  getNote (VStr id) w' = (Resolved (as_stored w n), w') ∧
  ∃ notes', stored_notes w' notes' ∧
            notes' ≡ₚ (notes ++ [as_stored w n])%list ∧
            (isIndexedDBSupported w = false →
             notes' = (notes ++ [as_stored w n])%list).
Proof.
  intros Hwf Hst Hrun Hid Hfresh.
  pose proof (createNote_resolved_not_nullish _ _ _ _ Hrun) as Hv.
  pose proof (createNote_resolved _ _ _ _ Hrun) as Hn.
  unfold as_stored. destruct (isIndexedDBSupported w) eqn:Hb.
  - pose proof (createNote_primary_step v w Hb (Hwf Hb)) as [Hwf' Hstep].
    pose proof (createNote_world v w) as (_ & _ & _ & _ & Hb').
    rewrite Hrun in Hwf', Hstep, Hb'. simpl in Hwf', Hstep, Hb'.
    rewrite Hb in Hb'. destruct Hstep as (k & Hk & Hfree & Hrec).
    rewrite Hid in Hk. injection Hk as <-. split.
    + rewrite getNote_primary by done. simpl.
      by rewrite Hrec, lookup_insert_eq.
    + exists (IDB.getAll (db w')). split; [|split; [|done]].
      * apply stored_notes_primary; [done|by intros _].
      * destruct Hst as [Hall _]. rewrite getAllNotes_primary in Hall by done.
        injection Hall as <-. unfold IDB.getAll. rewrite Hrec.
        rewrite map_to_list_insert by done. rewrite fmap_cons. simpl.
        apply Permutation_cons_append.
  - pose proof (stored_notes_fallback _ _ Hb Hst) as Hp.
    pose proof (stored_notes_norm _ _ Hb Hst) as Hnorm.
    rewrite (createNote_fallback v w notes) in Hrun by done.
    injection Hrun as _ <-. rewrite <-Hn.
    assert (∃ o, n = VObj o) as [o ->]
      by (rewrite Hn; unfold new_note; eauto).
    assert (o !! "id" = Some (VStr id)) as Ho.
    { unfold field in Hid. by destruct (o !! "id"); simplify_eq/=. }
    assert (map json_norm (notes ++ [VObj o])%list
            = (notes ++ [json_norm (VObj o)])%list) as Happ
      by (by rewrite map_app, Hnorm).
    set (w' := set_offline_notes _ _).
    assert (parsed_notes w'
            = Resolved (VArr (notes ++ [json_norm (VObj o)])%list)) as Hp'.
    { unfold w'. rewrite parsed_notes_set by done.
      cbn [JSON_parse json_norm]. by rewrite Happ. }
    split.
    + rewrite getNote_fallback by done. rewrite Hp'. cbn -[json_norm].
      erewrite (first_at_find (has_id (VStr id))); [done|].
      apply first_at_end.
      * apply other_id_test; [by destruct Hst|auto].
      * unfold has_id.
        change (get_prop (json_norm (VObj o)) "id")
          with (Resolved (field "id" (json_norm (VObj o)))).
        rewrite (field_norm_text _ _ _ Ho). cbn. by rewrite String.eqb_refl.
    + exists (notes ++ [json_norm (VObj o)])%list.
      split; [|split; [done|done]].
      split; [by rewrite getAllNotes_fallback, Hp'|].
      rewrite forallb_app. destruct Hst as [_ ->]. done.
Qed.

Lemma createNote_then_getNote_witness :
  let w := sample_fallback in
  let v := VObj {[ "title" := VStr "Ideas" ]} in
  let id := "note_1700000000000_0fzyo82mv" in
  getNote (VStr id) (after (createNote v) w)
  = (Resolved (as_stored w (new_note v w)), after (createNote v) w) ∧
  ∃ notes', stored_notes (after (createNote v) w) notes' ∧
            notes' ≡ₚ (sample_notes ++ [as_stored w (new_note v w)])%list ∧
            (isIndexedDBSupported w = false →
             notes' = (sample_notes ++ [as_stored w (new_note v w)])%list).
Proof.
  intros w v id.
  apply (createNote_then_getNote w v sample_notes (new_note v w)
           (after (createNote v) w) id).
  - intros Hb. discriminate Hb.
  - split; reflexivity.
  - reflexivity.
  - vm_compute. reflexivity.
  - intros _. vm_compute. reflexivity.
Defined.

(** X4: on the primary backend [createNote] never overwrites. When the
    input carries the id of a stored note the call rejects with 'Failed to
    create note', and the object store is left exactly as it was. *)
Theorem createNote_existing_id_rejects (w : World) (o existing : Obj)
    (id : string) :
  isIndexedDBSupported w = true →
  o !! "id" = Some (VStr id) →
  getNote (VStr id) w = (Resolved (VObj existing), w) →
  ∃ w', createNote (VObj o) w
        = (Rejected (Error "Failed to create note"), w') ∧
        db w' = db w ∧
        getNote (VStr id) w' = (Resolved (VObj existing), w').
Proof.
  intros Hb Ho Hget. rewrite getNote_primary in Hget by done.
  simpl in Hget.
  destruct (IDB.records (db w) !! IDB.KStr id) as [x|] eqn:Hx; [|done].
  simpl in Hget. injection Hget as ->.
  exists (stamped w). rewrite createNote_run, Hb by done.
  rewrite createNoteIndexedDB_run. change (db (stamped w)) with (db w).
  assert (IDB.eval_key_path "id" (new_note (VObj o) w) = Some (IDB.KStr id))
    as Hk.
  { apply eval_key_path_field. by apply new_note_present. }
  unfold IDB.add. rewrite Hk, Hx. split; [done|]. split; [done|].
  rewrite getNote_primary by done. simpl.
  change (db (stamped w)) with (db w). by rewrite Hx.
Qed.

Lemma createNote_existing_id_rejects_witness :
  ∃ w', createNote (VObj {[ "id" := VStr "note_1"; "title" := VStr "Again" ]})
          sample_primary
        = (Rejected (Error "Failed to create note"), w') ∧
        db w' = db sample_primary ∧
        getNote (VStr "note_1") w'
        = (Resolved (sample_note "note_1" "Groceries" "home" ["Food"; "list"]
                       1600000000000 1600000000000), w').
Proof.
  apply (createNote_existing_id_rejects sample_primary).
  - reflexivity.
  - reflexivity.
  - reflexivity.
Defined.

(** X5: on the fallback backend [createNote] checks no id. When the input
    carries the id of a stored note the call resolves and the note is
    appended, but [getNote] of that id keeps yielding the note stored
    first: the new note cannot be read by its id. *)
Theorem createNote_duplicate_id_shadowed (w : World) (o existing : Obj)
    (id : string) (notes : list JSValue) :
  isIndexedDBSupported w = false →
  stored_notes w notes →
  o !! "id" = Some (VStr id) →
  getNote (VStr id) w = (Resolved (VObj existing), w) →
  ∃ n w', createNote (VObj o) w = (Resolved n, w') ∧
          field "id" n = VStr id ∧
          getAllNotes w'
          = (Resolved (VArr (notes ++ [json_norm n])%list), w') ∧
          getNote (VStr id) w' = (Resolved (VObj existing), w').
Proof.
  intros Hb Hst Ho Hget.
  assert (world_wf w) as Hwf by (intros Hb'; congruence).
  destruct (getNote_found _ _ _ Hwf Hget) as [_ Hwhere].
  rewrite Hb in Hwhere. destruct Hwhere as (l & i & Hl & Hfirst).
  pose proof (stored_notes_fallback _ _ Hb Hst) as Hp.
  assert (l = notes) as -> by congruence.
  pose proof (stored_notes_norm _ _ Hb Hst) as Hnorm.
  exists (new_note (VObj o) w). eexists.
  split; [by apply (createNote_fallback _ w notes)|].
  split; [by apply new_note_present|].
  set (w' := set_offline_notes _ _).
  assert (parsed_notes w'
          = Resolved (VArr (notes ++ [json_norm (new_note (VObj o) w)])%list))
    as Hp'.
  { unfold w'. rewrite parsed_notes_set by done.
    cbn [JSON_parse json_norm]. by rewrite map_app, Hnorm. }
  split; [by rewrite getAllNotes_fallback, Hp'|].
  rewrite getNote_fallback by done. rewrite Hp'. cbn -[json_norm].
  erewrite (first_at_find (has_id (VStr id))); [done|].
  by apply first_at_app.
Qed.

Lemma createNote_duplicate_id_shadowed_witness :
  ∃ n w', createNote
            (VObj {[ "id" := VStr "note_1"; "title" := VStr "Again" ]})
            sample_fallback = (Resolved n, w') ∧
          field "id" n = VStr "note_1" ∧
          getAllNotes w'
          = (Resolved (VArr (sample_notes ++ [json_norm n])%list), w') ∧
          getNote (VStr "note_1") w'
          = (Resolved (sample_note "note_1" "Groceries" "home"
                         ["Food"; "list"] 1600000000000 1600000000000), w').
Proof.
  apply (createNote_duplicate_id_shadowed sample_fallback).
  - reflexivity.
  - split; reflexivity.
  - reflexivity.
  - reflexivity.
Defined.

(** X6: with a text under the notes key that [JSON.parse] refuses, the
    fallback backend refuses every write as it refuses the reads:
    [createNote] and [deleteNote] reject with their own messages,
    [updateNote] with the message of the [getNote] it starts with, and the
    text is left as it is. *)
Theorem corrupted_blob_writes_reject (w : World) (t : Text) (e : JSError)
    (o : Obj) (id updates : JSValue) :
  isIndexedDBSupported w = false →
  offline_notes w = Some t →
  text_truthy t = true →
  JSON_parse t = Rejected e →
  (∃ w', createNote (VObj o) w
         = (Rejected (Error "Failed to create note in localStorage"), w') ∧
         offline_notes w' = Some t) ∧
  updateNote id updates w
  = (Rejected (Error "Failed to get note from localStorage"), w) ∧
  deleteNote id w
  = (Rejected (Error "Failed to delete note from localStorage"), w).
Proof.
  intros Hb Ht Htruthy Hparse.
  assert (parsed_notes w = Rejected e) as Hp
    by (unfold parsed_notes; by rewrite Ht, Htruthy).
  split; [|split].
  - exists (stamped w). rewrite createNote_run, Hb by done.
    rewrite createNoteLocalStorage_run.
    change (parsed_notes (stamped w)) with (parsed_notes w).
    by rewrite Hp.
  - unfold updateNote, bind. rewrite getNote_fallback by done.
    by rewrite Hp.
  - unfold deleteNote. unfold_async. rewrite Hb.
    fold (deleteNoteLocalStorage id w).
    rewrite deleteNoteLocalStorage_run. by rewrite Hp.
Qed.

Lemma corrupted_blob_writes_reject_witness :
  (∃ w', createNote (VObj {[ "title" := VStr "X" ]}) corrupted_fallback
         = (Rejected (Error "Failed to create note in localStorage"), w') ∧
         offline_notes w' = Some (Raw "invalid json")) ∧
  updateNote (VStr "note_1") (VObj {[ "title" := VStr "Y" ]})
    corrupted_fallback
  = (Rejected (Error "Failed to get note from localStorage"),
     corrupted_fallback) ∧
  deleteNote (VStr "note_1") corrupted_fallback
  = (Rejected (Error "Failed to delete note from localStorage"),
     corrupted_fallback).
Proof.
  apply (corrupted_blob_writes_reject corrupted_fallback (Raw "invalid json")
           SyntaxError).
  - reflexivity.
  - reflexivity.
  - reflexivity.
  - reflexivity.
Defined.

(** X7: [clearAllData] resolves with true in every world, whatever the
    store holds, a text that is no JSON included, and leaves an empty store:
    [getAllNotes], [searchNotes] and [getNotesByFolder] then resolve with
    the empty sequence and [getNote] with undefined. *)
Theorem clearAllData_empties (w : World) (id q f : string) :
  ∃ w', clearAllData w = (Resolved (VBool true), w') ∧
        getAllNotes w' = (Resolved (VArr []), w') ∧
        getNote (VStr id) w' = (Resolved VUndefined, w') ∧
        searchNotes (VStr q) w' = (Resolved (VArr []), w') ∧
        getNotesByFolder (VStr f) w' = (Resolved (VArr []), w').
Proof.
  eexists. split; [apply clearAllData_run|].
  destruct (isIndexedDBSupported w) eqn:Hb.
  - assert (getAllNotes (set_db IDB.empty_store w)
            = (Resolved (VArr []), set_db IDB.empty_store w)) as Hall.
    { rewrite getAllNotes_primary by done. unfold IDB.getAll. simpl.
      by rewrite map_to_list_empty. }
    split; [done|]. split; [by rewrite getNote_primary|]. split.
    + unfold searchNotes. unfold_async. by rewrite Hall.
    + rewrite getNotesByFolder_primary by done.
      change (db (set_db IDB.empty_store w)) with IDB.empty_store.
      by rewrite index_getAll_empty.
  - assert (getAllNotes (set_offline_notes (Stringified (VArr [])) w)
            = (Resolved (VArr []),
               set_offline_notes (Stringified (VArr [])) w)) as Hall
      by (by apply getAllNotes_written).
    split; [done|]. split; [by rewrite getNote_fallback|]. split.
    + unfold searchNotes. unfold_async. by rewrite Hall.
    + unfold getNotesByFolder. unfold_async. simpl. rewrite Hb.
      by rewrite Hall.
Qed.

(** ** Start-up *)

Section startup.

Implicit Types (w : World).

Lemma initLocalStorage_run w :
  initLocalStorage w =
    if Storage_defined w
    then (Resolved tt,
          match offline_notes w with
          | Some t =>
              if text_truthy t then w
              else set_offline_notes (Stringified (VArr [])) w
          | None => set_offline_notes (Stringified (VArr [])) w
          end)
    else (Rejected (Error "Neither IndexedDB nor localStorage is supported"),
          w).
Proof.
  unfold initLocalStorage, typeof_Storage. unfold_async.
  destruct (Storage_defined w); [|done]. simpl.
  destruct (offline_notes w) as [t|]; [|done]. by destruct (text_truthy t).
Qed.

Lemma initLocalStorage_parsed w :
  parsed_notes (initLocalStorage w).2 = parsed_notes w.
Proof.
  rewrite initLocalStorage_run. destruct (Storage_defined w); [|done].
  simpl. unfold parsed_notes.
  destruct (offline_notes w) as [t|] eqn:Ht; [|done].
  destruct (text_truthy t) eqn:Htr; [by rewrite Ht, Htr|done].
Qed.

(** What [initLocalStorage] leaves alone. *)
Lemma initLocalStorage_frame w :
  let w' := (initLocalStorage w).2 in
  isIndexedDBSupported w' = isIndexedDBSupported w ∧ db w' = db w ∧
  Storage_defined w' = Storage_defined w.
Proof.
  rewrite initLocalStorage_run. destruct (Storage_defined w) eqn:Hs; [|done].
  simpl. destruct (offline_notes w) as [t|]; [|done].
  by destruct (text_truthy t).
Qed.

End startup.

(** X8: [initLocalStorage] discards nothing. Where the global [Storage] is
    defined it resolves and leaves under the notes key a text that is not
    empty, the text that was there when there was one; where [Storage] is
    not defined it throws 'Neither IndexedDB nor localStorage is supported'
    and leaves the browser state as it is. Either way [getAllNotes] on the
    fallback backend returns after it what it returned before, and a second
    call ends as the first and changes nothing. *)
Theorem initLocalStorage_keeps_notes (w : World) :
  ∃ w',
    initLocalStorage w =
      (if Storage_defined w then Resolved tt
       else Rejected
              (Error "Neither IndexedDB nor localStorage is supported"),
       w') ∧
    (Storage_defined w = true →
     ∃ t, offline_notes w' = Some t ∧ text_truthy t = true) ∧
    (Storage_defined w = false → w' = w) ∧
    (∀ t0, offline_notes w = Some t0 → text_truthy t0 = true → w' = w) ∧
    (isIndexedDBSupported w = false →
     (getAllNotes w').1 = (getAllNotes w).1) ∧
    initLocalStorage w' = ((initLocalStorage w).1, w').
Proof.
  rewrite initLocalStorage_run.
  destruct (Storage_defined w) eqn:Hs.
  2:{ exists w. split; [done|]. split; [done|]. split; [done|].
      split; [done|]. split; [done|]. by rewrite initLocalStorage_run, Hs. }
  destruct (offline_notes w) as [t0|] eqn:Ht0.
  - destruct (text_truthy t0) eqn:Htr.
    + exists w. split; [done|]. split; [by eauto|]. split; [done|].
      split; [done|]. split; [done|].
      by rewrite initLocalStorage_run, Hs, Ht0, Htr.
    + eexists. split; [done|]. split; [intros _; by eexists|].
      split; [done|].
      split; [intros ? [= <-]; congruence|]. split.
      * intros Hb. rewrite !getAllNotes_fallback by done.
        unfold parsed_notes. simpl. by rewrite Ht0, Htr.
      * rewrite initLocalStorage_run. simpl. by rewrite Hs.
  - eexists. split; [done|]. split; [intros _; by eexists|].
    split; [done|]. split; [done|]. split.
    + intros Hb. rewrite !getAllNotes_fallback by done.
      unfold parsed_notes. simpl. by rewrite Ht0.
    + rewrite initLocalStorage_run. simpl. by rewrite Hs.
Qed.

(** X9: [init] falls back, and rejects only where there is nothing to fall
    back on. When IndexedDB is supported and the open request fires
    [onsuccess], [init] resolves and the manager stays on the primary
    backend with the database opened, the text under the notes key not
    touched. When the browser state says
    IndexedDB is not supported, or the open request throws or fires
    [onerror], the manager ends on the fallback backend: where the global
    [Storage] is defined, [init] resolves, with a text that is not empty
    under the notes key, and [getAllNotes] returns what the notes key held;
    where it is not, [init] rejects with 'Neither IndexedDB nor localStorage
    is supported', the notes key as it was. *)
Theorem init_falls_back (w : World)
    (request : IDB.Request IDB.ObjectStore) :
  ∃ r w', init request w = (r, w') ∧
    (∀ st, isIndexedDBSupported w = true → request = IDB.OnSuccess st →
           r = Resolved tt ∧
           isIndexedDBSupported w' = true ∧ db w' = st ∧
           offline_notes w' = offline_notes w) ∧
    ((isIndexedDBSupported w = false ∨ ∀ st, request ≠ IDB.OnSuccess st) →
     isIndexedDBSupported w' = false ∧ db w' = db w ∧
     (Storage_defined w = true →
      r = Resolved tt ∧
      (∃ t, offline_notes w' = Some t ∧ text_truthy t = true) ∧
      getAllNotes w' =
        (match parsed_notes w with
         | Resolved v => Resolved v
         | Rejected _ =>
             Rejected (Error "Failed to get notes from localStorage")
         end, w')) ∧
     (Storage_defined w = false →
      r = Rejected
            (Error "Neither IndexedDB nor localStorage is supported") ∧
      offline_notes w' = offline_notes w)).
Proof.
  assert (∀ w0, isIndexedDBSupported w0 = false →
    let r := (initLocalStorage w0).1 in
    let w' := (initLocalStorage w0).2 in
    isIndexedDBSupported w' = false ∧ db w' = db w0 ∧
    (Storage_defined w0 = true →
     r = Resolved tt ∧
     (∃ t, offline_notes w' = Some t ∧ text_truthy t = true) ∧
     getAllNotes w' =
       (match parsed_notes w0 with
        | Resolved v => Resolved v
        | Rejected _ =>
            Rejected (Error "Failed to get notes from localStorage")
        end, w')) ∧
    (Storage_defined w0 = false →
     r = Rejected
           (Error "Neither IndexedDB nor localStorage is supported") ∧
     offline_notes w' = offline_notes w0)) as Hfallback.
  { intros w0 Hb0 r w'.
    destruct (initLocalStorage_frame w0) as (Hb' & Hdb & _).
    fold w' in Hb', Hdb. rewrite Hb0 in Hb'.
    split; [done|]. split; [done|]. split.
    - intros Hs. split; [|split].
      + unfold r. by rewrite initLocalStorage_run, Hs.
      + unfold w'. rewrite initLocalStorage_run, Hs. simpl.
        destruct (offline_notes w0) as [t|] eqn:Ht; [|by eexists].
        destruct (text_truthy t) eqn:Htr; by eexists.
      + rewrite getAllNotes_fallback by done.
        unfold w'. by rewrite initLocalStorage_parsed.
    - intros Hs. unfold r, w'. by rewrite initLocalStorage_run, Hs. }
  assert (∀ w0, initLocalStorage w0
                = ((initLocalStorage w0).1, (initLocalStorage w0).2))
    as Hres by (intros w0; by destruct (initLocalStorage w0)).
  destruct (isIndexedDBSupported w) eqn:Hb.
  - destruct request as [|st|].
    + exists (initLocalStorage (set_isIndexedDBSupported false w)).1,
             (initLocalStorage (set_isIndexedDBSupported false w)).2.
      split; [|split; [by intros st _ [=]|intros _;
        by apply (Hfallback (set_isIndexedDBSupported false w))]].
      unfold init, initIndexedDB. unfold_async. rewrite Hb.
      cbn -[initLocalStorage]. apply Hres.
    + exists (Resolved tt), (set_db st w).
      split; [|split; [by intros st' _ [= <-]|]].
      * unfold init, initIndexedDB. unfold_async. rewrite Hb. simpl.
        by rewrite Hb.
      * intros [?|Hne]; [done|]. by destruct (Hne st).
    + exists (initLocalStorage (set_isIndexedDBSupported false w)).1,
             (initLocalStorage (set_isIndexedDBSupported false w)).2.
      split; [|split; [by intros st _ [=]|intros _;
        by apply (Hfallback (set_isIndexedDBSupported false w))]].
      unfold init, initIndexedDB. unfold_async. rewrite Hb.
      cbn -[initLocalStorage]. apply Hres.
  - exists (initLocalStorage w).1, (initLocalStorage w).2.
    split; [|split; [by intros st [=]|intros _; by apply Hfallback]].
    unfold init, initIndexedDB. unfold_async. rewrite Hb.
    cbn -[initLocalStorage]. rewrite Hb. apply Hres.
Qed.

(** ** Update, record by record *)

Section update_more.

Implicit Types (w : World) (v n id updates : JSValue) (o : Obj)
  (l notes : list JSValue).

Lemma insert_Permutation {A} (l : list A) (i : nat) (x y : A) :
  l !! i = Some x → <[i := y]> l ≡ₚ y :: base.delete i l.
Proof.
  revert i. induction l as [|z l IH]; intros [|i] Hi; simpl in *; try done.
  rewrite (IH i Hi). apply perm_swap.
Qed.

(** Replacing the record under a key replaces one element of [getAll]. *)
Lemma getAll_insert (m : gmap IDB.IDBKey JSValue) (k : IDB.IDBKey)
    (x y : JSValue) :
  m !! k = Some x →
  ∃ i, (map_to_list m).*2 !! i = Some x ∧
       (map_to_list (<[k := y]> m)).*2 ≡ₚ <[i := y]> (map_to_list m).*2.
Proof.
  intros Hk.
  assert (x ∈ (map_to_list m).*2) as [i Hi]%list_elem_of_lookup.
  { apply list_elem_of_fmap. exists (k, x). split; [done|].
    by apply elem_of_map_to_list. }
  exists i. split; [done|].
  rewrite (insert_Permutation _ _ _ _ Hi).
  rewrite <-insert_delete_eq.
  rewrite map_to_list_insert by apply lookup_delete_eq.
  rewrite fmap_cons. simpl. apply Permutation_skip.
  apply (Permutation_cons_inv (a := x)).
  rewrite <-(delete_Permutation _ _ _ Hi).
  rewrite <-(map_to_list_delete _ _ _ Hk). by rewrite fmap_cons.
Qed.

Lemma updated_note_keeps_id o id updates (now : N) :
  field "id" (VObj o) = id → keeps_id id updates = true →
  field "id" (updated_note (VObj o) updates now) = id.
Proof.
  intros Hid Hkeep. unfold keeps_id in Hkeep.
  destruct (own_props updates !! "id") as [x|] eqn:Hu.
  - apply strict_equal_eq in Hkeep as <-.
    unfold updated_note, field, spread.
    rewrite lookup_insert_ne by done.
    by rewrite (lookup_union_Some_l _ _ _ _ Hu).
  - rewrite <-Hid, !field_own_props by done.
    by rewrite updated_note_frame.
Qed.

Lemma forallb_insert (p : JSValue → bool) l (i : nat) (x : JSValue) :
  forallb p l = true → p x = true → forallb p (<[i := x]> l) = true.
Proof.
  revert i. induction l as [|y l IH]; intros i; simpl; [done|].
  intros [Hy Hl]%andb_true_iff Hx.
  destruct i; simpl; rewrite ?Hx, ?Hy; simpl; auto.
Qed.

End update_more.

(** X10: [updateNote] replaces one record and keeps every other. For a
    stored note and updates that leave its id alone, the call resolves, and
    the store then holds the notes it held with the updated note in the
    place of the note that [getNote] found: the same number of notes, every
    other note as it was (on the fallback backend in the same order). *)
Theorem updateNote_replaces_one (w : World) (id updates : JSValue) (o : Obj)
    (notes : list JSValue) :
  world_wf w →
  stored_notes w notes →
  getNote id w = (Resolved (VObj o), w) →
  keeps_id id updates = true →
  ∃ n w' notes' i,
    updateNote id updates w = (Resolved n, w') ∧
    stored_notes w' notes' ∧
    notes !! i = Some (VObj o) ∧
    notes' ≡ₚ <[i := as_stored w n]> notes ∧
    (isIndexedDBSupported w = false → notes' = <[i := as_stored w n]> notes).
Proof.
  intros Hwf Hst Hget Hkeep.
  destruct (getNote_found _ _ _ Hwf Hget) as [Hid Hwhere].
  set (now := clock w (clock_reads w)).
  pose proof (updated_note_keeps_id o id updates now Hid Hkeep) as Hnid.
  assert (∃ o', updated_note (VObj o) updates now = VObj o') as [o' Ho']
    by (unfold updated_note; eauto).
  rewrite Ho' in Hnid.
  rewrite (updateNote_run _ _ _ _ Hget eq_refl). cbv zeta. fold now.
  rewrite Ho'. unfold as_stored.
  destruct (isIndexedDBSupported w) eqn:Hb.
  - destruct Hwhere as (k & Hk & Hrec).
    assert (IDB.eval_key_path "id" (VObj o') = Some k) as Hkey.
    { unfold field in Hnid. unfold IDB.eval_key_path.
      destruct (o' !! "id") as [x|]; simpl in Hnid;
        rewrite <-Hnid in Hk; [exact Hk|by simpl in Hk]. }
    destruct (getAll_insert _ _ _ (VObj o') Hrec) as (i & Hi & Hperm).
    rewrite updateNoteIndexedDB_run. change (db (tick w)) with (db w).
    unfold IDB.put. rewrite Hkey.
    set (st := {| IDB.records := _ |}).
    assert (IDB.store_wf st) as Hwf'.
    { apply (put_wf (VObj o') (db w)); [auto|].
      unfold IDB.put. by rewrite Hkey. }
    destruct Hst as [Hall _]. rewrite getAllNotes_primary in Hall by done.
    injection Hall as <-.
    exists (VObj o'), (set_db st (tick w)), (IDB.getAll st), i.
    split; [done|]. split.
    { apply (stored_notes_primary (set_db st (tick w))); [done|by intros _]. }
    split; [done|]. split; [exact Hperm|done].
  - destruct Hwhere as (l & i & Hl & Hfirst).
    pose proof (stored_notes_fallback _ _ Hb Hst) as Hp.
    assert (l = notes) as -> by congruence.
    pose proof (stored_notes_norm _ _ Hb Hst) as Hnorm.
    rewrite (updateNoteLocalStorage_first o' (tick w) notes i (VObj o));
      [|done|by rewrite Hnid].
    set (w' := set_offline_notes _ _).
    assert (map json_norm (<[i := VObj o']> notes)
            = <[i := json_norm (VObj o')]> notes) as Hmap.
    { rewrite <-Hnorm at 2. apply (list_fmap_insert json_norm). }
    exists (VObj o'), w', (<[i := json_norm (VObj o')]> notes), i.
    split; [done|]. split.
    { split.
      - rewrite getAllNotes_fallback by done. unfold w'.
        rewrite parsed_notes_set by done. cbn [JSON_parse json_norm].
        by rewrite Hmap.
      - apply forallb_insert; [by destruct Hst|done]. }
    split; [by destruct Hfirst|]. done.
Qed.

Lemma updateNote_replaces_one_witness :
  ∃ n w' notes' i,
    updateNote (VStr "note_2") (VObj {[ "title" := VStr "Plan B" ]})
      sample_fallback = (Resolved n, w') ∧
    stored_notes w' notes' ∧
    sample_notes !! i
    = Some (sample_note "note_2" "Sprint plan" "work" ["planning"]
              1600000100000 1600000200000) ∧
    notes' ≡ₚ <[i := as_stored sample_fallback n]> sample_notes ∧
    (isIndexedDBSupported sample_fallback = false →
     notes' = <[i := as_stored sample_fallback n]> sample_notes).
Proof.
  apply (updateNote_replaces_one sample_fallback (VStr "note_2")).
  - intros Hb. discriminate Hb.
  - split; reflexivity.
  - reflexivity.
  - reflexivity.
Defined.

(** X11: on the primary backend [updateNote] files the note it built under
    the id that note carries. With updates that carry another text id, the
    call resolves, the note stored under the id given is left as it was,
    not even restamped, and the merged note is stored under the other id,
    in the place of whatever was stored there. *)
Theorem updateNote_other_id_primary (w : World) (id id2 : string)
    (updates : JSValue) (o : Obj) :
  isIndexedDBSupported w = true →
  getNote (VStr id) w = (Resolved (VObj o), w) →
  own_props updates !! "id" = Some (VStr id2) →
  id2 ≠ id →
  ∃ n w', updateNote (VStr id) updates w = (Resolved n, w') ∧
          getNote (VStr id) w' = (Resolved (VObj o), w') ∧
          getNote (VStr id2) w' = (Resolved n, w').
Proof.
  intros Hb Hget Hu Hne.
  rewrite (updateNote_run _ _ _ _ Hget eq_refl). cbv zeta. rewrite Hb.
  rewrite getNote_primary in Hget by done. simpl in Hget.
  destruct (IDB.records (db w) !! IDB.KStr id) as [x|] eqn:Hx; [|done].
  simpl in Hget. injection Hget as ->.
  set (n := updated_note _ _ _).
  assert (field "id" n = VStr id2) as Hid.
  { unfold n, updated_note, field, spread.
    rewrite lookup_insert_ne by done.
    by rewrite (lookup_union_Some_l _ _ _ _ Hu). }
  rewrite updateNoteIndexedDB_run. change (db (tick w)) with (db w).
  unfold IDB.put. rewrite (eval_key_path_field _ _ _ Hid).
  eexists _, _. split; [done|].
  rewrite !getNote_primary by done. simpl.
  rewrite lookup_insert_ne by congruence. rewrite Hx.
  by rewrite lookup_insert_eq.
Qed.

Lemma updateNote_other_id_primary_witness :
  ∃ n w', updateNote (VStr "note_1") (VObj {[ "id" := VStr "note_3" ]})
            sample_primary = (Resolved n, w') ∧
          getNote (VStr "note_1") w'
          = (Resolved (sample_note "note_1" "Groceries" "home"
                         ["Food"; "list"] 1600000000000 1600000000000), w') ∧
          getNote (VStr "note_3") w' = (Resolved n, w').
Proof.
  apply (updateNote_other_id_primary sample_primary "note_1" "note_3").
  - reflexivity.
  - reflexivity.
  - reflexivity.
  - discriminate.
Defined.

(** ** Search, ids, reads *)

Section search_more.

Implicit Types (w : World) (n : JSValue) (notes : list JSValue).

Lemma includes_empty (s : string) : includes s "" = true.
Proof. apply includes_spec. exists "", s. by destruct s. Qed.

Lemma search_keep_empty n : well_typed n = true → search_keep "" n = true.
Proof.
  unfold well_typed, search_keep.
  destruct (field "title" n) as [| | | |title| |]; try done.
  destruct (field "content" n) as [| | | |content| |]; try done.
  destruct (field "tags" n) as [| | | | |tags|]; try done.
  by rewrite includes_empty.
Qed.

(** Whatever goes wrong in the filter of [searchNotes] is a [TypeError]. *)
Lemma search_match_error (term : string) n (e : JSError) :
  search_match term n = Rejected e → e = TypeError.
Proof.
  unfold search_match.
  destruct (get_prop n "title") as [title|e1] eqn:Ht; cbn;
    [|destruct n; simplify_eq/=; congruence].
  destruct (call_toLowerCase title) as [tl|e2] eqn:Htl; cbn;
    [|destruct title; simplify_eq/=; congruence].
  destruct (includes tl term); [done|].
  destruct (get_prop n "content") as [content|e3] eqn:Hc; cbn;
    [|destruct n; simplify_eq/=; congruence].
  destruct (call_toLowerCase content) as [cl|e4] eqn:Hcl; cbn;
    [|destruct content; simplify_eq/=; congruence].
  destruct (includes cl term); [done|].
  destruct (get_prop n "tags") as [tags|e5] eqn:Hg; cbn;
    [|destruct n; simplify_eq/=; congruence].
  unfold array_some. destruct (as_array tags) as [l|e6] eqn:Hl; cbn;
    [|destruct tags; simplify_eq/=; congruence].
  clear. induction l as [|tag l IH]; cbn; [done|].
  destruct (call_toLowerCase tag) as [g|e7] eqn:Hg; cbn;
    [|destruct tag; simplify_eq/=; congruence].
  by destruct (includes g term).
Qed.

Lemma filter_from_rejects (p : JSValue → Outcome bool) notes n (e : JSError) :
  (∀ x e', p x = Rejected e' → e' = e) →
  n ∈ notes → p n = Rejected e → filter_from p notes = Rejected e.
Proof.
  intros Herr Hn Hp. induction notes as [|x notes IH]; [by inversion Hn|].
  simpl. destruct (p x) as [b|e'] eqn:Hx; cbn.
  - apply elem_of_cons in Hn as [->|Hn]; [congruence|].
    by rewrite IH.
  - f_equal. by eapply Herr.
Qed.

End search_more.

(** X12: the empty query finds everything: on a store of well-typed notes
    [searchNotes ""] resolves with all the notes, in their order. *)
Theorem searchNotes_empty_query (w : World) (notes : list JSValue) :
  stored_notes w notes →
  forallb well_typed notes = true →
  searchNotes (VStr "") w = (Resolved (VArr notes), w).
Proof.
  intros [Hall Hobj] Hty. rewrite forallb_forall in Hobj, Hty.
  unfold searchNotes. unfold_async. rewrite Hall. cbn.
  rewrite (filter_from_total _ (search_keep "")).
  - rewrite filter_all; [done|]. apply forallb_forall.
    intros n Hn. apply search_keep_empty; auto.
  - apply Forall_forall. intros n Hn%list_elem_of_In.
    apply search_match_total; auto.
Qed.

Lemma searchNotes_empty_query_witness :
  searchNotes (VStr "") sample_fallback
  = (Resolved (VArr sample_notes), sample_fallback).
Proof.
  apply (searchNotes_empty_query sample_fallback sample_notes).
  - split; reflexivity.
  - reflexivity.
Defined.

(** X13: [searchNotes] validates no note. One stored note whose title is
    not a text (as [createNote] stores it when given such a title) makes
    every search reject with a [TypeError], whatever the query and whatever
    the other notes hold. *)
Theorem searchNotes_untyped_title_rejects (w : World) (notes : list JSValue)
    (n : JSValue) (q : string) :
  stored_notes w notes →
  n ∈ notes →
  is_text (field "title" n) = false →
  searchNotes (VStr q) w = (Rejected TypeError, w).
Proof.
  intros [Hall Hobj] Hn Htitle. rewrite forallb_forall in Hobj.
  unfold searchNotes. unfold_async. rewrite Hall. cbn.
  rewrite (filter_from_rejects _ notes n TypeError); [done| |done|].
  - intros x e. apply search_match_error.
  - unfold search_match. rewrite !get_prop_object
      by (by apply Hobj, list_elem_of_In).
    by destruct (field "title" n).
Qed.

Lemma searchNotes_untyped_title_rejects_witness :
  let w := after (createNote (VObj {[ "title" := VNum 42 ]})) sample_fallback in
  let n := new_note (VObj {[ "title" := VNum 42 ]}) sample_fallback in
  searchNotes (VStr "plan") w = (Rejected TypeError, w).
Proof.
  intros w n.
  apply (searchNotes_untyped_title_rejects w (sample_notes ++ [n])%list n).
  - split; reflexivity.
  - apply elem_of_app. right. apply list_elem_of_singleton. reflexivity.
  - reflexivity.
Defined.

Section ids_more.

Lemma generateId_run (w : World) :
  generateId w
  = (Resolved (make_id (clock w (clock_reads w)) (random w (random_draws w))),
     draw (tick w)).
Proof. done. Qed.

End ids_more.

(** X14: what [generateId] returns is determined by, and determines, the
    millisecond read from the clock and the nine characters taken from the
    random text: two calls return the same id exactly when they agree on
    both. In particular two calls that read different milliseconds return
    different ids, whatever the random generator yields. *)
Theorem generateId_same_iff (w1 w2 : World) :
  (generateId w1).1 = (generateId w2).1 ↔
  clock w1 (clock_reads w1) = clock w2 (clock_reads w2) ∧
  substr (random w1 (random_draws w1)) 2 9
  = substr (random w2 (random_draws w2)) 2 9.
Proof.
  rewrite !generateId_run. cbn [fst]. split.
  - intros Heq.
    assert (make_id (clock w1 (clock_reads w1)) (random w1 (random_draws w1))
            = make_id (clock w2 (clock_reads w2))
                (random w2 (random_draws w2))) as Hid by congruence.
    apply make_id_inj in Hid. by injection Hid.
  - intros [Hc Hr]. unfold make_id. by rewrite Hc, Hr.
Qed.

(** X15: the read operations write nothing: whatever they return,
    rejections included, [getAllNotes], [getNote], [searchNotes] and
    [getNotesByFolder] leave the browser state as it is, and [exportData]
    leaves the object store and the text under the notes key as they
    are. *)
Theorem reads_write_nothing (w : World) (id query folder : JSValue) :
  (getAllNotes w).2 = w ∧
  (getNote id w).2 = w ∧
  (searchNotes query w).2 = w ∧
  (getNotesByFolder folder w).2 = w ∧
  db (exportData w).2 = db w ∧
  offline_notes (exportData w).2 = offline_notes w.
Proof.
  pose proof (getAllNotes_world w) as Hall.
  split; [done|]. split; [apply getNote_world|]. split; [|split].
  - unfold searchNotes. unfold_async.
    destruct (getAllNotes w) as [[notes|e] w0]; simpl in *; subst; [|done].
    destruct (call_toLowerCase query); [|done].
    by destruct (array_filter _ notes).
  - destruct (isIndexedDBSupported w) eqn:Hb.
    + rewrite getNotesByFolder_primary by done.
      by destruct (IDB.index_getAll folder (db w)).
    + unfold getNotesByFolder. unfold_async. rewrite Hb.
      by destruct (getAllNotes w) as [[notes|e] w0]; simpl in *; subst.
  - unfold exportData, new_Date_toISOString, Date_now. unfold_async.
    by destruct (getAllNotes w) as [[notes|e] w0]; simpl in *; subst.
Qed.

(** ** Import *)

Section import_more.

Implicit Types (w : World) (v n : JSValue) (l : list JSValue)
  (ids : list string).

Lemma for_of_app (body : JSValue → Async JSValue) l1 l2 w :
  for_of body (l1 ++ l2)%list w =
    match for_of body l1 w with
    | (Resolved _, w1) => for_of body l2 w1
    | (Rejected e, w1) => (Rejected e, w1)
    end.
Proof.
  revert w. induction l1 as [|x l1 IH]; intros w; simpl; [done|].
  unfold bind. destruct (body x w) as [[r|e] w1]; [apply IH|done].
Qed.

(** The notes with their keys, when their ids are the texts [ids]. *)
Lemma text_ids_keyed l ids :
  text_ids l = Some ids →
  ∃ kvs : list (IDB.IDBKey * JSValue),
    kvs.*1 = IDB.KStr <$> ids ∧ kvs.*2 = l ∧
    ∀ k v, (k, v) ∈ kvs → IDB.eval_key_path "id" v = Some k.
Proof.
  unfold text_ids. intros Hids%mapM_Some.
  induction Hids as [|x s l ids Hx _ (kvs & H1 & H2 & Hkeys)].
  { exists []. split; [done|]. split; [done|].
    intros k v Hin. by inversion Hin. }
  destruct (field "id" x) as [| | | |s'| |] eqn:Hid; try done.
  injection Hx as ->.
  exists ((IDB.KStr s, x) :: kvs). rewrite !fmap_cons, H1, H2.
  split; [done|]. split; [done|]. intros k v [[= -> ->]|Hin]%elem_of_cons.
  - by apply eval_key_path_field.
  - by apply Hkeys.
Qed.

Lemma NoDup_keys ids : NoDup ids → NoDup (IDB.KStr <$> ids).
Proof. apply NoDup_fmap_2. by intros ?? [= ->]. Qed.

(** Importing, on the primary backend, complete notes of distinct text
    ids into a consistent store that has none of these ids: all are added. *)
Lemma for_of_createNote_text_ids l ids w :
  isIndexedDBSupported w = true →
  db w = IDB.empty_store →
  text_ids l = Some ids → NoDup ids →
  forallb has_all_fields l = true →
  ∃ w' kvs, for_of createNote l w = (Resolved tt, w') ∧
            isIndexedDBSupported w' = true ∧
            IDB.store_wf (db w') ∧
            kvs.*1 = IDB.KStr <$> ids ∧ kvs.*2 = l ∧
            IDB.records (db w') = list_to_map kvs ∧
            IDB.getAll (db w') ≡ₚ l.
Proof.
  intros Hb Hempty Hids Hnd Hall.
  destruct (text_ids_keyed _ _ Hids) as (kvs & H1 & H2 & Hkeys).
  assert (NoDup kvs.*1) as Hnd' by (rewrite H1; by apply NoDup_keys).
  destruct (for_of_createNote_primary kvs w) as (w' & Hrun & Hb' & Hwf' & Hrec);
    auto.
  { rewrite Hempty. apply empty_store_wf. }
  { intros k v Hin. split; [by apply Hkeys|]. split.
    - rewrite forallb_forall in Hall. apply Hall, list_elem_of_In.
      rewrite <-H2. apply list_elem_of_fmap. by exists (k, v).
    - by rewrite Hempty. }
  rewrite H2 in Hrun. rewrite Hempty in Hrec. simpl in Hrec.
  rewrite (right_id_L ∅ (∪)) in Hrec.
  exists w', kvs. repeat (split; [done|]).
  unfold IDB.getAll. rewrite Hrec, <-H2.
  by rewrite map_to_list_to_map.
Qed.

End import_more.

(** X16: [importData] replaces, it does not merge. For a bundle of complete
    notes (on the primary backend: of pairwise distinct text ids), whatever
    the store held before, the call resolves with the number of notes of the
    bundle and the store then holds exactly these notes, each as the
    backend holds it (on the fallback backend in the order of the
    bundle). *)
Theorem importData_replaces (w : World) (data : JSValue)
    (l : list JSValue) (ids : list string) :
  get_prop data "notes" = Resolved (VArr l) →
  forallb has_all_fields l = true →
  (isIndexedDBSupported w = true → text_ids l = Some ids ∧ NoDup ids) →
  ∃ w' notes',
    importData data w = (Resolved (VNum (Z.of_nat (length l))), w') ∧
    stored_notes w' notes' ∧
    notes' ≡ₚ as_stored w <$> l ∧
    (isIndexedDBSupported w = false → notes' = as_stored w <$> l).
Proof.
  intros Hnotes Hall Hkeys. rewrite (importData_run _ l) by done.
  rewrite clearAllData_run. cbn [snd]. unfold as_stored.
  destruct (isIndexedDBSupported w) eqn:Hb.
  - destruct (Hkeys eq_refl) as [Hids Hnd].
    destruct (for_of_createNote_text_ids l ids (set_db IDB.empty_store w))
      as (w' & kvs & Hrun & Hb' & Hwf' & _ & _ & _ & Hperm); auto.
    rewrite Hrun. exists w', (IDB.getAll (db w')).
    split; [done|]. split.
    { apply stored_notes_primary; [done|by intros _]. }
    split; [|done]. by rewrite list_fmap_id.
  - destruct (for_of_createNote_fallback l
                (set_offline_notes (Stringified (VArr [])) w) [])
      as (w' & Hrun & Hb' & Hp); auto.
    rewrite Hrun. simpl in Hp.
    exists w', (json_norm <$> l). split; [done|]. split; [|done].
    split; [by rewrite getAllNotes_fallback, Hp|].
    rewrite forallb_forall in Hall. apply forallb_forall.
    intros x [y [<- Hy]]%in_map_iff.
    specialize (Hall y Hy). by destruct y.
Qed.

Lemma importData_replaces_witness :
  ∃ w' notes',
    importData (VObj {[ "notes" := VArr (take 2 sample_notes) ]})
      sample_primary = (Resolved (VNum 2), w') ∧
    stored_notes w' notes' ∧
    notes' ≡ₚ as_stored sample_primary <$> take 2 sample_notes ∧
    (isIndexedDBSupported sample_primary = false →
     notes' = as_stored sample_primary <$> take 2 sample_notes).
Proof.
  apply (importData_replaces sample_primary
           (VObj {[ "notes" := VArr (take 2 sample_notes) ]})
           (take 2 sample_notes) ["note_1"; "note_2"]).
  - reflexivity.
  - reflexivity.
  - intros _. split; [reflexivity|].
    apply (bool_decide_unpack _). vm_compute. reflexivity.
Defined.

(** X17: [importData] is not atomic. On the primary backend, when a note of
    the bundle repeats the text id of an earlier note of the bundle, the
    call rejects with 'Failed to create note' at that note; the notes the
    store held before are gone, and the store holds the notes of the bundle
    that precede the repeated one. *)
Theorem importData_duplicate_id_loses_data (w : World) (data : JSValue)
    (l1 l2 : list JSValue) (v : JSValue) (ids : list string) (id : string) :
  isIndexedDBSupported w = true →
  get_prop data "notes" = Resolved (VArr (l1 ++ v :: l2)%list) →
  forallb has_all_fields (l1 ++ [v])%list = true →
  text_ids l1 = Some ids →
  NoDup ids →
  field "id" v = VStr id →
  id ∈ ids →
  ∃ w' notes',
    importData data w = (Rejected (Error "Failed to create note"), w') ∧
    stored_notes w' notes' ∧
    notes' ≡ₚ l1.
Proof.
  intros Hb Hnotes Hall Hids Hnd Hid Hin.
  rewrite forallb_app in Hall. apply andb_true_iff in Hall as [Hall1 Hv].
  simpl in Hv. rewrite andb_true_r in Hv.
  rewrite (importData_run _ (l1 ++ v :: l2)%list) by done.
  rewrite clearAllData_run. cbn [snd]. rewrite Hb, for_of_app.
  destruct (for_of_createNote_text_ids l1 ids (set_db IDB.empty_store w))
    as (w1 & kvs & Hrun & Hb1 & Hwf1 & H1 & H2 & Hrec & Hperm); auto.
  rewrite Hrun. cbn [for_of]. unfold bind.
  assert (is_Some (IDB.records (db w1) !! IDB.KStr id)) as [x Hx].
  { rewrite Hrec. apply elem_of_dom. rewrite dom_list_to_map_L.
    apply elem_of_list_to_set. rewrite H1.
    apply list_elem_of_fmap. by exists id. }
  rewrite createNote_run, Hb1 by (by apply has_all_fields_not_nullish).
  rewrite createNoteIndexedDB_run, (new_note_full _ _ Hv).
  change (db (stamped w1)) with (db w1).
  unfold IDB.add. rewrite (eval_key_path_field _ _ _ Hid), Hx.
  exists (stamped w1), (IDB.getAll (db w1)). split; [done|]. split; [|done].
  apply (stored_notes_primary (stamped w1)); [done|by intros _].
Qed.

Lemma importData_duplicate_id_loses_data_witness :
  let first := take 1 sample_notes in
  let again := sample_note "note_1" "Copy" "home" [] 1600000000000
                 1600000000000 in
  ∃ w' notes',
    importData (VObj {[ "notes" := VArr (first ++ [again])%list ]})
      sample_primary
    = (Rejected (Error "Failed to create note"), w') ∧
    stored_notes w' notes' ∧
    notes' ≡ₚ first.
Proof.
  intros first again.
  apply (importData_duplicate_id_loses_data sample_primary
           (VObj {[ "notes" := VArr (first ++ [again])%list ]})
           first [] again ["note_1"] "note_1").
  - reflexivity.
  - reflexivity.
  - reflexivity.
  - reflexivity.
  - apply (bool_decide_unpack _). vm_compute. reflexivity.
  - reflexivity.
  - apply (bool_decide_unpack _). vm_compute. reflexivity.
Defined.

(** ** Storage statistics *)

Section stats.

Context (p : Platform).

Implicit Types (w : World) (n : JSValue) (notes : list JSValue).

Lemma map_from_total {A} (f : JSValue → Outcome A) (g : JSValue → A) notes :
  Forall (λ x, f x = Resolved (g x)) notes →
  map_from f notes = Resolved (g <$> notes).
Proof.
  induction 1 as [|x l Hx _ IH]; simpl; [done|]. by rewrite Hx, IH.
Qed.

(** On a store of note objects [getStorageStats] resolves, with the
    times of the notes read off their [updatedAt]. *)
Lemma getStorageStats_run w notes :
  stored_notes w notes →
  getStorageStats p w =
    (Resolved
       {| totalNotes := VNum (Z.of_nat (length notes));
          totalSize := text_length p (JSON_stringify (VArr notes));
          storageType :=
            if isIndexedDBSupported w then "IndexedDB" else "localStorage";
          lastUpdated :=
            match notes with
            | [] => None
            | _ =>
                Some (Math_max
                        ((λ n, Date_getTime p (field "updatedAt" n))
                           <$> notes))
            end |}, w).
Proof.
  intros [Hall Hobj]. unfold getStorageStats. unfold_async. rewrite Hall.
  cbn -[Math_max Date_getTime].
  destruct notes as [|n notes]; [done|].
  replace (0 <? Z.of_nat (length (n :: notes)))%Z with true
    by (symmetry; apply Z.ltb_lt; simpl; lia).
  rewrite (map_from_total _ (λ n, Date_getTime p (field "updatedAt" n))).
  { done. }
  rewrite forallb_forall in Hobj. apply Forall_forall.
  intros x Hx%list_elem_of_In. by rewrite get_prop_object by auto.
Qed.

Lemma Math_max_finite (ts : list N) :
  ts ≠ [] →
  ∃ t, Math_max ((λ t, Finite (Z.of_N t)) <$> ts) = Finite (Z.of_N t) ∧
       t ∈ ts ∧ ∀ t', t' ∈ ts → (t' ≤ t)%N.
Proof.
  induction ts as [|a ts IH]; [done|]. intros _.
  destruct ts as [|b ts].
  { exists a. split; [done|]. split; [by left|].
    intros t' ->%list_elem_of_singleton. lia. }
  destruct IH as (t & Hmax & Hin & Hle); [done|].
  change (Math_max ((λ t, Finite (Z.of_N t)) <$> a :: b :: ts))
    with (num_max (Finite (Z.of_N a))
            (Math_max ((λ t, Finite (Z.of_N t)) <$> b :: ts))).
  rewrite Hmax. simpl.
  destruct (N.le_ge_cases a t) as [Hat|Hta].
  - exists t. split; [f_equal; lia|]. split; [by right|].
    intros t' [->|H]%elem_of_cons; auto.
  - exists a. split; [f_equal; lia|]. split; [by left|].
    intros t' [->|H]%elem_of_cons; [lia|].
    specialize (Hle t' H). lia.
Qed.

End stats.

(** X18: [getStorageStats] reads, it writes nothing. On a store of note
    objects it resolves, whatever the platform's conversions: [totalNotes]
    is the number of notes [getAllNotes] returns, [storageType] names the
    backend in use, and [lastUpdated] is null exactly when there is no
    note. *)
Theorem getStorageStats_counts (p : Platform) (w : World)
    (notes : list JSValue) :
  stored_notes w notes →
  ∃ stats,
    getStorageStats p w = (Resolved stats, w) ∧
    totalNotes stats = VNum (Z.of_nat (length notes)) ∧
    storageType stats
    = (if isIndexedDBSupported w then "IndexedDB" else "localStorage") ∧
    (lastUpdated stats = None ↔ notes = []).
Proof.
  intros Hst. eexists. split; [by apply getStorageStats_run|].
  split; [done|]. split; [done|]. simpl. by destruct notes.
Qed.

Lemma getStorageStats_counts_witness :
  ∃ stats,
    getStorageStats sample_platform sample_fallback
    = (Resolved stats, sample_fallback) ∧
    totalNotes stats = VNum 3 ∧
    storageType stats = "localStorage" ∧
    (lastUpdated stats = None ↔ sample_notes = []).
Proof.
  apply (getStorageStats_counts sample_platform sample_fallback sample_notes).
  split; reflexivity.
Defined.

(** X19: [lastUpdated] is the time of the latest update. On a store of
    notes whose [updatedAt] are stamps as [createNote] and [updateNote]
    write them ([toISOString] of a time value, up to the end of the year
    9999), [getStorageStats] resolves with the greatest of these time
    values as [lastUpdated], whatever the platform does with other
    texts. *)
Theorem getStorageStats_lastUpdated (p : Platform) (w : World)
    (notes : list JSValue) (stamps : list N) :
  stored_notes w notes →
  notes ≠ [] →
  Forall2 (λ n t, field "updatedAt" n = VStr (toISOString t)
                  ∧ (t < 253402300800000)%N) notes stamps →
  ∃ stats t,
    getStorageStats p w = (Resolved stats, w) ∧
    lastUpdated stats = Some (Finite (Z.of_N t)) ∧
    t ∈ stamps ∧
    ∀ t', t' ∈ stamps → (t' ≤ t)%N.
Proof.
  intros Hst Hne Hstamps.
  assert ((λ n, Date_getTime p (field "updatedAt" n)) <$> notes
          = (λ t, Finite (Z.of_N t)) <$> stamps) as Htimes.
  { clear Hst Hne.
    induction Hstamps as [|n t notes' stamps' [Hn Ht] _ IH]; [done|].
    rewrite !fmap_cons. f_equal; [|done].
    rewrite Hn. simpl. by rewrite parse_iso_toISOString. }
  destruct (Math_max_finite stamps) as (t & Hmax & Hin & Hle).
  { intros ->. inversion Hstamps. by subst. }
  eexists _, t. split; [by apply getStorageStats_run|].
  split; [|by split]. simpl. destruct notes; [done|].
  by rewrite Htimes, Hmax.
Qed.

Lemma getStorageStats_lastUpdated_witness :
  ∃ stats t,
    getStorageStats sample_platform sample_fallback
    = (Resolved stats, sample_fallback) ∧
    lastUpdated stats = Some (Finite (Z.of_N t)) ∧
    t ∈ [1600000000000; 1600000200000; 1600000300000]%N ∧
    ∀ t', t' ∈ [1600000000000; 1600000200000; 1600000300000]%N →
          (t' ≤ t)%N.
Proof.
  apply (getStorageStats_lastUpdated sample_platform sample_fallback
           sample_notes).
  - split; reflexivity.
  - discriminate.
  - repeat (constructor; [split; reflexivity|]). constructor.
Defined.

(** ** Tags and folder names *)

Section tags.

Implicit Types (s tag : string) (c : ascii) (tags : list string).

Lemma split_cons sep s : ∃ piece pieces, split_on sep s = piece :: pieces.
Proof.
  destruct s as [|c s]; simpl; [eauto|].
  destruct (Ascii.eqb c sep); [eauto|]. destruct (split_on sep s); eauto.
Qed.

Lemma split_no_sep sep s piece :
  piece ∈ split_on sep s → has_char sep piece = false.
Proof.
  revert piece. induction s as [|c s IH]; intros piece; simpl.
  { by intros ->%list_elem_of_singleton. }
  destruct (Ascii.eqb c sep) eqn:Hc.
  - intros [->|H]%elem_of_cons; [done|auto].
  - destruct (split_on sep s) as [|p ps] eqn:Hs.
    + intros ->%list_elem_of_singleton. simpl. by rewrite Hc.
    + intros [->|H]%elem_of_cons.
      * simpl. rewrite Hc. apply IH. by left.
      * apply IH. by right.
Qed.

Lemma trimStart_has_char c s :
  has_char c s = false → has_char c (trimStart s) = false.
Proof.
  induction s as [|c' s IH]; simpl; [done|].
  intros [H1 H2]%orb_false_elim.
  destruct (is_white_space c'); [auto|]. simpl. by rewrite H1.
Qed.

Lemma trimEnd_has_char c s :
  has_char c s = false → has_char c (trimEnd s) = false.
Proof.
  induction s as [|c' s IH]; simpl; [done|].
  intros [H1 H2]%orb_false_elim. specialize (IH H2).
  destruct (trimEnd s) as [|c'' r].
  - destruct (is_white_space c'); [done|]. simpl. by rewrite H1.
  - simpl in *. by rewrite H1.
Qed.

Lemma trimStart_idemp s : trimStart (trimStart s) = trimStart s.
Proof.
  induction s as [|c s IH]; simpl; [done|].
  destruct (is_white_space c) eqn:Hc; [done|]. simpl. by rewrite Hc.
Qed.

Lemma trimEnd_idemp s : trimEnd (trimEnd s) = trimEnd s.
Proof.
  induction s as [|c s IH]; simpl; [done|].
  destruct (trimEnd s) as [|c' r] eqn:Hs.
  - destruct (is_white_space c) eqn:Hc; [done|]. simpl. by rewrite Hc.
  - change (trimEnd (String c (String c' r)))
      with (match trimEnd (String c' r) with
            | EmptyString =>
                if is_white_space c then EmptyString else String c EmptyString
            | rest => String c rest
            end).
    by rewrite IH.
Qed.

(** Trimming the end of a text whose start is trimmed leaves the start
    trimmed. *)
Lemma trimStart_trimEnd s :
  trimStart s = s → trimStart (trimEnd s) = trimEnd s.
Proof.
  destruct s as [|c s]; [done|]. simpl.
  destruct (is_white_space c) eqn:Hc.
  - intros Hs. exfalso.
    assert (String.length (trimStart s) ≤ String.length s)%nat as Hlen.
    { clear. induction s as [|c s IH]; simpl; [done|].
      destruct (is_white_space c); simpl; lia. }
    rewrite Hs in Hlen. simpl in Hlen. lia.
  - intros _. destruct (trimEnd s); simpl; by rewrite Hc.
Qed.

Lemma trim_idemp s : trim (trim s) = trim s.
Proof.
  unfold trim. rewrite trimStart_trimEnd by apply trimStart_idemp.
  apply trimEnd_idemp.
Qed.

Lemma trim_has_char c s : has_char c s = false → has_char c (trim s) = false.
Proof. intros H. by apply trimEnd_has_char, trimStart_has_char. Qed.

Lemma trim_space s : trim (String " " s) = trim s.
Proof. done. Qed.

Lemma split_none sep s : has_char sep s = false → split_on sep s = [s].
Proof.
  induction s as [|c s IH]; simpl; [done|].
  intros [H1 H2]%orb_false_elim. by rewrite H1, IH.
Qed.

Lemma split_app sep s rest :
  has_char sep s = false →
  split_on sep (s +:+ String sep rest) = s :: split_on sep rest.
Proof.
  induction s as [|c s IH]; intros Hs.
  { rewrite append_nil. simpl. by rewrite Ascii.eqb_refl. }
  simpl in Hs. apply orb_false_elim in Hs as [H1 H2].
  rewrite append_cons. simpl. by rewrite H1, IH.
Qed.

Lemma filter_nonempty_clean tags :
  Forall clean_tag tags →
  List.filter (λ tag, (0 <? String.length tag)%nat) tags = tags.
Proof.
  induction 1 as [|tag tags [Hne _] _ IH]; simpl; [done|].
  rewrite IH. by destruct tag.
Qed.

(** The pieces of the joined tags: the first tag, and every other tag
    after a space. *)
Lemma split_join tags tag :
  Forall clean_tag (tag :: tags) →
  split_on "," (join_tags (tag :: tags)) = tag :: (String " " <$> tags).
Proof.
  revert tag. induction tags as [|tag' tags IH]; intros tag Hclean.
  { apply Forall_cons in Hclean as [(_ & Hcomma & _) _].
    by apply split_none. }
  apply Forall_cons in Hclean as [(_ & Hcomma & _) Hclean].
  change (join_tags (tag :: tag' :: tags))
    with (tag +:+ ", " +:+ join_tags (tag' :: tags)).
  rewrite append_cons, split_app by done.
  f_equal. rewrite append_cons, append_nil.
  assert (has_char "," (String " " tag') = false) as Hsp.
  { apply Forall_cons in Hclean as [(_ & H & _) _]. done. }
  specialize (IH tag' Hclean).
  destruct (split_cons "," (join_tags (tag' :: tags))) as (p & ps & Hs).
  simpl. rewrite Hs in *. by simplify_eq.
Qed.

End tags.

Section tags_clean.

Lemma parseTags_Forall_clean (tagsString : string) :
  Forall clean_tag (parseTags tagsString).
Proof.
  apply Forall_forall. intros tag.
  unfold parseTags. rewrite list_elem_of_In, filter_In, in_map_iff.
  intros [(piece & <- & Hpiece%list_elem_of_In) Hlen]. split; [|split].
  - intros Heq. by rewrite Heq in Hlen.
  - by eapply trim_has_char, split_no_sep.
  - apply trim_idemp.
Qed.

Lemma parseTags_round (tags : list string) :
  Forall clean_tag tags → parseTags (join_tags tags) = tags.
Proof.
  destruct tags as [|tag l]; intros Hclean; [done|].
  unfold parseTags. rewrite split_join by done.
  apply Forall_cons in Hclean as Hcl. destruct Hcl as [(_ & _ & Htag) Hl].
  rewrite map_cons, Htag.
  assert (map trim (String " " <$> l) = l) as ->.
  { clear -Hl. induction Hl as [|x l (_ & _ & Hx) _ IH]; [done|].
    rewrite fmap_cons, map_cons, trim_space, Hx. by f_equal. }
  by apply filter_nonempty_clean.
Qed.

End tags_clean.

(** X20: [parseTags] yields clean tags only. Whatever the text typed,
    the tags of the result are the pieces of the text between the commas,
    with the white space at their ends taken off, that are not empty; each
    holds no comma, and trimming it again changes nothing. *)
Theorem parseTags_clean (tagsString tag : string) :
  (tag ∈ parseTags tagsString ↔
   tag ≠ "" ∧
   ∃ piece, piece ∈ split_on "," tagsString ∧ tag = trim piece) ∧
  (tag ∈ parseTags tagsString → clean_tag tag).
Proof.
  split; [split|].
  - unfold parseTags. rewrite list_elem_of_In, filter_In, in_map_iff.
    intros [(piece & <- & Hpiece%list_elem_of_In) Hlen].
    split; [|eauto]. intros Heq. by rewrite Heq in Hlen.
  - intros (Hne & piece & Hpiece & ->). unfold parseTags.
    rewrite list_elem_of_In, filter_In, in_map_iff. split.
    + exists piece. by rewrite <-list_elem_of_In.
    + by destruct (trim piece).
  - intros Htag.
    pose proof (parseTags_Forall_clean tagsString) as Hclean.
    rewrite Forall_forall in Hclean. by apply Hclean.
Qed.

(** X21: [parseTags] reads back the joined tags. For clean tags, parsing
    the text [tags.join(', ')], the text the editor puts into its tags
    field, gives the tags again; and for every text typed, parsing the
    joined result of [parseTags] gives that result. *)
Theorem parseTags_join (tags : list string) (tagsString : string) :
  (Forall clean_tag tags → parseTags (join_tags tags) = tags) ∧
  parseTags (join_tags (parseTags tagsString)) = parseTags tagsString.
Proof.
  split; [apply parseTags_round|].
  apply parseTags_round, parseTags_Forall_clean.
Qed.

Section folders.

Implicit Types (notes : list JSValue) (acc : list string) (f : string).

Lemma existsb_strict_equal f acc :
  existsb (strict_equal (VStr f)) (VStr <$> acc) = bool_decide (f ∈ acc).
Proof.
  induction acc as [|g acc IH]; [done|].
  rewrite fmap_cons. cbn [existsb strict_equal]. rewrite IH.
  destruct (String.eqb f g) eqn:Hfg; simpl.
  - apply String.eqb_eq in Hfg as ->. symmetry.
    apply bool_decide_eq_true. by left.
  - apply String.eqb_neq in Hfg.
    apply bool_decide_ext. rewrite elem_of_cons. naive_solver.
Qed.

Lemma collect_folders_text notes acc :
  forallb (λ n, is_object n && is_text (field "folder" n)) notes = true →
  NoDup acc →
  ∃ acc', collect_folders notes (VStr <$> acc) = Resolved (VStr <$> acc') ∧
          NoDup acc' ∧
          ∀ f, f ∈ acc' ↔
               f ∈ acc ∨
               (f ≠ "" ∧ f ≠ "default" ∧
                ∃ n, n ∈ notes ∧ field "folder" n = VStr f).
Proof.
  revert acc. induction notes as [|n notes IH]; intros acc Hnotes Hnd.
  { exists acc. split; [done|]. split; [done|]. intros f. split; [by left|].
    intros [?|(_ & _ & n & Hn & _)]; [done|by inversion Hn]. }
  simpl in Hnotes. apply andb_true_iff in Hnotes as [Hn Hnotes].
  apply andb_true_iff in Hn as [Hobj Htext].
  simpl. rewrite get_prop_object by done. cbn.
  destruct (field "folder" n) as [| | | |g| |] eqn:Hg; try done.
  simpl.
  destruct (String.eqb g "") eqn:Hempty; simpl.
  { apply String.eqb_eq in Hempty as ->.
    destruct (IH acc Hnotes Hnd) as (acc' & Hrun & Hnd' & Hin).
    exists acc'. split; [done|]. split; [done|]. intros f. rewrite Hin.
    split; (intros [?|(? & ? & m & Hm & Hf)]; [by left|right]).
    - split; [done|]. split; [done|]. exists m. split; [by right|done].
    - split; [done|]. split; [done|]. exists m. split; [|done].
      apply elem_of_cons in Hm as [->|?]; [congruence|done]. }
  destruct (String.eqb g "default") eqn:Hdefault; simpl.
  { apply String.eqb_eq in Hdefault as ->.
    destruct (IH acc Hnotes Hnd) as (acc' & Hrun & Hnd' & Hin).
    exists acc'. split; [done|]. split; [done|]. intros f. rewrite Hin.
    split; (intros [?|(? & ? & m & Hm & Hf)]; [by left|right]).
    - split; [done|]. split; [done|]. exists m. split; [by right|done].
    - split; [done|]. split; [done|]. exists m. split; [|done].
      apply elem_of_cons in Hm as [->|?]; [congruence|done]. }
  apply String.eqb_neq in Hempty, Hdefault.
  unfold set_add. rewrite existsb_strict_equal.
  destruct (bool_decide (g ∈ acc)) eqn:Hmem.
  - apply bool_decide_eq_true in Hmem.
    destruct (IH acc Hnotes Hnd) as (acc' & Hrun & Hnd' & Hin).
    exists acc'. split; [done|]. split; [done|]. intros f. rewrite Hin.
    split; (intros [?|(? & ? & m & Hm & Hf)]; [by left|]).
    + right. split; [done|]. split; [done|]. exists m.
      split; [by right|done].
    + apply elem_of_cons in Hm as [->|?].
      * left. congruence.
      * right. split; [done|]. split; [done|]. by exists m.
  - apply bool_decide_eq_false in Hmem.
    assert ((VStr <$> acc) ++ [VStr g] = VStr <$> (acc ++ [g]))%list as ->
      by (by rewrite fmap_app).
    destruct (IH (acc ++ [g])%list Hnotes) as (acc' & Hrun & Hnd' & Hin).
    { apply NoDup_app. split; [done|]. split; [|apply NoDup_singleton].
      intros x Hx ->%list_elem_of_singleton. done. }
    exists acc'. split; [done|]. split; [done|]. intros f. rewrite Hin.
    rewrite elem_of_app, list_elem_of_singleton. split.
    + intros [[?| ->]|(? & ? & m & Hm & Hf)]; [by left| |].
      * right. split; [done|]. split; [done|]. exists n. split; [by left|done].
      * right. split; [done|]. split; [done|]. exists m.
        split; [by right|done].
    + intros [?|(? & ? & m & Hm & Hf)]; [by left; left|].
      apply elem_of_cons in Hm as [->|?].
      * left. right. congruence.
      * right. split; [done|]. split; [done|]. by exists m.
Qed.

End folders.

(** X22: [getFolderNames] lists every folder in use once. For notes that
    are objects with a text as folder, it returns texts without
    repetition: exactly the folders of the notes other than the empty text
    and ['default']. *)
Theorem getFolderNames_distinct (notes : list JSValue) :
  forallb (λ n, is_object n && is_text (field "folder" n)) notes = true →
  ∃ folders : list string,
    getFolderNames notes = Resolved (VStr <$> folders) ∧
    NoDup folders ∧
    ∀ f, f ∈ folders ↔
         f ≠ "" ∧ f ≠ "default" ∧
         ∃ n, n ∈ notes ∧ field "folder" n = VStr f.
Proof.
  intros Hnotes.
  destruct (collect_folders_text notes [] Hnotes (NoDup_nil_2 (A:=string)))
    as (folders & Hrun & Hnd & Hin).
  exists folders. split; [done|]. split; [done|]. intros f. rewrite Hin.
  split; [intros [Hf|?]; [by inversion Hf|done]|by right].
Qed.

Lemma getFolderNames_distinct_witness :
  ∃ folders : list string,
    getFolderNames sample_notes = Resolved (VStr <$> folders) ∧
    NoDup folders ∧
    ∀ f, f ∈ folders ↔
         f ≠ "" ∧ f ≠ "default" ∧
         ∃ n, n ∈ sample_notes ∧ field "folder" n = VStr f.
Proof.
  apply (getFolderNames_distinct sample_notes). reflexivity.
Defined.

(** ** Folder lookup without a label *)

Section folder_edge.

Import IDB.

Implicit Types (w : World) (st : ObjectStore) (n v : JSValue)
  (notes : list JSValue).

(** The keys the index lists under some folder. *)
Lemma elem_of_index_union (idx : gmap IDBKey (gset IDBKey)) (pk : IDBKey) :
  pk ∈ map_fold (λ _ s acc, s ∪ acc) (∅ : gset IDBKey) idx
  ↔ ∃ f, pk ∈ idx !!! f.
Proof.
  apply (map_fold_weak_ind
           (λ (r : gset IDBKey) (m : gmap IDBKey (gset IDBKey)),
              pk ∈ r ↔ ∃ f, pk ∈ m !!! f)).
  - split; [set_solver|]. intros [f Hf]. by rewrite lookup_total_empty in Hf.
  - intros f s m r Hfresh IH. rewrite elem_of_union, IH. split.
    + intros [Hs|[g Hg]].
      * exists f. by rewrite lookup_total_insert_eq.
      * exists g. rewrite lookup_total_insert_ne; [done|].
        intros <-. by rewrite lookup_total_alt, Hfresh in Hg.
    + intros [g Hg]. destruct (decide (f = g)) as [<-|Hne].
      * left. by rewrite lookup_total_insert_eq in Hg.
      * right. exists g. by rewrite lookup_total_insert_ne in Hg.
Qed.

Lemma index_getAll_nullish st (q : JSValue) :
  store_wf st → is_nullish q = true →
  (∀ v, v ∈ getAll st → is_text (field "folder" v) = true) →
  ∃ r, index_getAll q st = OnSuccess r ∧ r ≡ₚ getAll st.
Proof.
  intros Hwf Hq Htext. destruct (index_getAll q st) as [|r|] eqn:Hr;
    [by destruct q| |by destruct q].
  exists r. split; [done|]. apply NoDup_Permutation.
  - by eapply index_getAll_NoDup.
  - by apply getAll_NoDup.
  - intros v. destruct Hwf as [Hk Hi].
    assert (r = omap (λ pk, records st !! pk)
                  (elements (map_fold (λ _ s acc, s ∪ acc) (∅ : gset IDBKey)
                               (folder_index st)))) as ->
      by (destruct q; by simplify_eq/=).
    rewrite list_elem_of_omap, elem_of_getAll.
    setoid_rewrite elem_of_elements.
    setoid_rewrite elem_of_index_union. setoid_rewrite Hi. split.
    + intros (pk & _ & Hv). eauto.
    + intros [pk Hv]. exists pk. split; [|done].
      specialize (Htext v ltac:(apply elem_of_getAll; eauto)).
      destruct (eval_key_path_object _ _ _ (Hk _ _ Hv))
        as (o & x & -> & _ & _).
      unfold field in Htext.
      destruct (o !! "folder") as [[| | | |f| |]|] eqn:Hf; try done.
      exists (KStr f), (VObj o). split; [done|]. simpl. by rewrite Hf.
Qed.

End folder_edge.

(** X23: without a label the two backends part. On a consistent store of
    notes whose folder is a text, [getNotesByFolder] called with undefined
    or null resolves with all the notes on the primary backend (the index
    is read without a key range) and with none on the fallback backend (no
    folder is identical to undefined or null); and on the fallback backend
    every label that is not a text finds none. *)
Theorem getNotesByFolder_without_label (w : World) (notes : list JSValue)
    (label : JSValue) :
  world_wf w →
  stored_notes w notes →
  forallb (λ n, is_text (field "folder" n)) notes = true →
  (is_nullish label = true →
   ∃ r, getNotesByFolder label w = (Resolved (VArr r), w) ∧
        r ≡ₚ (if isIndexedDBSupported w then notes else [])) ∧
  (isIndexedDBSupported w = false → is_text label = false →
   getNotesByFolder label w = (Resolved (VArr []), w)).
Proof.
  intros Hwf Hst Htext.
  assert (isIndexedDBSupported w = false →
          ∀ q, is_text q = false →
               getNotesByFolder q w = (Resolved (VArr []), w)) as Hfallback.
  { intros Hb q Hq. unfold getNotesByFolder. unfold_async. rewrite Hb.
    destruct Hst as [Hall Hobj]. rewrite Hall. cbn.
    rewrite (filter_from_total _ (λ _, false)).
    - replace (List.filter (λ _ : JSValue, false) notes) with (@nil JSValue);
        [done|]. clear. by induction notes.
    - rewrite forallb_forall in Hobj, Htext. apply Forall_forall.
      intros n Hn%list_elem_of_In. rewrite get_prop_object by auto. cbn.
      specialize (Htext n Hn).
      destruct (field "folder" n); try done.
      by destruct q. }
  split; [|by auto].
  destruct (isIndexedDBSupported w) eqn:Hb.
  - intros Hnull. destruct Hst as [Hall _].
    rewrite getAllNotes_primary in Hall by done. injection Hall as <-.
    destruct (index_getAll_nullish (db w) label (Hwf Hb) Hnull)
      as (r & Hr & Hperm).
    { intros v Hv%list_elem_of_In. rewrite forallb_forall in Htext. auto. }
    exists r. split; [|done]. rewrite getNotesByFolder_primary by done.
    by rewrite Hr.
  - intros Hnull. exists []. split; [|done].
    apply Hfallback; [done|]. by destruct label.
Qed.

Lemma getNotesByFolder_without_label_witness :
  (∃ r, getNotesByFolder VNull sample_primary
        = (Resolved (VArr r), sample_primary) ∧
        r ≡ₚ IDB.getAll (store_of sample_notes)) ∧
  getNotesByFolder VNull sample_fallback
  = (Resolved (VArr []), sample_fallback).
Proof.
  split.
  - apply (getNotesByFolder_without_label sample_primary
             (IDB.getAll (store_of sample_notes)) VNull).
    + intros _. apply store_of_wf.
    + split; reflexivity.
    + reflexivity.
    + reflexivity.
  - apply (getNotesByFolder_without_label sample_fallback sample_notes VNull).
    + intros H. discriminate H.
    + split; reflexivity.
    + reflexivity.
    + reflexivity.
    + reflexivity.
Defined.

(** ** Soundness of the store is an invariant *)

Section soundness.

Implicit Types (w : World) (v id updates data : JSValue)
  (notes : list JSValue).

(** On the primary backend a consistent store is sound. *)
Lemma sound_primary w :
  isIndexedDBSupported w = true → world_wf w → sound w.
Proof.
  intros Hb Hwf. split; [done|]. eexists. by apply stored_notes_primary.
Qed.

(** On the fallback backend the store is sound when the text reads as an
    array of objects. *)
Lemma sound_fallback w :
  isIndexedDBSupported w = false →
  sound w ↔ ∃ notes, parsed_notes w = Resolved (VArr notes) ∧
                     forallb is_object notes = true.
Proof.
  intros Hb. split.
  - intros [_ [notes Hst]]. exists notes.
    split; [by apply stored_notes_fallback|by destruct Hst].
  - intros (notes & Hp & Hobj). split; [intros ?; congruence|].
    exists notes. split; [|done]. by rewrite getAllNotes_fallback, Hp.
Qed.

Lemma parsed_notes_written w notes :
  map json_norm notes = notes →
  parsed_notes (set_offline_notes (Stringified (VArr notes)) w)
  = Resolved (VArr notes).
Proof. intros Hn. rewrite parsed_notes_set by done. simpl. by rewrite Hn. Qed.

Lemma createNote_flag v w :
  isIndexedDBSupported (createNote v w).2 = isIndexedDBSupported w.
Proof. by destruct (createNote_world v w) as (_ & _ & _ & _ & ?). Qed.

Lemma createNote_sound v w : sound w → sound (createNote v w).2.
Proof.
  intros [Hwf [notes Hst]].
  pose proof (createNote_wf v w Hwf) as Hwf'.
  pose proof (createNote_flag v w) as Hflag.
  destruct (isIndexedDBSupported w) eqn:Hb; [by apply sound_primary|].
  apply sound_fallback; [done|].
  pose proof (stored_notes_fallback _ _ Hb Hst) as Hp.
  pose proof (stored_notes_norm _ _ Hb Hst) as Hnorm.
  destruct (is_nullish v) eqn:Hv.
  { rewrite createNote_nullish by done. exists notes.
    split; [done|by destruct Hst]. }
  rewrite (createNote_fallback v w notes) by done. cbn [snd].
  exists (notes ++ [json_norm (new_note v w)])%list. split.
  - rewrite parsed_notes_set by done. cbn [JSON_parse json_norm].
    by rewrite map_app, Hnorm.
  - rewrite forallb_app. destruct Hst as [_ ->]. done.
Qed.

Lemma updateNote_flag id updates w :
  isIndexedDBSupported (updateNote id updates w).2 = isIndexedDBSupported w.
Proof.
  unfold updateNote, bind. pose proof (getNote_world w id) as Hw.
  destruct (getNote id w) as [[existing|e] w0]; simpl in Hw; subst w0;
    [|done].
  destruct (truthy existing); [|done]. simpl.
  unfold new_Date_toISOString, Date_now. unfold_async.
  change (isIndexedDBSupported (tick w)) with (isIndexedDBSupported w).
  destruct (isIndexedDBSupported w) eqn:Hb.
  - rewrite updateNoteIndexedDB_run. by destruct (IDB.put _ _).
  - rewrite updateNoteLocalStorage_run. by destruct (_ ≫= _).
Qed.

Lemma updateNoteLocalStorage_world (o : Obj) w notes :
  parsed_notes w = Resolved (VArr notes) →
  (updateNoteLocalStorage (VObj o) w).2 = w ∨
  ∃ i, (updateNoteLocalStorage (VObj o) w).2
       = set_offline_notes (Stringified (VArr (<[i := VObj o]> notes))) w.
Proof.
  intros Hp. rewrite updateNoteLocalStorage_run, Hp. cbn -[field].
  destruct (findIndex_from _ notes 0) as [r|]; [|by left].
  cbn. destruct (r =? -1)%Z; [by left|]. right. by eexists.
Qed.

Lemma updateNote_sound id updates w :
  sound w → sound (updateNote id updates w).2.
Proof.
  intros [Hwf [notes Hst]].
  pose proof (updateNote_wf id updates w Hwf) as Hwf'.
  pose proof (updateNote_flag id updates w) as Hflag.
  destruct (isIndexedDBSupported w) eqn:Hb; [by apply sound_primary|].
  apply sound_fallback; [done|].
  pose proof (stored_notes_fallback _ _ Hb Hst) as Hp.
  pose proof (stored_notes_norm _ _ Hb Hst) as Hnorm.
  assert (∃ l, parsed_notes w = Resolved (VArr l) ∧
               forallb is_object l = true) as Hsame
    by (exists notes; by destruct Hst).
  pose proof (getNote_world w id) as Hw.
  destruct (getNote id w) as [[existing|e] w0] eqn:Hget; simpl in Hw;
    subst w0; [|by unfold updateNote, bind; rewrite Hget].
  destruct (truthy existing) eqn:Htruthy;
    [|by unfold updateNote, bind; rewrite Hget, Htruthy].
  rewrite (updateNote_run _ _ _ _ Hget Htruthy). cbv zeta. rewrite Hb.
  assert (∃ o', updated_note existing updates (clock w (clock_reads w))
                = VObj o') as [o' ->] by (unfold updated_note; eauto).
  destruct (updateNoteLocalStorage_world o' (tick w) notes Hp)
    as [->|[i ->]]; [by exists notes; destruct Hst|].
  exists (<[i := json_norm (VObj o')]> notes). split.
  - rewrite parsed_notes_set by done. cbn [JSON_parse json_norm].
    rewrite <-Hnorm at 2. do 2 f_equal. apply (list_fmap_insert json_norm).
  - apply forallb_insert; [by destruct Hst|done].
Qed.

Lemma deleteNote_sound id w : sound w → sound (deleteNote id w).2.
Proof.
  intros [Hwf [notes Hst]].
  pose proof (deleteNote_wf id w Hwf) as Hwf'.
  destruct (isIndexedDBSupported w) eqn:Hb.
  - apply sound_primary; [|done].
    unfold deleteNote. unfold_async. rewrite Hb.
    fold (deleteNoteIndexedDB id w). rewrite deleteNoteIndexedDB_run.
    by destruct (IDB.delete id (db w)).
  - rewrite (deleteNote_fallback w id notes) in * by done.
    apply sound_fallback; [done|].
    exists (List.filter (other_id id) notes). split.
    + apply parsed_notes_written, map_json_norm_filter.
      by eapply stored_notes_norm.
    + apply forallb_filter. by destruct Hst.
Qed.

Lemma clearAllData_sound w : sound (clearAllData w).2.
Proof.
  pose proof (clearAllData_wf w) as Hwf. rewrite clearAllData_run in *.
  cbn [snd] in *. destruct (isIndexedDBSupported w) eqn:Hb.
  - by apply sound_primary.
  - apply sound_fallback; [done|]. by exists [].
Qed.

Lemma for_of_createNote_sound (l : list JSValue) w :
  sound w → sound (for_of createNote l w).2.
Proof.
  revert w. induction l as [|v l IH]; intros w Hs; [done|].
  simpl. unfold bind. pose proof (createNote_sound v w Hs) as Hs1.
  destruct (createNote v w) as [[n|e] w1]; simpl in *; auto.
Qed.

Lemma importData_sound data w : sound w → sound (importData data w).2.
Proof.
  intros Hs. unfold importData. unfold_async.
  destruct (get_prop data "notes") as [notes|]; [|done].
  destruct (negb (truthy notes) || negb (is_array notes)); [done|].
  pose proof (clearAllData_sound w) as Hs1.
  destruct (clearAllData w) as [[r|e] w1]; simpl in *; [|done].
  destruct (as_array notes) as [items|]; [|done].
  pose proof (for_of_createNote_sound items w1 Hs1) as Hs2.
  by destruct (for_of createNote items w1) as [[[]|e] w2].
Qed.

Lemma run_write_sound (op : Write) w : sound w → sound (run_write op w).2.
Proof.
  destruct op; simpl;
    auto using createNote_sound, updateNote_sound, deleteNote_sound,
      importData_sound.
  intros _. apply clearAllData_sound.
Qed.

End soundness.

(** X24: soundness of the store is an invariant of every write. From a
    store that is consistent and holds a collection of note objects, every
    sequence of [createNote], [updateNote], [deleteNote], [clearAllData]
    and [importData] calls, with whatever arguments and whether the calls
    resolve or reject, leaves a store that is consistent and holds a
    collection of note objects: afterwards [getAllNotes] resolves with an
    array of objects. *)
Theorem writes_keep_store_sound (ops : list Write) (w : World) :
  sound w →
  sound (run_writes ops w) ∧
  ∃ notes, getAllNotes (run_writes ops w)
           = (Resolved (VArr notes), run_writes ops w) ∧
           forallb is_object notes = true.
Proof.
  intros Hs.
  assert (sound (run_writes ops w)) as Hs'.
  { revert w Hs. induction ops as [|op ops IH]; intros w Hs; [done|].
    simpl. by apply IH, run_write_sound. }
  split; [done|]. destruct Hs' as [_ [notes [Hall Hobj]]]. eauto.
Qed.

Lemma writes_keep_store_sound_witness :
  let ops := [ CreateNote (VObj {[ "title" := VStr "A" ]});
               UpdateNote (VStr "note_1") (VObj {[ "id" := VStr "note_9" ]});
               ImportData (VObj {[ "notes" := VArr [VNull] ]});
               DeleteNote (VBool true) ] in
  sound (run_writes ops sample_fallback) ∧
  ∃ notes, getAllNotes (run_writes ops sample_fallback)
           = (Resolved (VArr notes), run_writes ops sample_fallback) ∧
           forallb is_object notes = true.
Proof.
  intros ops. apply (writes_keep_store_sound ops sample_fallback).
  split.
  - intros Hb. discriminate Hb.
  - exists sample_notes. split; reflexivity.
Defined.

Section fresh.

Lemma init_sound (w : World) (request : IDB.Request IDB.ObjectStore) :
  offline_notes w = None →
  (∀ st, request = IDB.OnSuccess st → IDB.store_wf st) →
  sound (init request w).2.
Proof.
  intros Hnone Hreq.
  assert (∀ w0, isIndexedDBSupported w0 = false → offline_notes w0 = None →
                sound (initLocalStorage w0).2) as Hfallback.
  { intros w0 Hb0 H0. rewrite initLocalStorage_run, H0.
    destruct (Storage_defined w0); cbn [snd];
      (apply sound_fallback; [done|]; exists []);
      unfold parsed_notes; [done|by rewrite H0]. }
  unfold init, initIndexedDB. unfold_async.
  destruct (isIndexedDBSupported w) eqn:Hb.
  - destruct request as [|st|]; cbn -[initLocalStorage].
    + by apply Hfallback.
    + rewrite Hb. cbn [snd]. apply sound_primary; [done|].
      intros _. by apply Hreq.
    + by apply Hfallback.
  - cbn -[initLocalStorage]. rewrite Hb. by apply Hfallback.
Qed.

End fresh.

(** X25: every store the manager can reach is sound. In a browser with
    nothing under the notes key, whatever the open request of [init] does
    (it throws, fires [onerror], or fires [onsuccess] with a consistent
    store), [init] followed by any sequence of writes leaves a store that
    is consistent and holds a collection of note objects. *)
Theorem fresh_start_sound (w : World)
    (request : IDB.Request IDB.ObjectStore) (ops : list Write) :
  offline_notes w = None →
  (∀ st, request = IDB.OnSuccess st → IDB.store_wf st) →
  sound (run_writes ops (init request w).2).
Proof.
  intros Hnone Hreq. pose proof (init_sound w request Hnone Hreq) as Hs.
  revert Hs. generalize (init request w).2. clear.
  induction ops as [|op ops IH]; intros w Hs; [done|].
  simpl. by apply IH, run_write_sound.
Qed.

Lemma fresh_start_sound_witness :
  sound (run_writes
           [ CreateNote (VObj {[ "title" := VStr "A" ]});
             ImportData (VObj {[ "notes" := VArr [VNull] ]}) ]
           (init (IDB.OnSuccess IDB.empty_store)
              (primary_world IDB.empty_store)).2).
Proof.
  apply (fresh_start_sound (primary_world IDB.empty_store)
           (IDB.OnSuccess IDB.empty_store)).
  - reflexivity.
  - intros st Hst. injection Hst as <-. apply empty_store_wf.
Defined.

(** ** The scenarios of the specification *)

Example folders_fallback :
  outcome scenario_folders empty_fallback
  = Resolved ([VStr "A"; VStr "C"], 3%nat).
Proof. by vm_compute. Qed.

Example folders_primary :
  ∃ titles,
    outcome scenario_folders empty_primary = Resolved (titles, 3%nat) ∧
    titles ≡ₚ [VStr "A"; VStr "C"].
Proof. eexists. split; [by vm_compute|]. apply perm_swap. Qed.

Example update_fallback :
  outcome scenario_update empty_fallback = Resolved (VStr "Y", VStr "").
Proof. by vm_compute. Qed.

Example update_primary :
  outcome scenario_update empty_primary = Resolved (VStr "Y", VStr "").
Proof. by vm_compute. Qed.

Example delete_fallback :
  outcome scenario_delete empty_fallback
  = Resolved [VBool true; VBool true; VUndefined].
Proof. by vm_compute. Qed.

Example delete_primary :
  outcome scenario_delete empty_primary
  = Resolved [VBool true; VBool true; VUndefined].
Proof. by vm_compute. Qed.

Example search_sample :
  outcome (searchNotes (VStr "PLAN")) sample_fallback
  = Resolved (VArr [sample_note "note_2" "Sprint plan" "work" ["planning"]
                      1600000100000 1600000200000]) ∧
  outcome (searchNotes (VStr "food")) sample_primary
  = Resolved (VArr [sample_note "note_1" "Groceries" "home" ["Food"; "list"]
                      1600000000000 1600000000000]) ∧
  outcome (searchNotes (VStr "nothing like it")) sample_primary
  = Resolved (VArr []).
Proof. repeat split; by vm_compute. Qed.

Example toISOString_ex :
  toISOString 0 = "1970-01-01T00:00:00.000Z" ∧
  toISOString 1709164800000 = "2024-02-29T00:00:00.000Z" ∧
  toISOString 951782400000 = "2000-02-29T00:00:00.000Z" ∧
  toISOString 1672531199999 = "2022-12-31T23:59:59.999Z" ∧
  toISOString 1700000000000 = "2023-11-14T22:13:20.000Z" ∧
  toISOString 4102444800000 = "2100-01-01T00:00:00.000Z" ∧
  toISOString 253402300800000 = "+010000-01-01T00:00:00.000Z".
Proof. vm_compute. repeat split. Qed.

(** Start-up in a browser without [Storage]: with the database opened the
    manager never looks for it; with the open request failing there is
    nothing to fall back on. *)
Example init_bare :
  outcome (init (IDB.OnSuccess IDB.empty_store)) bare_world = Resolved tt ∧
  outcome (init IDB.OnError) bare_world
  = Rejected (Error "Neither IndexedDB nor localStorage is supported") ∧
  outcome (init IDB.Threw) bare_world
  = Rejected (Error "Neither IndexedDB nor localStorage is supported").
Proof. repeat split; by vm_compute. Qed.

(** Lower case beyond A-Z: É (201) becomes é (233); the multiplication
    sign (215) and ß (223) stay. *)
Example toLowerCase_ex :
  toLowerCase (String (ascii_of_nat 201) "TE")
  = String (ascii_of_nat 233) "te" ∧
  toLowerCase (String (ascii_of_nat 215) (String (ascii_of_nat 223) ""))
  = String (ascii_of_nat 215) (String (ascii_of_nat 223) "").
Proof. split; reflexivity. Qed.
